(** * convert_h1_to_h2: Markdown H1 -> H2 converter

    A shallow embedding of [convert_h1_to_h2.py] and the properties of its
    line scanner, of its safe-write plumbing and of its run orchestration.

    Python strings are sequences of Unicode code points: a string is a
    [list N], one number per code point.  Files hold bytes, also [list N]
    with each element below 256.

    Part I holds the program: [Text] (the string methods used), [Convert]
    (the transform, with the predicates its properties are stated with),
    [Codec] (the three encodings) and [Sys] (the file system, the failures
    the environment can inject, and the functions that touch files).  Part
    II holds the properties, module by module. *)

From Stdlib Require Import String Ascii NArith List Lia Bool DecimalString
  Sorted.
From stdpp Require Import base option list gmap.
Import ListNotations.

Local Open Scope N_scope.
Local Open Scope nat_scope.

(** * Part I: the program *)

(** ** Python [str] operations used by the program *)

Module Text.

Abbreviation str := (list N).

(** A literal written in the source, as code points. *)
Definition lit (s : string) : str := map N_of_ascii (list_ascii_of_string s).

Definition NL : N := 10%N.
Definition CR : N := 13%N.
Definition SP : N := 32%N.
Definition HASH : N := 35%N.
Definition COMMA : N := 44%N.
Definition DOT : N := 46%N.

(** [str.isspace] for one code point: the set that [str.strip] and
    [str.lstrip] (called without argument) remove. *)
Definition isspace (c : N) : bool :=
  ((9 <=? c) && (c <=? 13) || (28 <=? c) && (c <=? 32)
   || (c =? 133) || (c =? 160) || (c =? 5760)
   || (8192 <=? c) && (c <=? 8202)
   || (c =? 8232) || (c =? 8233) || (c =? 8239) || (c =? 8287)
   || (c =? 12288))%N.

(** [s.lstrip()] *)
Fixpoint lstrip (s : str) : str :=
  match s with
  | [] => []
  | c :: s' => if isspace c then lstrip s' else s
  end.

(** [s.rstrip()] *)
Definition rstrip (s : str) : str := rev (lstrip (rev s)).

(** [s.strip()] *)
Definition strip (s : str) : str := lstrip (rstrip s).

(** [s.startswith(p)] *)
Fixpoint startswith (s p : str) {struct p} : bool :=
  match p, s with
  | [], _ => true
  | _ :: _, [] => false
  | a :: p', c :: s' => (c =? a)%N && startswith s' p'
  end.

(** [s.endswith(p)] *)
Definition endswith (s p : str) : bool := startswith (rev s) (rev p).

(** [s.split(sep)] for a separator of one character (the program splits on
    a line feed and on a comma).  The result is never empty. *)
Fixpoint split (sep : N) (s : str) : list str :=
  match s with
  | [] => [[]]
  | c :: s' =>
      if (c =? sep)%N then [] :: split sep s'
      else match split sep s' with
           | l :: ls => (c :: l) :: ls
           | [] => [[c]]
           end
  end.

(** [sep.join(ls)] for a separator of one character. *)
Fixpoint join (sep : N) (ls : list str) : str :=
  match ls with
  | [] => []
  | [l] => l
  | l :: ls' => l ++ sep :: join sep ls'
  end.

(** No line feed inside: what every element of a split on line feeds
    satisfies. *)
Definition one_line (s : str) : Prop := Forall (fun c => c <> NL) s.

End Text.

(** ** The heading transform *)

Module Convert.

Import Text.

(** The regular expression [h1_pattern]: start anchor, group 1 of zero to
    three spaces, group 2 of a hash and a space, group 3 of any characters,
    end anchor.

    [dot_star_dollar rest] is group 3 followed by the end anchor: the dot is
    any character but a line feed, and the end anchor holds at the end of the
    string and just before a line feed that ends the string.  It returns
    group 3. *)
Fixpoint dot_star_dollar (rest : str) : option str :=
  match rest with
  | [] => Some []
  | c :: rest' =>
      if (c =? NL)%N then
        match rest' with [] => Some [] | _ :: _ => None end
      else option_map (cons c) (dot_star_dollar rest')
  end.

(** One alternative of the bounded repetition [ {0,3}]: exactly [n] spaces,
    then a hash and a space, then the tail.  Groups 1 and 3 are returned. *)
Definition h1_try (n : nat) (line : str) : option (str * str) :=
  if bool_decide (take n line = repeat SP n)
     && startswith (drop n line) (lit "# ")
  then option_map (fun r => (repeat SP n, r)) (dot_star_dollar (drop (n + 2) line))
  else None.

(** [h1_pattern.match(line)]: the repetition is greedy, so the matcher
    tries three spaces first and backtracks down to none. *)
Definition h1_match (line : str) : option (str * str) :=
  match h1_try 3 line with
  | Some m => Some m
  | None =>
    match h1_try 2 line with
    | Some m => Some m
    | None =>
      match h1_try 1 line with
      | Some m => Some m
      | None => h1_try 0 line
      end
    end
  end.

(** The local variables of [convert_h1_to_h2] that the loop updates. *)
Record scan := Scan {
  result_lines : list str;
  replacement_count : nat;
  in_frontmatter : bool;
  in_code_block : bool;
  code_fence_pattern : option str
}.

Definition init : scan :=
  {| result_lines := []; replacement_count := 0;
     in_frontmatter := false; in_code_block := false;
     code_fence_pattern := None |}.

Definition FENCE_BACKTICK : str := lit "```".
Definition FENCE_TILDE : str := lit "~~~".
Definition DASHES : str := lit "---".

(** [result_lines.append(l)] *)
Definition append (l : str) (st : scan) : scan :=
  {| result_lines := result_lines st ++ [l];
     replacement_count := replacement_count st;
     in_frontmatter := in_frontmatter st;
     in_code_block := in_code_block st;
     code_fence_pattern := code_fence_pattern st |}.

Definition set_frontmatter (b : bool) (st : scan) : scan :=
  {| result_lines := result_lines st;
     replacement_count := replacement_count st;
     in_frontmatter := b;
     in_code_block := in_code_block st;
     code_fence_pattern := code_fence_pattern st |}.

Definition set_fence (b : bool) (p : option str) (st : scan) : scan :=
  {| result_lines := result_lines st;
     replacement_count := replacement_count st;
     in_frontmatter := in_frontmatter st;
     in_code_block := b;
     code_fence_pattern := p |}.

Definition count_one (st : scan) : scan :=
  {| result_lines := result_lines st;
     replacement_count := replacement_count st + 1;
     in_frontmatter := in_frontmatter st;
     in_code_block := in_code_block st;
     code_fence_pattern := code_fence_pattern st |}.

(** The last part of the loop body: the heading check. *)
Definition heading (line : str) (st : scan) : scan :=
  match h1_match line with
  | Some (leading_spaces, rest_of_line) =>
      count_one (append (leading_spaces ++ lit "## " ++ rest_of_line) st)
  | None => append line st
  end.

(** One iteration of [for i, line in enumerate(lines)].  [None] is the
    [TypeError] that [startswith] raises when given [None]. *)
Definition body (i : nat) (line : str) (st : scan) : option scan :=
  if (i =? 0) && bool_decide (strip line = DASHES) then
    Some (append line (set_frontmatter true st))
  else if in_frontmatter st then
    Some (if bool_decide (strip line = DASHES)
          then set_frontmatter false (append line st)
          else append line st)
  else
    let stripped := lstrip line in
    if negb (in_code_block st) then
      if startswith stripped FENCE_BACKTICK then
        Some (append line (set_fence true (Some FENCE_BACKTICK) st))
      else if startswith stripped FENCE_TILDE then
        Some (append line (set_fence true (Some FENCE_TILDE) st))
      else Some (heading line st)
    else
      match code_fence_pattern st with
      | None => None
      | Some p =>
          Some (append line
                  (if startswith stripped p then set_fence false None st else st))
      end.

(** The loop from index [i] on. *)
Fixpoint loop (i : nat) (lines : list str) (st : scan) : option scan :=
  match lines with
  | [] => Some st
  | line :: lines' =>
      match body i line st with
      | Some st' => loop (S i) lines' st'
      | None => None
      end
  end.

Definition convert_h1_to_h2 (content : str) : option (str * nat) :=
  match loop 0 (split NL content) init with
  | Some st => Some (join NL (result_lines st), replacement_count st)
  | None => None
  end.

(** The state of the loop when it reaches the line of index [i]. *)
Definition state_at (lines : list str) (i : nat) : option scan :=
  loop 0 (take i lines) init.

(** *** The heading pattern, in words

    A line is a level-one heading with [k] leading spaces and text [rest]
    when [k] is at most three and the line is [k] spaces, a hash, a space
    and [rest]. *)
Definition h1_line (line : str) (k : nat) (rest : str) : Prop :=
  k <= 3 /\ line = repeat SP k ++ lit "# " ++ rest.

(** The same as a test: count the leading spaces, then look for the hash
    and the space. *)
Fixpoint leading_spaces (line : str) : nat :=
  match line with
  | c :: line' => if (c =? SP)%N then S (leading_spaces line') else 0
  | [] => 0
  end.

Definition is_h1 (line : str) : bool :=
  (leading_spaces line <=? 3)
  && startswith (drop (leading_spaces line) line) (lit "# ").

(** *** The loop *)

(** What holds of the loop variables when the loop reaches index [i],
    starting from [init] at index 0. *)
Definition inv (i : nat) (st : scan) : Prop :=
  (i = 0 -> st = init)
  /\ (in_code_block st = true ->
      code_fence_pattern st = Some FENCE_BACKTICK
      \/ code_fence_pattern st = Some FENCE_TILDE)
  /\ (in_frontmatter st = true -> in_code_block st = false)
  /\ length (result_lines st) = i.

(** Iteration [i] of the loop over the lines of [content]: it reads [line]
    with the loop variables as in [st], leaves them as in [st'], and the
    line of index [i] of the returned content is [o]. *)
Record iteration (content : str) (i : nat) (line : str)
    (st st' : scan) (o : str) : Prop := {
  it_line : split NL content !! i = Some line;
  it_before : state_at (split NL content) i = Some st;
  it_step : body i line st = Some st';
  it_out : exists out n,
      convert_h1_to_h2 content = Some (out, n) /\ split NL out !! i = Some o
}.

(** *** Counting *)

(** The line of index [i] is a level-one heading met outside frontmatter
    and outside a fence. *)
Definition convertible (lines : list str) (i : nat) : bool :=
  match lines !! i, state_at lines i with
  | Some line, Some st =>
      negb (in_frontmatter st) && negb (in_code_block st) && is_h1 line
  | _, _ => false
  end.

(** *** A second pass over the output *)

(** The loop variables a second pass depends on. *)
Definition same_flags (st st2 : scan) : Prop :=
  in_frontmatter st = in_frontmatter st2
  /\ in_code_block st = in_code_block st2
  /\ code_fence_pattern st = code_fence_pattern st2.

(** *** Content without frontmatter and without fences *)

Definition no_excluded_regions (content : str) : Prop :=
  (forall l, split NL content !! 0 = Some l -> strip l <> DASHES)
  /\ Forall (fun l => startswith (lstrip l) FENCE_BACKTICK = false
                     /\ startswith (lstrip l) FENCE_TILDE = false)
            (split NL content).

(** The round trip as the documentation words it: the count is the number
    [N] of heading lines, exactly [N] lines of the output begin with two
    hashes, and they sit at the indices of the heading lines. *)
Definition round_trip_as_worded (content : str) : Prop :=
  no_excluded_regions content ->
  exists out n,
    convert_h1_to_h2 content = Some (out, n)
    /\ n = length (List.filter is_h1 (split NL content))
    /\ length (List.filter (fun l => startswith l (lit "##")) (split NL out)) = n
    /\ (forall i l, split NL content !! i = Some l -> is_h1 l = true ->
        exists l', split NL out !! i = Some l'
                   /\ startswith l' (lit "##") = true).

End Convert.

(** ** Text encodings *)

Module Codec.

Import Text.

Abbreviation bytes := (list N).

(** The encodings the program names: utf-8, utf-8-sig and latin-1. *)
Inductive encoding := UTF8 | UTF8_SIG | LATIN1.

#[global] Instance encoding_eq_dec : EqDecision encoding.
Proof. solve_decision. Defined.

Definition continuation (b : N) : bool := ((128 <=? b) && (b <=? 191))%N.

Definition surrogate (c : N) : bool := ((55296 <=? c) && (c <=? 57343))%N.

(** Strict UTF-8 decoding: shortest forms only, no surrogate, nothing above
    U+10FFFF.  [None] is a [UnicodeDecodeError]. *)
Fixpoint utf8_decode (bs : bytes) : option str :=
  match bs with
  | [] => Some []
  | b0 :: r0 =>
    if (b0 <? 128)%N then option_map (cons b0) (utf8_decode r0)
    else if ((194 <=? b0) && (b0 <=? 223))%N then
      match r0 with
      | b1 :: r1 =>
          if continuation b1
          then option_map (cons ((b0 - 192) * 64 + (b1 - 128))%N) (utf8_decode r1)
          else None
      | _ => None
      end
    else if ((224 <=? b0) && (b0 <=? 239))%N then
      match r0 with
      | b1 :: b2 :: r2 =>
          let c := ((b0 - 224) * 4096 + (b1 - 128) * 64 + (b2 - 128))%N in
          if continuation b1 && continuation b2
             && (2048 <=? c)%N && negb (surrogate c)
          then option_map (cons c) (utf8_decode r2)
          else None
      | _ => None
      end
    else if ((240 <=? b0) && (b0 <=? 244))%N then
      match r0 with
      | b1 :: b2 :: b3 :: r3 =>
          let c := ((b0 - 240) * 262144 + (b1 - 128) * 4096
                    + (b2 - 128) * 64 + (b3 - 128))%N in
          if continuation b1 && continuation b2 && continuation b3
             && (65536 <=? c)%N && (c <=? 1114111)%N
          then option_map (cons c) (utf8_decode r3)
          else None
      | _ => None
      end
    else None
  end.

(** UTF-8 encoding of one code point.  [None] is a [UnicodeEncodeError]. *)
Definition utf8_encode_char (c : N) : option bytes :=
  if (c <? 128)%N then Some [c]
  else if (c <? 2048)%N then Some [192 + c / 64; 128 + c mod 64]%N
  else if (c <? 65536)%N then
    if surrogate c then None
    else Some [224 + c / 4096; 128 + (c / 64) mod 64; 128 + c mod 64]%N
  else if (c <=? 1114111)%N then
    Some [240 + c / 262144; 128 + (c / 4096) mod 64;
          128 + (c / 64) mod 64; 128 + c mod 64]%N
  else None.

Fixpoint utf8_encode (s : str) : option bytes :=
  match s with
  | [] => Some []
  | c :: s' =>
      match utf8_encode_char c, utf8_encode s' with
      | Some b, Some bs => Some (b ++ bs)
      | _, _ => None
      end
  end.

(** The byte order mark that utf-8-sig skips when reading and writes first
    when writing. *)
Definition BOM : bytes := [239; 187; 191]%N.

Definition strip_bom (bs : bytes) : bytes :=
  match bs with
  | 239 :: 187 :: 191 :: r => r
  | _ => bs
  end%N.

(** [bytes.decode(encoding)] *)
Definition decode (e : encoding) (bs : bytes) : option str :=
  match e with
  | UTF8 => utf8_decode bs
  | UTF8_SIG => utf8_decode (strip_bom bs)
  | LATIN1 => Some bs
  end.

(** [str.encode(encoding)] *)
Definition encode (e : encoding) (s : str) : option bytes :=
  match e with
  | UTF8 => utf8_encode s
  | UTF8_SIG => option_map (app BOM) (utf8_encode s)
  | LATIN1 => if forallb (fun c => c <? 256)%N s then Some s else None
  end.

(** Reading in text mode with the default [newline=None]: a carriage
    return followed by a line feed, and a lone carriage return, are both read
    as one line feed. *)
Fixpoint universal_newlines (s : str) : str :=
  match s with
  | [] => []
  | c :: s' =>
      if (c =? CR)%N then
        match s' with
        | c' :: s'' =>
            if (c' =? NL)%N then NL :: universal_newlines s''
            else NL :: universal_newlines s'
        | [] => [NL]
        end
      else c :: universal_newlines s'
  end.

End Codec.

(** ** The file system, failures and the effects of the program *)

Module Sys.

Import Text Convert Codec.

(** A path is the list of its parts below the root of the file system:
    [Path.parts] without the anchor. *)
Abbreviation path := (list str).

(** A file holds bytes and metadata (what [shutil.copy2] carries along). *)
Inductive node := File (data : bytes) (meta : N) | Dir.

(** The exceptions the modelled calls raise. *)
Inductive exn :=
| OSError (errno : N) (strerror : str)
| UnicodeDecodeError (e : encoding)
| UnicodeEncodeError (e : encoding)
| ValueError (p root : path)
| TypeError
| SameFileError (src dst : path).

(** What the environment decides for one system call: let it through, or
    make it fail with an [OSError]; [done] is the number of bytes that
    reached the file when the call was a write. *)
Inductive fault := NoFault | Fail (errno : N) (strerror : str) (done : nat).

(** The system calls made, in order, with their outcome. *)
Inductive event :=
| EOpen (p : path) (e : encoding) (ok : bool)
| EMkstemp (dir : path) (created : option path)
| EWrite (p : path) (ok : bool)
| EReplace (src dst : path) (ok : bool)
| EUnlink (p : path) (ok : bool)
| EMkdir (p : path) (ok : bool)
| ECopy (src dst : path) (ok : bool).

(** One value per [print] statement of the program. *)
Inductive out_line :=
| PFound (rel : path) (replacements : nat)
| PBackupCreated (name : str)
| PBanner (vault : path) (dry_run : bool)
| PBackups (enabled : bool)
| PExtraExcludes (names : list str)
| PFoundFiles (n : nat)
| PProcessing
| PSummary (scanned changed total : nat)
| PDryRunNote
| PModified (changed : nat)
| PBackupsSavedTo (dir : path)
| PNoH1
| PErrors (errors : list str)
| PRule
| PNotExists (vault : path)
| PNotDir (vault : path).

Record world := World {
  fs : gmap path node;
  clock : N;
  timestamp : str;
  entropy : list str;
  faults : list fault;
  log : list event;
  stdout : list out_line;
  stderr : list out_line
}.

Definition with_fs (f : gmap path node -> gmap path node) (w : world) : world :=
  {| fs := f (fs w); clock := clock w; timestamp := timestamp w;
     entropy := entropy w; faults := faults w; log := log w;
     stdout := stdout w; stderr := stderr w |}.

Definition with_entropy (l : list str) (w : world) : world :=
  {| fs := fs w; clock := clock w; timestamp := timestamp w;
     entropy := l; faults := faults w; log := log w;
     stdout := stdout w; stderr := stderr w |}.

Definition with_faults (l : list fault) (w : world) : world :=
  {| fs := fs w; clock := clock w; timestamp := timestamp w;
     entropy := entropy w; faults := l; log := log w;
     stdout := stdout w; stderr := stderr w |}.

Definition with_log (ev : event) (w : world) : world :=
  {| fs := fs w; clock := clock w; timestamp := timestamp w;
     entropy := entropy w; faults := faults w; log := log w ++ [ev];
     stdout := stdout w; stderr := stderr w |}.

Definition with_stdout (l : out_line) (w : world) : world :=
  {| fs := fs w; clock := clock w; timestamp := timestamp w;
     entropy := entropy w; faults := faults w; log := log w;
     stdout := stdout w ++ [l]; stderr := stderr w |}.

Definition with_stderr (l : out_line) (w : world) : world :=
  {| fs := fs w; clock := clock w; timestamp := timestamp w;
     entropy := entropy w; faults := faults w; log := log w;
     stdout := stdout w; stderr := stderr w ++ [l] |}.

(** *** Computations that read and change the world and may raise *)

Definition M (A : Type) : Type := world -> (exn + A) * world.

Definition ret {A} (a : A) : M A := fun w => (inr a, w).

Definition raise {A} (e : exn) : M A := fun w => (inl e, w).

Definition bind {A B} (m : M A) (k : A -> M B) : M B :=
  fun w =>
    match m w with
    | (inl e, w') => (inl e, w')
    | (inr a, w') => k a w'
    end.

(** [try: m except ...: h] for the exceptions that [catches] selects. *)
Definition try_except {A} (catches : exn -> bool) (m : M A) (h : exn -> M A)
  : M A :=
  fun w =>
    match m w with
    | (inl e, w') => if catches e then h e w' else (inl e, w')
    | (inr a, w') => (inr a, w')
    end.

Definition get : M world := fun w => (inr w, w).

Definition modify (f : world -> world) : M unit := fun w => (inr tt, f w).

Notation "'let*' x ':=' m 'in' k" := (bind m (fun x => k))
  (at level 10, x pattern, k at level 200).
Notation "m ;; k" := (bind m (fun _ => k))
  (at level 100, right associativity).

Definition when (b : bool) (m : M unit) : M unit := if b then m else ret tt.

Definition print (l : out_line) : M unit := modify (with_stdout l).
Definition print_err (l : out_line) : M unit := modify (with_stderr l).
Definition emit (ev : event) : M unit := modify (with_log ev).

(** The exception classes the [except] clauses name. *)
Definition is_Exception (e : exn) : bool := true.
Definition is_OSError (e : exn) : bool :=
  match e with OSError _ _ | SameFileError _ _ => true | _ => false end.
Definition is_UnicodeDecodeError (e : exn) : bool :=
  match e with UnicodeDecodeError _ => true | _ => false end.
Definition is_ValueError (e : exn) : bool :=
  match e with ValueError _ _ => true | _ => false end.

(** *** Paths *)

Definition SLASH : N := 47%N.

(** [str(path)] *)
Definition path_str (p : path) : str := SLASH :: join SLASH p.

(** [path.parent] *)
Definition parent (p : path) : path := removelast p.

(** [path.name] *)
Definition name (p : path) : str := List.last p [].

(** [s.rfind(c)] for one character; [None] stands for -1. *)
Fixpoint rfind (c : N) (s : str) : option nat :=
  match s with
  | [] => None
  | x :: s' =>
      match rfind c s' with
      | Some i => Some (S i)
      | None => if (x =? c)%N then Some 0 else None
      end
  end.

(** The index of the dot that starts the suffix of a file name, when the
    name has a suffix. *)
Definition suffix_at (nm : str) : option nat :=
  match rfind DOT nm with
  | Some i => if (0 <? i) && (i <? length nm - 1) then Some i else None
  | None => None
  end.

(** [path.suffix] *)
Definition suffix (p : path) : str :=
  match suffix_at (name p) with Some i => drop i (name p) | None => [] end.

(** [path.stem] *)
Definition stem (p : path) : str :=
  match suffix_at (name p) with Some i => take i (name p) | None => name p end.

(** [path.relative_to(root)]; [None] is the [ValueError]. *)
Fixpoint relative_to (p root : path) : option path :=
  match root, p with
  | [], _ => Some p
  | r :: root', x :: p' =>
      if bool_decide (r = x) then relative_to p' root' else None
  | _ :: _, [] => None
  end.

Definition is_dir (w : world) (p : path) : bool :=
  match fs w !! p with Some Dir => true | _ => false end.

Definition exists_ (w : world) (p : path) : bool :=
  match fs w !! p with Some _ => true | None => false end.

(** [str(e)] for a caught exception, up to the details Python adds to the
    text. *)
Definition decimal (n : N) : str :=
  lit (NilEmpty.string_of_uint (N.to_uint n)).

Definition codec_name (e : encoding) : str :=
  match e with
  | UTF8 => lit "utf-8"
  | UTF8_SIG => lit "utf-8"
  | LATIN1 => lit "latin-1"
  end.

Definition exn_str (e : exn) : str :=
  match e with
  | OSError n s => lit "[Errno " ++ decimal n ++ lit "] " ++ s
  | UnicodeDecodeError c => lit "'" ++ codec_name c ++ lit "' codec can't decode"
  | UnicodeEncodeError c => lit "'" ++ codec_name c ++ lit "' codec can't encode"
  | ValueError p root =>
      lit "'" ++ path_str p ++ lit "' is not in the subpath of '"
      ++ path_str root ++ lit "'"
  | TypeError => lit "startswith first arg must be str or a tuple of str"
  | SameFileError src dst =>
      lit "PosixPath('" ++ path_str src ++ lit "') and PosixPath('"
      ++ path_str dst ++ lit "') are the same file"
  end.

(** *** System calls *)

Definition next_fault : M fault :=
  fun w =>
    match faults w with
    | [] => (inr NoFault, w)
    | f :: rest => (inr f, with_faults rest w)
    end.

Definition ENOENT : exn := OSError 2 (lit "No such file or directory").
Definition EEXIST : exn := OSError 17 (lit "File exists").
Definition ENOTDIR : exn := OSError 20 (lit "Not a directory").
Definition EISDIR : exn := OSError 21 (lit "Is a directory").

(** [with open(p, "r", encoding=e) as f: f.read()] *)
Definition read_text (p : path) (e : encoding) : M str :=
  let* f := next_fault in
  match f with
  | Fail n s _ => emit (EOpen p e false) ;; raise (OSError n s)
  | NoFault =>
      let* w := get in
      match fs w !! p with
      | Some (File data _) =>
          match decode e data with
          | Some s => emit (EOpen p e true) ;; ret (universal_newlines s)
          | None => emit (EOpen p e false) ;; raise (UnicodeDecodeError e)
          end
      | Some Dir => emit (EOpen p e false) ;; raise EISDIR
      | None => emit (EOpen p e false) ;; raise ENOENT
      end
  end.

(** The number of names [tempfile.mkstemp] tries. *)
Definition TMP_MAX : nat := N.to_nat 10000.

(** The first of at most [tries] candidates whose name is free in [dir],
    and the candidates left after it. *)
Fixpoint fresh_name (m : gmap path node) (dir : path) (prefix sfx : str)
    (tries : nat) (candidates : list str) : option (path * list str) :=
  match tries, candidates with
  | S tries', r :: rest =>
      let p := dir ++ [prefix ++ r ++ sfx] in
      match m !! p with
      | None => Some (p, rest)
      | Some _ => fresh_name m dir prefix sfx tries' rest
      end
  | _, _ => None
  end.

(** [tempfile.mkstemp(suffix=sfx, prefix=prefix, dir=dir)]: creates an
    empty file under a name that was free and returns its path. *)
Definition mkstemp (sfx prefix : str) (dir : path) : M path :=
  let* f := next_fault in
  match f with
  | Fail n s _ => emit (EMkstemp dir None) ;; raise (OSError n s)
  | NoFault =>
      let* w := get in
      if is_dir w dir then
        match fresh_name (fs w) dir prefix sfx TMP_MAX (entropy w) with
        | Some (p, rest) =>
            modify (with_entropy rest) ;;
            modify (with_fs (insert p (File [] (clock w)))) ;;
            emit (EMkstemp dir (Some p)) ;;
            ret p
        | None => emit (EMkstemp dir None) ;; raise EEXIST
        end
      else emit (EMkstemp dir None) ;; raise ENOENT
  end.

(** [with os.fdopen(fd, "w", encoding=e, newline="") as f: f.write(content)]
    on the file at [p]: the text is encoded first, then the bytes go to the
    file; a failing write leaves the bytes that reached the file. *)
Definition write_text (p : path) (content : str) (e : encoding) : M unit :=
  match encode e content with
  | None => emit (EWrite p false) ;; raise (UnicodeEncodeError e)
  | Some data =>
      let* f := next_fault in
      let* w := get in
      match f with
      | Fail n s done =>
          modify (with_fs (insert p (File (take done data) (clock w)))) ;;
          emit (EWrite p false) ;; raise (OSError n s)
      | NoFault =>
          modify (with_fs (insert p (File data (clock w)))) ;;
          emit (EWrite p true)
      end
  end.

(** [Path(src).replace(dst)]: one step, all or nothing. *)
Definition replace (src dst : path) : M unit :=
  let* f := next_fault in
  match f with
  | Fail n s _ => emit (EReplace src dst false) ;; raise (OSError n s)
  | NoFault =>
      let* w := get in
      match fs w !! src with
      | Some (File data meta) =>
          if is_dir w dst then emit (EReplace src dst false) ;; raise EISDIR
          else
            modify (with_fs (fun m => <[dst := File data meta]> (delete src m))) ;;
            emit (EReplace src dst true)
      | _ => emit (EReplace src dst false) ;; raise ENOENT
      end
  end.

(** [os.unlink(p)] *)
Definition unlink (p : path) : M unit :=
  let* f := next_fault in
  match f with
  | Fail n s _ => emit (EUnlink p false) ;; raise (OSError n s)
  | NoFault =>
      let* w := get in
      match fs w !! p with
      | Some (File _ _) =>
          modify (with_fs (delete p)) ;; emit (EUnlink p true)
      | Some Dir => emit (EUnlink p false) ;; raise EISDIR
      | None => emit (EUnlink p false) ;; raise ENOENT
      end
  end.

(** The directories [dirs], shortest first, made where missing; [None]
    when one of them is a file. *)
Fixpoint make_dirs (m : gmap path node) (dirs : list path)
  : option (gmap path node) :=
  match dirs with
  | [] => Some m
  | d :: rest =>
      match m !! d with
      | Some Dir => make_dirs m rest
      | Some (File _ _) => None
      | None => make_dirs (<[d := Dir]> m) rest
      end
  end.

(** The proper ancestors of [p] below [base], shortest first, then [p]. *)
Definition dirs_between (base p : path) : list path :=
  match relative_to p base with
  | Some rel => map (fun k => base ++ take k rel) (seq 1 (length rel))
  | None => [p]
  end.

(** [p.mkdir(parents=parents, exist_ok=True)] *)
Definition mkdir (parents : bool) (p : path) : M unit :=
  let* f := next_fault in
  match f with
  | Fail n s _ => emit (EMkdir p false) ;; raise (OSError n s)
  | NoFault =>
      let* w := get in
      if parents then
        match make_dirs (fs w) (dirs_between [] p) with
        | Some m => modify (with_fs (fun _ => m)) ;; emit (EMkdir p true)
        | None => emit (EMkdir p false) ;; raise EEXIST
        end
      else
        match fs w !! p with
        | Some Dir => emit (EMkdir p true)
        | Some (File _ _) => emit (EMkdir p false) ;; raise EEXIST
        | None =>
            if is_dir w (parent p)
            then modify (with_fs (insert p Dir)) ;; emit (EMkdir p true)
            else emit (EMkdir p false) ;; raise ENOENT
        end
  end.

(** [shutil.copy2(src, dst)].  When [dst] is a directory the copy goes into
    it, under the name of [src].  A file is not copied onto itself.  The
    source is opened, then the destination is created or truncated, then
    the bytes are copied, then the metadata.  The environment decides twice:
    whether the opens go through, with nothing changed when they do not, and
    whether the copy goes through, with the [done] bytes that reached the
    destination left there, under new metadata, when it does not. *)
Definition copy2 (src dst : path) : M unit :=
  let* w := get in
  let dst := if is_dir w dst then dst ++ [name src] else dst in
  if bool_decide (src = dst) && exists_ w src then
    emit (ECopy src dst false) ;; raise (SameFileError src dst)
  else
    let* f := next_fault in
    match f with
    | Fail n s _ => emit (ECopy src dst false) ;; raise (OSError n s)
    | NoFault =>
        match fs w !! src with
        | Some (File data meta) =>
            match fs w !! dst, fs w !! parent dst with
            | Some Dir, _ => emit (ECopy src dst false) ;; raise EISDIR
            | _, Some Dir =>
                let* f := next_fault in
                match f with
                | Fail n s done =>
                    modify (with_fs (insert dst
                                       (File (take done data) (clock w)))) ;;
                    emit (ECopy src dst false) ;; raise (OSError n s)
                | NoFault =>
                    modify (with_fs (insert dst (File data meta))) ;;
                    emit (ECopy src dst true)
                end
            | _, Some (File _ _) =>
                emit (ECopy src dst false) ;; raise ENOTDIR
            | _, None => emit (ECopy src dst false) ;; raise ENOENT
            end
        | Some Dir => emit (ECopy src dst false) ;; raise EISDIR
        | None => emit (ECopy src dst false) ;; raise ENOENT
        end
    end.

(** *** The program *)

Record ConversionResult := {
  file_path : path;
  replacements : nat;
  modified : bool;
  error : option str
}.

Record ConversionSummary := {
  files_scanned : nat;
  files_changed : nat;
  total_replacements : nat;
  errors : list str
}.

Definition DEFAULT_EXCLUDES : list str :=
  [lit ".obsidian"; lit ".git"; lit "node_modules"; lit ".trash";
   lit ".DS_Store"].

(** [is_hidden]: some part of the path starts with a dot. *)
Definition is_hidden (p : path) : bool :=
  existsb (fun part => startswith part (lit ".")) p.

(** The test of [should_exclude] and of the pruning in
    [find_markdown_files]: the part starts with a dot or is one of the
    excluded names. *)
Definition excluded_part (extra_excludes : list str) (part : str) : bool :=
  startswith part (lit ".")
  || bool_decide (part ∈ DEFAULT_EXCLUDES ++ extra_excludes).

Definition should_exclude (p vault_root : path) (extra_excludes : list str)
  : bool :=
  match relative_to p vault_root with
  | None => true
  | Some rel_path => existsb (excluded_part extra_excludes) rel_path
  end.

(** Comparison of sequences, element by element: the order of [str] and of
    [Path] values. *)
Fixpoint lex {A} (cmp : A -> A -> comparison) (a b : list A) : comparison :=
  match a, b with
  | [], [] => Eq
  | [], _ :: _ => Lt
  | _ :: _, [] => Gt
  | x :: a', y :: b' =>
      match cmp x y with
      | Eq => lex cmp a' b'
      | c => c
      end
  end.

Definition str_cmp : str -> str -> comparison := lex N.compare.
Definition path_cmp : path -> path -> comparison := lex str_cmp.

Fixpoint insert_by {A} (cmp : A -> A -> comparison) (x : A) (l : list A)
  : list A :=
  match l with
  | [] => [x]
  | y :: l' =>
      match cmp x y with
      | Gt => y :: insert_by cmp x l'
      | _ => x :: l
      end
  end.

(** [sorted(l)] *)
Definition sorted {A} (cmp : A -> A -> comparison) (l : list A) : list A :=
  fold_right (insert_by cmp) [] l.

(** [os.walk] reaches the file at [vault ++ rel] when every directory on the
    way exists and none of them is pruned. *)
Definition walk_reaches (w : world) (vault_path : path)
    (extra_excludes : list str) (rel : path) : bool :=
  is_dir w vault_path
  && forallb (fun k => is_dir w (vault_path ++ take k rel)
                       && negb (excluded_part extra_excludes
                                  (nth (k - 1) rel [])))
             (seq 1 (length rel - 1)).

Definition find_markdown_files (vault_path : path) (extra_excludes : list str)
  : M (list path) :=
  let* w := get in
  let md_files :=
    List.filter
      (fun p =>
         match fs w !! p, relative_to p vault_path with
         | Some (File _ _), Some (x :: rel') =>
             walk_reaches w vault_path extra_excludes (x :: rel')
             && endswith (name p) (lit ".md")
             && negb (startswith (name p) (lit "."))
             && negb (should_exclude p vault_path extra_excludes)
         | _, _ => false
         end)
      (map fst (map_to_list (fs w))) in
  ret (sorted path_cmp md_files).

(** [file_path.relative_to(vault_root)] as a computation. *)
Definition relative_to_m (p root : path) : M path :=
  match relative_to p root with
  | Some rel => ret rel
  | None => raise (ValueError p root)
  end.

Definition create_backup (file_path vault_root : path) : M path :=
  let backup_dir := vault_root ++ [lit "_backups"] in
  mkdir false backup_dir ;;
  let* backup_subdir :=
    try_except is_ValueError
      (let* rel_path := relative_to_m file_path vault_root in
       let backup_subdir := backup_dir ++ parent rel_path in
       mkdir true backup_subdir ;;
       ret backup_subdir)
      (fun _ => ret backup_dir) in
  let* w := get in
  let backup_name :=
    stem file_path ++ lit "_" ++ timestamp w ++ suffix file_path in
  let backup_path := backup_subdir ++ [backup_name] in
  copy2 file_path backup_path ;;
  ret backup_path.

Definition write_file_atomic (file_path : path) (content : str)
    (encoding : encoding) : M unit :=
  let dir_path := parent file_path in
  let* temp_path :=
    mkstemp (lit ".tmp") (lit "." ++ name file_path ++ lit "_") dir_path in
  try_except is_Exception
    (write_text temp_path content encoding ;;
     replace temp_path file_path)
    (fun exc =>
       try_except is_OSError (unlink temp_path) (fun _ => ret tt) ;;
       raise exc).

(** The loop over the encodings: the content read, if any, and
    [encoding_used]. *)
Fixpoint decode_loop (encodings : list encoding) (file_path : path)
  : M (option str * encoding) :=
  match encodings with
  | [] => ret (None, UTF8)
  | encoding :: rest =>
      try_except is_UnicodeDecodeError
        (let* content := read_text file_path encoding in
         ret (Some content, encoding))
        (fun _ => decode_loop rest file_path)
  end.

Definition ENCODINGS : list encoding := [UTF8; UTF8_SIG; LATIN1].

Definition COULD_NOT_DECODE : str :=
  lit "Could not decode file with supported encodings".

(** The [try] block of [process_file] after the loop over the encodings,
    from the values the loop left in [content] and [encoding_used]. *)
Definition process_content (file_path vault_root : path)
    (dry_run create_backups verbose : bool)
    (content : option str) (encoding_used : encoding) : M ConversionResult :=
  match content with
  | None =>
      ret {| file_path := file_path; replacements := 0;
             modified := false; error := Some COULD_NOT_DECODE |}
  | Some content =>
      let* (new_content, replacements) :=
        match convert_h1_to_h2 content with
        | Some r => ret r
        | None => raise TypeError
        end in
      if replacements =? 0 then
        ret {| file_path := file_path; replacements := 0;
               modified := false; error := None |}
      else
        when verbose
          (let* rel_path := relative_to_m file_path vault_root in
           print (PFound rel_path replacements)) ;;
        if dry_run then
          ret {| file_path := file_path; replacements := replacements;
                 modified := false; error := None |}
        else
          when create_backups
            (let* backup_path := create_backup file_path vault_root in
             when verbose (print (PBackupCreated (name backup_path)))) ;;
          write_file_atomic file_path new_content encoding_used ;;
          ret {| file_path := file_path; replacements := replacements;
                 modified := true; error := None |}
  end.

(** The [try] block of [process_file]: the loop, then the rest. *)
Definition process_file_try (file_path vault_root : path)
    (dry_run create_backups verbose : bool) : M ConversionResult :=
  let* (content, encoding_used) := decode_loop ENCODINGS file_path in
  process_content file_path vault_root dry_run create_backups verbose
    content encoding_used.

(** [process_file]: the [try] block, and the handler of [except Exception]. *)
Definition process_file (file_path vault_root : path)
    (dry_run create_backups verbose : bool) : M ConversionResult :=
  try_except is_Exception
    (process_file_try file_path vault_root dry_run create_backups verbose)
    (fun e =>
       ret {| file_path := file_path; replacements := 0;
              modified := false; error := Some (exn_str e) |}).

(** [for file_path in md_files: results.append(process_file(...))] *)
Fixpoint process_all (md_files : list path) (vault_path : path)
    (dry_run create_backups verbose : bool) : M (list ConversionResult) :=
  match md_files with
  | [] => ret []
  | file_path :: rest =>
      let* result :=
        process_file file_path vault_path dry_run create_backups verbose in
      let* results :=
        process_all rest vault_path dry_run create_backups verbose in
      ret (result :: results)
  end.

(** The truth value of [r.error]: [None] and the empty string are false. *)
Definition truthy (o : option str) : bool :=
  match o with
  | Some (_ :: _) => true
  | _ => false
  end.

Definition error_lines (results : list ConversionResult) : list str :=
  flat_map
    (fun r =>
       match error r with
       | Some e =>
           if truthy (error r)
           then [path_str (file_path r) ++ lit ": " ++ e] else []
       | None => []
       end)
    results.

Definition run_conversion (vault_path : path)
    (dry_run create_backups verbose : bool) (extra_excludes : list str)
  : M ConversionSummary :=
  print PRule ;;
  print (PBanner vault_path dry_run) ;;
  when (negb dry_run) (print (PBackups create_backups)) ;;
  when (negb (bool_decide (extra_excludes = [])))
    (print (PExtraExcludes (sorted str_cmp extra_excludes))) ;;
  print PRule ;;
  let* md_files := find_markdown_files vault_path extra_excludes in
  print (PFoundFiles (length md_files)) ;;
  when verbose (print PProcessing) ;;
  let* results :=
    process_all md_files vault_path dry_run create_backups verbose in
  let files_changed :=
    length (List.filter (fun r => 0 <? replacements r) results) in
  let total_replacements := list_sum (map replacements results) in
  let errors := error_lines results in
  print (PSummary (length md_files) files_changed total_replacements) ;;
  (if dry_run && (0 <? files_changed) then print PDryRunNote
   else if negb dry_run && (0 <? files_changed) then
     print (PModified files_changed) ;;
     when create_backups
       (print (PBackupsSavedTo (vault_path ++ [lit "_backups"])))
   else if files_changed =? 0 then print PNoH1
   else ret tt) ;;
  when (negb (bool_decide (errors = []))) (print (PErrors errors)) ;;
  print PRule ;;
  ret {| files_scanned := length md_files;
         files_changed := files_changed;
         total_replacements := total_replacements;
         errors := errors |}.

(** [parse_excludes]: the names between commas, stripped, without the empty
    ones; a set, kept as a list without repetition. *)
Definition parse_excludes (exclude_str : str) : list str :=
  match exclude_str with
  | [] => []
  | _ =>
      remove_dups
        (List.filter (fun e => negb (bool_decide (e = [])))
           (map strip (split COMMA exclude_str)))
  end.

(** The parsed command line.  [vault_path] is the positional argument once
    resolved to an absolute path; the flags [--dry-run] and [--backup] are
    always true after parsing and are not kept. *)
Record Args := {
  vault_path : path;
  write : bool;
  no_backup : bool;
  verbose : bool;
  exclude : str
}.

(** [main], after the parsing of the command line: its exit code. *)
Definition main (args : Args) : M nat :=
  let vault_path := vault_path args in
  let* w := get in
  if negb (exists_ w vault_path) then
    print_err (PNotExists vault_path) ;; ret 1
  else if negb (is_dir w vault_path) then
    print_err (PNotDir vault_path) ;; ret 1
  else
    let dry_run := negb (write args) in
    let create_backups := true && negb (no_backup args) in
    let extra_excludes := parse_excludes (exclude args) in
    let* summary :=
      run_conversion vault_path dry_run create_backups (verbose args)
        extra_excludes in
    ret (if bool_decide (errors summary = []) then 0 else 1).

(** *** Worlds that differ by reads only *)

Definition is_open (ev : event) : bool :=
  match ev with EOpen _ _ _ => true | _ => false end.

(** From [w] to [w'] no file changed and the only system calls made were
    opens for reading. *)
Definition reads_only (w w' : world) : Prop :=
  fs w' = fs w
  /\ exists evs, log w' = log w ++ evs /\ Forall (fun ev => is_open ev = true) evs.

(** A computation that only reads. *)
Definition reader {A} (m : M A) : Prop :=
  forall w, reads_only w (snd (m w)).

(** The atomic write as the documentation words it: on success the target
    holds the new content and nothing else changed; on failure no file is
    left that was not there before, and the target is what it was. *)
Definition atomic_write_as_worded (fp : path) (content : str) (e : encoding)
    (w : world) : Prop :=
  match write_file_atomic fp content e w with
  | (inr _, w') =>
      exists data, encode e content = Some data
        /\ fs w' = <[fp := File data (clock w)]> (fs w)
  | (inl _, w') =>
      fs w' !! fp = fs w !! fp
      /\ forall p, fs w !! p = None -> fs w' !! p = None
  end.

(** A directory holding one note, in which the write to the temporary file
    fails after one byte and the removal of the temporary file fails too. *)
Definition note : path := [lit "note.md"].

Definition full_disk : world :=
  {| fs := {[ [] := Dir; note := File (lit "# A") 7%N ]};
     clock := 9%N; timestamp := lit "20240101_120000";
     entropy := [lit "k3x9"];
     faults := [NoFault;
                Fail 28 (lit "No space left on device") 1;
                Fail 5 (lit "Input/output error") 0];
     log := []; stdout := []; stderr := [] |}.

Definition note_temp : path := [lit ".note.md_k3x9.tmp"].

Definition reported (r : ConversionResult) : Prop :=
  error r = None \/ exists e, error r = Some (exn_str e).

(** *** The run and the exit code *)

(** Worlds that differ by what was printed only. *)
Definition output_only (w w' : world) : Prop :=
  fs w' = fs w /\ clock w' = clock w /\ timestamp w' = timestamp w
  /\ entropy w' = entropy w /\ faults w' = faults w /\ log w' = log w.

(** A computation that prints and does nothing else. *)
Definition printer (m : M unit) : Prop :=
  forall w, exists w', m w = (inr tt, w') /\ output_only w w'.

(** [m] run in [w] ends with a result and a world that satisfy [Q]. *)
Definition post {A} (m : M A) (w : world) (Q : exn + A -> world -> Prop)
  : Prop :=
  Q (fst (m w)) (snd (m w)).

(** *** A sample vault *)

Definition vault : path := [lit "vault"].

Definition sample : world :=
  {| fs := {[ [] := Dir;
              vault := Dir;
              vault ++ [lit "a.md"] := File (lit "# A
text
# B") 7%N;
              vault ++ [lit "b.md"] := File [255; 35; 32; 65]%N 7%N;
              vault ++ [lit ".git"] := Dir;
              vault ++ [lit ".git"; lit "c.md"] := File (lit "# C") 7%N;
              vault ++ [lit "sub"] := Dir;
              vault ++ [lit "sub"; lit "d.md"] := File (lit "no heading") 7%N ]};
     clock := 100%N; timestamp := lit "20240101_120000";
     entropy := [lit "abcd1234"];
     faults := []; log := []; stdout := []; stderr := [] |}.

Definition sample_args (write : bool) : Args :=
  {| vault_path := vault; write := write; no_backup := false;
     verbose := false; exclude := lit "" |}.

End Sys.

(** ** Notions used to state further properties *)

Module More.

Import Text Convert Codec Sys.

(** U+FEFF, the character a byte order mark decodes to. *)
Definition BOM_CHAR : N := 65279%N.

(** The path [create_backup] gives to the backup of [fp] when the time
    stamp is [ts]. *)
Definition backup_path_of (fp root : path) (ts : str) : path :=
  (root ++ [lit "_backups"])
  ++ match relative_to fp root with
     | Some rel => parent rel
     | None => []
     end
  ++ [stem fp ++ lit "_" ++ ts ++ suffix fp].

(** From [m] to [m'] nothing was removed or changed, and what was added
    are directories. *)
Definition adds_dirs (m m' : gmap path node) : Prop :=
  (forall q x, m !! q = Some x -> m' !! q = Some x)
  /\ (forall q d x, m' !! q = Some (File d x) -> m !! q = Some (File d x)).

(** Worlds with the same files, the same clock and the same time stamp. *)
Definition same_disk (w w' : world) : Prop :=
  fs w' = fs w /\ clock w' = clock w /\ timestamp w' = timestamp w.

(** A computation that leaves the files, the clock and the time stamp. *)
Definition quiet {A} (m : M A) : Prop :=
  forall w, same_disk w (snd (m w)).

(** A directory holding one note that starts with a byte order mark. *)
Definition bom_world : world :=
  {| fs := {[ [] := Dir; note := File (BOM ++ lit "# A") 7%N ]};
     clock := 9%N; timestamp := lit "20240101_120000";
     entropy := [lit "k3x9"]; faults := [];
     log := []; stdout := []; stderr := [] |}.

(** A directory holding one note with CR LF line endings. *)
Definition crlf_world : world :=
  {| fs := {[ [] := Dir;
              note := File (lit "# A" ++ [CR; NL] ++ lit "b" ++ [CR; NL]) 7%N ]};
     clock := 9%N; timestamp := lit "20240101_120000";
     entropy := [lit "k3x9"]; faults := [];
     log := []; stdout := []; stderr := [] |}.

(** The files of the sample vault. *)
Definition a_md : path := vault ++ [lit "a.md"].
Definition b_md : path := vault ++ [lit "b.md"].
Definition d_md : path := vault ++ [lit "sub"; lit "d.md"].

(** The shape of a result of [process_file] in a run with the given
    [dry_run]: an error goes with a count of zero and no modification; in
    write mode the files counted are the files modified; in a dry run no
    file is. *)
Definition well_shaped (dry_run : bool) (r : ConversionResult) : Prop :=
  (error r = None \/ (replacements r = 0 /\ modified r = false))
  /\ (dry_run = false -> (0 <? replacements r) = modified r)
  /\ (dry_run = true -> modified r = false).

End More.

(** * Part II: the properties *)

Module TextFacts.

Import Text.

(** *** Facts about splitting and joining *)

Lemma split_nonempty sep s : split sep s <> [].
Proof.
  destruct s as [|c s]; simpl; [discriminate|].
  destruct (c =? sep)%N; [discriminate|].
  destruct (split sep s); discriminate.
Qed.

Lemma join_cons sep l l' ls :
  join sep (l :: l' :: ls) = l ++ sep :: join sep (l' :: ls).
Proof. reflexivity. Qed.

Lemma join_split sep s : join sep (split sep s) = s.
Proof.
  induction s as [|c s IH]; [reflexivity|]. cbn [split].
  pose proof (split_nonempty sep s) as Hs.
  destruct (split sep s) as [|x xs]; [congruence|].
  destruct (N.eqb_spec c sep) as [->|Hne].
  - rewrite join_cons, IH. reflexivity.
  - destruct xs as [|y ys].
    + cbn [join] in *. now rewrite IH.
    + rewrite join_cons in *. rewrite <- IH. reflexivity.
Qed.

Lemma split_no_sep sep l : Forall (fun c => c <> sep) l -> split sep l = [l].
Proof.
  induction 1 as [|c l Hc _ IH]; simpl; [reflexivity|].
  destruct (N.eqb_spec c sep); [contradiction|]. now rewrite IH.
Qed.

Lemma split_app_sep sep l r :
  Forall (fun c => c <> sep) l -> split sep (l ++ sep :: r) = l :: split sep r.
Proof.
  induction 1 as [|c l Hc _ IH]; simpl.
  - now rewrite N.eqb_refl.
  - destruct (N.eqb_spec c sep); [contradiction|]. now rewrite IH.
Qed.

Lemma split_join sep ls :
  ls <> [] -> Forall (Forall (fun c => c <> sep)) ls ->
  split sep (join sep ls) = ls.
Proof.
  induction ls as [|l ls IH]; [congruence|]. intros _ Hall.
  inversion Hall as [|? ? Hl Hls]; subst.
  destruct ls as [|l' ls].
  - simpl. now apply split_no_sep.
  - rewrite join_cons, split_app_sep by assumption.
    f_equal. apply IH; [discriminate|assumption].
Qed.

Lemma split_lines sep s : Forall (Forall (fun c => c <> sep)) (split sep s).
Proof.
  induction s as [|c s IH]; simpl.
  - repeat constructor.
  - destruct (N.eqb_spec c sep) as [->|Hne].
    + constructor; [constructor|assumption].
    + destruct (split sep s) as [|x xs]; [repeat constructor; assumption|].
      inversion IH; subst. constructor; [constructor|]; assumption.
Qed.

(** *** Facts about stripping *)

Lemma lstrip_app_spaces s ws :
  Forall (fun c => isspace c = true) ws ->
  lstrip s <> [] -> lstrip (s ++ ws) = lstrip s ++ ws.
Proof.
  intros Hws. induction s as [|c s IH]; simpl; [congruence|].
  destruct (isspace c); [assumption|reflexivity].
Qed.

Lemma lstrip_all_spaces ws :
  Forall (fun c => isspace c = true) ws -> lstrip ws = [].
Proof. induction 1 as [|c ws Hc _ IH]; simpl; [|rewrite Hc]; auto. Qed.

Lemma lstrip_empty_app s ws :
  Forall (fun c => isspace c = true) ws -> lstrip s = [] -> lstrip (s ++ ws) = [].
Proof.
  intros Hws. induction s as [|c s IH]; simpl.
  - intros _. now apply lstrip_all_spaces.
  - destruct (isspace c); [assumption|discriminate].
Qed.

(** What [lstrip] removed is white space, and what is left does not start
    with white space. *)
Lemma lstrip_decompose s :
  exists ws, Forall (fun c => isspace c = true) ws /\ s = ws ++ lstrip s.
Proof.
  induction s as [|c s [ws [Hws Hs]]]; simpl.
  - exists []. split; [constructor|reflexivity].
  - destruct (isspace c) eqn:Hc.
    + exists (c :: ws). split; [constructor; assumption|]. simpl. now f_equal.
    + exists []. split; [constructor|reflexivity].
Qed.

Lemma rstrip_decompose s :
  exists ws, Forall (fun c => isspace c = true) ws /\ s = rstrip s ++ ws.
Proof.
  destruct (lstrip_decompose (rev s)) as [ws [Hws Hs]].
  exists (rev ws). split.
  - now apply List.Forall_rev.
  - unfold rstrip. rewrite <- rev_app_distr, <- Hs. now rewrite rev_involutive.
Qed.

(** Stripping on the left alone leaves the stripped string followed by the
    trailing white space. *)
Lemma lstrip_strip s :
  exists ws, Forall (fun c => isspace c = true) ws /\ lstrip s = strip s ++ ws.
Proof.
  destruct (rstrip_decompose s) as [ws [Hws Hs]]. unfold strip.
  destruct (lstrip (rstrip s)) as [|c t] eqn:E.
  - exists []. split; [constructor|].
    rewrite Hs. now apply lstrip_empty_app.
  - exists ws. split; [assumption|].
    rewrite Hs at 1. rewrite lstrip_app_spaces, E; [reflexivity|assumption|].
    rewrite E. discriminate.
Qed.

Lemma startswith_app s p t : startswith s p = true -> startswith (s ++ t) p = true.
Proof.
  revert s. induction p as [|a p IH]; intros s; [reflexivity|].
  destruct s as [|c s]; simpl; [discriminate|].
  intros [-> H]%andb_true_iff. now rewrite IH.
Qed.

Lemma startswith_spec s p : startswith s p = true <-> exists t, s = p ++ t.
Proof.
  revert s. induction p as [|a p IH]; intros s; simpl.
  - split; [exists s; reflexivity|reflexivity].
  - destruct s as [|c s].
    + split; [discriminate|]. intros [t Ht]. discriminate.
    + rewrite andb_true_iff, IH, N.eqb_eq. split.
      * intros [-> [t ->]]. now exists t.
      * intros [t Ht]. injection Ht as -> ->. split; [reflexivity|now exists t].
Qed.

End TextFacts.

Module ConvertFacts.

Import Text Convert TextFacts.

Lemma dot_star_dollar_one_line rest :
  one_line rest -> dot_star_dollar rest = Some rest.
Proof.
  induction 1 as [|c rest Hc _ IH]; simpl; [reflexivity|].
  destruct (N.eqb_spec c NL); [contradiction|]. now rewrite IH.
Qed.

Lemma one_line_app a b : one_line (a ++ b) <-> one_line a /\ one_line b.
Proof. unfold one_line. apply Forall_app. Qed.

Lemma one_line_spaces k : one_line (repeat SP k).
Proof. induction k; constructor; [discriminate|assumption]. Qed.

Lemma h1_try_inv n line g1 g3 :
  one_line line -> h1_try n line = Some (g1, g3) ->
  g1 = repeat SP n /\ line = repeat SP n ++ lit "# " ++ g3.
Proof.
  intros Hl. unfold h1_try.
  destruct (bool_decide _) eqn:Ht; [|discriminate].
  destruct (startswith (drop n line) _) eqn:Hs; [|discriminate].
  cbn [andb].
  apply bool_decide_eq_true in Ht. apply startswith_spec in Hs as [t Ht'].
  assert (Hline : line = repeat SP n ++ lit "# " ++ t).
  { rewrite <- (take_drop n line) at 1. now rewrite Ht, Ht'. }
  assert (Hd : drop (n + 2) line = t).
  { rewrite <- drop_drop, Ht'. reflexivity. }
  rewrite Hd, dot_star_dollar_one_line.
  - simpl. intros [= <- <-]. auto.
  - rewrite Hline in Hl. apply one_line_app in Hl as [_ Hl].
    now apply one_line_app in Hl as [_ Hl].
Qed.

Lemma h1_match_inv line g1 g3 :
  one_line line -> h1_match line = Some (g1, g3) ->
  exists k, g1 = repeat SP k /\ h1_line line k g3.
Proof.
  intros Hl. unfold h1_match.
  destruct (h1_try 3 line) as [m|] eqn:E3.
  { intros [= ->]. apply h1_try_inv in E3 as [-> ?]; [|assumption].
    exists 3. split; [reflexivity|]. split; [lia|assumption]. }
  destruct (h1_try 2 line) as [m|] eqn:E2.
  { intros [= ->]. apply h1_try_inv in E2 as [-> ?]; [|assumption].
    exists 2. split; [reflexivity|]. split; [lia|assumption]. }
  destruct (h1_try 1 line) as [m|] eqn:E1.
  { intros [= ->]. apply h1_try_inv in E1 as [-> ?]; [|assumption].
    exists 1. split; [reflexivity|]. split; [lia|assumption]. }
  intros E0. apply h1_try_inv in E0 as [-> ?]; [|assumption].
  exists 0. split; [reflexivity|]. split; [lia|assumption].
Qed.

Lemma h1_match_Some line k rest :
  one_line line -> h1_line line k rest ->
  h1_match line = Some (repeat SP k, rest).
Proof.
  intros Hl [Hk ->].
  apply one_line_app in Hl as [_ Hl]. apply one_line_app in Hl as [_ Hl].
  unfold h1_match, h1_try.
  destruct k as [|[|[|[|k]]]]; [| | | |lia]; cbn -[dot_star_dollar];
    repeat (case_bool_decide; [try discriminate|]; cbn -[dot_star_dollar]);
    try (rewrite dot_star_dollar_one_line by assumption; reflexivity);
    try congruence.
Qed.

Lemma h1_match_None line :
  one_line line -> h1_match line = None -> forall k rest, ~ h1_line line k rest.
Proof.
  intros Hl Hn k rest H. rewrite (h1_match_Some _ _ _ Hl H) in Hn. discriminate.
Qed.

(** The matcher and the description in words agree on every line. *)
Lemma is_h1_spec line :
  is_h1 line = true <-> exists k rest, h1_line line k rest.
Proof.
  unfold is_h1, h1_line. rewrite andb_true_iff, Nat.leb_le, startswith_spec.
  split.
  - intros [Hk [t Ht]]. exists (leading_spaces line), t. split; [assumption|].
    rewrite <- Ht. clear. induction line as [|c line IH]; [reflexivity|].
    simpl. destruct (N.eqb_spec c SP) as [->|]; [|reflexivity].
    simpl. now f_equal.
  - intros (k & rest & Hk & ->).
    assert (E : leading_spaces (repeat SP k ++ lit "# " ++ rest) = k).
    { clear. induction k; simpl; [reflexivity|now f_equal]. }
    rewrite E. split; [assumption|]. exists rest.
    rewrite drop_app_length'; [reflexivity|]. symmetry. apply repeat_length.
Qed.

Lemma is_h1_match line :
  one_line line -> is_h1 line = true <-> h1_match line <> None.
Proof.
  intros Hl. rewrite is_h1_spec. split.
  - intros (k & rest & H). now rewrite (h1_match_Some _ _ _ Hl H).
  - destruct (h1_match line) as [[g1 g3]|] eqn:E; [intros _|congruence].
    apply h1_match_inv in E as (k & _ & H); eauto.
Qed.

Lemma inv_init : inv 0 init.
Proof. repeat split; auto; discriminate. Qed.

Lemma length_append l st :
  length (result_lines (append l st)) = S (length (result_lines st)).
Proof. unfold append; cbn. rewrite length_app. simpl. lia. Qed.

Ltac proj :=
  cbn [result_lines replacement_count in_frontmatter in_code_block
       code_fence_pattern append set_frontmatter set_fence count_one] in *.

Ltac body_cases :=
  unfold body, heading; proj;
  repeat match goal with
  | |- context [if ?b then _ else _] => destruct b eqn:?
  | |- context [match ?o with Some _ => _ | None => _ end] => destruct o eqn:?
  | |- context [let (_, _) := ?p in _] => destruct p
  end.

Lemma first_is_init i st b :
  (i = 0 -> st = init) -> (i =? 0) && b = true -> st = init.
Proof. intros H [->%Nat.eqb_eq _]%andb_true_iff. auto. Qed.

Lemma body_inv i line st st' :
  inv i st -> body i line st = Some st' -> inv (S i) st'.
Proof.
  intros (H0 & Hc & Hf & Hlen). destruct st as [rl n fm cb pat]. proj.
  body_cases; intros [= <-]; proj;
    try (apply (first_is_init _ _ _ H0) in Heqb; injection Heqb as -> -> -> -> ->);
    (split; [discriminate|]); proj;
    (split; [|split]); proj;
    try (rewrite length_app; simpl in *; lia);
    try tauto; try congruence.
  all: try (intros _; destruct cb; [discriminate|reflexivity]).
Qed.

Lemma body_total i line st : inv i st -> exists st', body i line st = Some st'.
Proof.
  intros (H0 & Hc & Hf & Hlen). destruct st as [rl n fm cb pat]. proj.
  body_cases; eauto.
  destruct cb; cbn [negb] in *; [|discriminate].
  destruct (Hc eq_refl); discriminate.
Qed.

Lemma loop_app i l1 l2 st :
  loop i (l1 ++ l2) st =
  match loop i l1 st with
  | Some st1 => loop (i + length l1) l2 st1
  | None => None
  end.
Proof.
  revert i st. induction l1 as [|x l1 IH]; intros i st; simpl.
  - now rewrite Nat.add_0_r.
  - destruct (body i x st); [|reflexivity].
    rewrite IH. now replace (S i + length l1) with (i + S (length l1)) by lia.
Qed.

Lemma loop_inv lines : forall i st st',
  inv i st -> loop i lines st = Some st' -> inv (i + length lines) st'.
Proof.
  induction lines as [|x lines IH]; intros i st st' Hinv; simpl.
  - intros [= <-]. now rewrite Nat.add_0_r.
  - destruct (body i x st) as [st1|] eqn:E; [|discriminate]. intros H.
    replace (i + S (length lines)) with (S i + length lines) by lia.
    eapply IH; [|exact H]. eapply body_inv; eassumption.
Qed.

Lemma loop_total lines : forall i st,
  inv i st -> exists st', loop i lines st = Some st'.
Proof.
  induction lines as [|x lines IH]; intros i st Hinv; simpl; [eauto|].
  destruct (body_total i x st Hinv) as [st1 E]. rewrite E.
  apply IH. eapply body_inv; eassumption.
Qed.

(** Each iteration appends one line. *)
Lemma body_grows i line st st' :
  body i line st = Some st' ->
  exists o, result_lines st' = result_lines st ++ [o].
Proof.
  destruct st as [rl n fm cb pat].
  body_cases; intros [= <-]; proj; eauto.
Qed.

Lemma loop_grows lines : forall i st st',
  loop i lines st = Some st' ->
  exists outs, result_lines st' = result_lines st ++ outs
               /\ length outs = length lines.
Proof.
  induction lines as [|x lines IH]; intros i st st'; simpl.
  - intros [= <-]. exists []. now rewrite app_nil_r.
  - destruct (body i x st) as [st1|] eqn:E; [|discriminate]. intros H.
    destruct (body_grows _ _ _ _ E) as [o Ho].
    destruct (IH _ _ _ H) as (outs & Houts & Hlen).
    exists (o :: outs). rewrite Houts, Ho, <- app_assoc. simpl. auto.
Qed.

Lemma state_at_0 lines : state_at lines 0 = Some init.
Proof. reflexivity. Qed.

Lemma state_at_S lines i line :
  lines !! i = Some line ->
  state_at lines (S i) =
  match state_at lines i with Some st => body i line st | None => None end.
Proof.
  intros Hl. unfold state_at. rewrite (take_S_r _ _ _ Hl), loop_app.
  destruct (loop 0 (take i lines) init) as [st|]; [|reflexivity].
  simpl. rewrite length_take_le.
  - destruct (body i line st); reflexivity.
  - apply lookup_lt_Some in Hl. lia.
Qed.

Lemma state_at_inv lines i st :
  i <= length lines -> state_at lines i = Some st -> inv i st.
Proof.
  intros Hi H. unfold state_at in H.
  apply (loop_inv _ _ _ _ inv_init) in H.
  now rewrite length_take_le in H by assumption.
Qed.

Lemma state_at_total lines i : exists st, state_at lines i = Some st.
Proof. apply loop_total, inv_init. Qed.

Lemma state_at_end lines : state_at lines (length lines) = loop 0 lines init.
Proof. unfold state_at. now rewrite firstn_all. Qed.

(** The line appended at iteration [i] is line [i] of the final result. *)
Lemma result_line_final lines i st' stf o :
  i < length lines ->
  state_at lines (S i) = Some st' ->
  loop 0 lines init = Some stf ->
  last (result_lines st') = Some o ->
  result_lines stf !! i = Some o.
Proof.
  intros Hi Hst Hf Ho.
  rewrite <- (take_drop (S i) lines), loop_app in Hf.
  unfold state_at in Hst. rewrite Hst in Hf.
  apply loop_grows in Hf as (outs & -> & _).
  apply (loop_inv _ _ _ _ inv_init) in Hst as (_ & _ & _ & Hlen).
  rewrite length_take_le in Hlen by lia. simpl in Hlen.
  rewrite lookup_app_l by lia.
  rewrite last_lookup in Ho. now rewrite Hlen in Ho.
Qed.

(** *** What one iteration does to its line *)

(** A level-one heading starts, once white space is removed, with a hash:
    it is neither a fence nor a frontmatter delimiter. *)
Lemma h1_line_lstrip line k rest :
  h1_line line k rest -> lstrip line = lit "# " ++ rest.
Proof. intros [_ ->]. clear. induction k; [reflexivity|assumption]. Qed.

Lemma lstrip_hash_not_dashes line t :
  lstrip line = HASH :: t -> strip line <> DASHES.
Proof.
  intros Hl Hd. destruct (lstrip_strip line) as (ws & _ & E).
  rewrite Hl, Hd in E. discriminate.
Qed.

Lemma h1_line_not_special line k rest :
  h1_line line k rest ->
  bool_decide (strip line = DASHES) = false
  /\ startswith (lstrip line) FENCE_BACKTICK = false
  /\ startswith (lstrip line) FENCE_TILDE = false.
Proof.
  intros H. pose proof (h1_line_lstrip _ _ _ H) as E. split.
  - apply bool_decide_eq_false. eapply lstrip_hash_not_dashes. exact E.
  - rewrite E. split; reflexivity.
Qed.

(** Outside frontmatter and fences a level-one heading is rewritten and
    counted. *)
Lemma body_heading i line st k rest :
  one_line line -> in_frontmatter st = false -> in_code_block st = false ->
  h1_line line k rest ->
  body i line st =
  Some (count_one (append (repeat SP k ++ lit "## " ++ rest) st)).
Proof.
  intros Hl Hf Hc H.
  destruct (h1_line_not_special _ _ _ H) as (Hd & Hb & Ht).
  unfold body, heading.
  rewrite Hd, andb_false_r, Hf, Hc, Hb, Ht. cbn [negb].
  now rewrite (h1_match_Some _ _ _ Hl H).
Qed.

(** Every iteration appends either its line as it is, or the rewritten
    heading, which it does only outside frontmatter and fences. *)
Lemma body_emit i line st st' :
  one_line line -> body i line st = Some st' ->
  exists o, result_lines st' = result_lines st ++ [o] /\
    ((o = line /\ replacement_count st' = replacement_count st)
     \/ (exists k rest, h1_line line k rest
          /\ o = repeat SP k ++ lit "## " ++ rest
          /\ replacement_count st' = replacement_count st + 1
          /\ in_frontmatter st = false /\ in_code_block st = false)).
Proof.
  intros Hl. destruct st as [rl n fm cb pat]. unfold body, heading. proj.
  destruct (h1_match line) as [[g1 g3]|] eqn:Em.
  - apply (h1_match_inv _ _ _ Hl) in Em as (k & -> & Hh).
    repeat match goal with
    | |- context [if ?b then _ else _] => destruct b eqn:?
    | |- context [match ?o with Some _ => _ | None => _ end] => destruct o eqn:?
    end; intros [= <-]; proj; eexists; (split; [reflexivity|]); auto.
    right. exists k, g3. destruct cb; [discriminate|]. auto 10.
  - repeat match goal with
    | |- context [if ?b then _ else _] => destruct b eqn:?
    | |- context [match ?o with Some _ => _ | None => _ end] => destruct o eqn:?
    end; intros [= <-]; proj; eexists; (split; [reflexivity|]); auto.
Qed.

Lemma body_one_line i line st st' :
  one_line line -> Forall one_line (result_lines st) ->
  body i line st = Some st' -> Forall one_line (result_lines st').
Proof.
  intros Hl Hr Hb. destruct (body_emit _ _ _ _ Hl Hb) as (o & -> & Ho).
  apply Forall_app. split; [assumption|]. constructor; [|constructor].
  destruct Ho as [[-> _]|(k & rest & [_ ->] & -> & _)]; [assumption|].
  apply one_line_app in Hl as [H1 [_ H2]%one_line_app].
  apply one_line_app. split; [assumption|].
  apply one_line_app. split; [|assumption].
  repeat constructor; discriminate.
Qed.

Lemma loop_one_line lines : forall i st st',
  Forall one_line lines -> Forall one_line (result_lines st) ->
  loop i lines st = Some st' -> Forall one_line (result_lines st').
Proof.
  induction lines as [|x lines IH]; intros i st st' Hl Hr; simpl.
  - now intros [= <-].
  - destruct (body i x st) as [st1|] eqn:E; [|discriminate].
    inversion Hl; subst. apply IH; [assumption|].
    eapply body_one_line; eassumption.
Qed.

(** The lines of the returned content are the appended lines. *)
Lemma convert_lines content :
  exists stf, loop 0 (split NL content) init = Some stf
    /\ convert_h1_to_h2 content
       = Some (join NL (result_lines stf), replacement_count stf)
    /\ split NL (join NL (result_lines stf)) = result_lines stf
    /\ length (result_lines stf) = length (split NL content).
Proof.
  destruct (loop_total (split NL content) 0 init inv_init) as [stf Hf].
  exists stf. unfold convert_h1_to_h2. rewrite Hf.
  split; [reflexivity|]. split; [reflexivity|].
  pose proof (loop_inv _ _ _ _ inv_init Hf) as (_ & _ & _ & Hlen).
  simpl in Hlen. split; [|assumption].
  apply split_join.
  - pose proof (split_nonempty NL content).
    destruct (split NL content); [congruence|].
    destruct (result_lines stf); [discriminate|discriminate].
  - eapply (loop_one_line _ _ _ _ (split_lines NL content)); [|exact Hf].
    constructor.
Qed.

(** Every line of the input has its iteration. *)
Lemma iteration_exists content i line :
  split NL content !! i = Some line ->
  exists st st' o, iteration content i line st st' o.
Proof.
  intros Hl. pose proof (lookup_lt_Some _ _ _ Hl) as Hi.
  destruct (state_at_total (split NL content) i) as [st Hst].
  pose proof (state_at_inv _ _ _ (Nat.lt_le_incl _ _ Hi) Hst) as Hinv.
  destruct (body_total i line st Hinv) as [st' Hb].
  destruct (body_grows _ _ _ _ Hb) as [o Ho].
  destruct (convert_lines content) as (stf & Hf & Hc & Hs & _).
  exists st, st', o. split; try assumption.
  eexists _, _. split; [exact Hc|]. rewrite Hs.
  eapply result_line_final; try eassumption.
  - rewrite (state_at_S _ _ _ Hl), Hst. exact Hb.
  - rewrite Ho. apply last_snoc.
Qed.

Lemma iteration_facts content i line st st' o :
  iteration content i line st st' o ->
  inv i st /\ one_line line
  /\ state_at (split NL content) (S i) = Some st'
  /\ result_lines st' = result_lines st ++ [o].
Proof.
  intros [Hl Hst Hb (out & n & Hc & Ho)].
  pose proof (lookup_lt_Some _ _ _ Hl) as Hi.
  assert (HS : state_at (split NL content) (S i) = Some st').
  { rewrite (state_at_S _ _ _ Hl), Hst. exact Hb. }
  split; [eapply state_at_inv; [|eassumption]; lia|].
  split.
  { pose proof (split_lines NL content) as H.
    eapply Forall_lookup_1 in H; eassumption. }
  split; [assumption|].
  destruct (body_grows _ _ _ _ Hb) as [o' Ho'].
  destruct (convert_lines content) as (stf & Hf & Hc' & Hs & _).
  rewrite Hc in Hc'. injection Hc' as -> ->. rewrite Hs in Ho.
  assert (result_lines stf !! i = Some o') as Ho''.
  { eapply result_line_final; try eassumption. rewrite Ho'. apply last_snoc. }
  congruence.
Qed.

Lemma count_prefix lines i st :
  Forall one_line lines -> i <= length lines ->
  state_at lines i = Some st ->
  replacement_count st = length (List.filter (convertible lines) (seq 0 i)).
Proof.
  intros Hall. revert st. induction i as [|i IH]; intros st Hi Hst.
  - rewrite state_at_0 in Hst. now injection Hst as <-.
  - destruct (lookup_lt_is_Some_2 lines i) as [line Hl]; [lia|].
    rewrite (state_at_S _ _ _ Hl) in Hst.
    destruct (state_at lines i) as [st0|] eqn:E0; [|discriminate].
    specialize (IH st0 ltac:(lia) eq_refl).
    assert (Hline : one_line line) by (eapply Forall_lookup_1; eassumption).
    rewrite seq_S, List.filter_app, length_app, <- IH.
    cbn [List.filter Nat.add].
    assert (Hconv : convertible lines i
                    = negb (in_frontmatter st0) && negb (in_code_block st0)
                      && is_h1 line).
    { unfold convertible. now rewrite Hl, E0. }
    rewrite Hconv.
    destruct (body_emit _ _ _ _ Hline Hst) as (o & _ & Ho).
    destruct (negb (in_frontmatter st0) && negb (in_code_block st0)
              && is_h1 line) eqn:Ec.
    + apply andb_true_iff in Ec as [[Hf Hc]%andb_true_iff Hh].
      apply negb_true_iff in Hf, Hc. apply is_h1_spec in Hh as (k & rest & Hh).
      rewrite (body_heading _ _ _ _ _ Hline Hf Hc Hh) in Hst.
      injection Hst as <-. reflexivity.
    + simpl.
      destruct Ho as [[_ ->]|(k & rest & Hh & _ & _ & Hf & Hc)]; [lia|].
      rewrite Hf, Hc in Ec. simpl in Ec.
      assert (is_h1 line = true) by (apply is_h1_spec; eauto). congruence.
Qed.

Lemma spaces_hash_inj a b x y :
  repeat SP a ++ HASH :: x = repeat SP b ++ HASH :: y -> x = y.
Proof.
  revert b. induction a as [|a IH]; intros [|b]; simpl; intros H;
    try discriminate.
  - now injection H.
  - injection H as H. eauto.
Qed.

Lemma spaces_no_hash k : HASH ∉ repeat SP k.
Proof.
  induction k; simpl; [apply not_elem_of_nil|].
  apply not_elem_of_cons. split; [discriminate|assumption].
Qed.

(** The text after the first hash of a line is determined by the line. *)
Lemma first_hash_unique (pre pre' x y : str) :
  pre ++ HASH :: x = pre' ++ HASH :: y ->
  HASH ∉ pre -> HASH ∉ pre' -> x = y.
Proof.
  revert pre'. induction pre as [|a pre IH]; intros [|b pre']; simpl;
    intros H Hp Hp'.
  - now injection H.
  - injection H as <- _. exfalso. apply Hp'. left.
  - injection H as -> _. exfalso. apply Hp. left.
  - injection H as _ H. apply not_elem_of_cons in Hp as [_ Hp].
    apply not_elem_of_cons in Hp' as [_ Hp']. eauto.
Qed.

Lemma h2_not_h1 k rest k' rest' :
  ~ h1_line (repeat SP k ++ lit "## " ++ rest) k' rest'.
Proof.
  intros [_ H]. apply spaces_hash_inj in H. discriminate.
Qed.

(** When a pass appends [o] for [line], a pass over [o] with the same
    flags takes the same branch, appends [o] again and counts nothing. *)
Lemma body_again i line st st' st2 o :
  one_line line -> same_flags st st2 ->
  body i line st = Some st' -> result_lines st' = result_lines st ++ [o] ->
  exists st2', body i o st2 = Some st2'
    /\ same_flags st' st2'
    /\ result_lines st2' = result_lines st2 ++ [o]
    /\ replacement_count st2' = replacement_count st2.
Proof.
  intros Hl (Hf & Hc & Hp) Hb Ho.
  destruct (body_emit _ _ _ _ Hl Hb) as (o' & Ho' & Hcase).
  rewrite Ho in Ho'. apply app_inj_tail in Ho' as [_ <-].
  destruct Hcase as [[-> _]|(k & rest & Hh & -> & _ & Hfm & Hcb)].
  - (* the line went through as it is *)
    destruct st as [rl n fm cb pat], st2 as [rl2 n2 fm2 cb2 pat2].
    proj. subst fm2 cb2 pat2. revert Hb. unfold body, heading. proj.
    destruct (h1_match line) as [[g1 g3]|] eqn:Em.
    + (* a heading that was not rewritten: the pass did not reach the check *)
      repeat match goal with
      | |- context [if ?b then _ else _] => destruct b eqn:?
      | |- context [match ?o with Some _ => _ | None => _ end] => destruct o eqn:?
      end; intros [= <-]; proj; try (eexists; repeat split; reflexivity).
      exfalso. apply app_inj_tail in Ho as [_ Ho].
      apply (h1_match_inv _ _ _ Hl) in Em as (k & -> & [_ Hh]).
      rewrite <- Ho in Hh. apply app_inv_head in Hh. discriminate.
    + repeat match goal with
      | |- context [if ?b then _ else _] => destruct b eqn:?
      | |- context [match ?o with Some _ => _ | None => _ end] => destruct o eqn:?
      end; intros [= <-]; proj; eexists; repeat split; reflexivity.
  - (* the line was rewritten to a level-two heading *)
    rewrite (body_heading _ _ _ _ _ Hl Hfm Hcb Hh) in Hb. injection Hb as <-.
    assert (Hl2 : one_line (repeat SP k ++ lit "## " ++ rest)).
    { destruct Hh as [_ ->].
      apply one_line_app in Hl as [H1 [_ H2]%one_line_app].
      apply one_line_app. split; [assumption|].
      apply one_line_app. split; [|assumption].
      repeat constructor; discriminate. }
    assert (Hstrip : lstrip (repeat SP k ++ lit "## " ++ rest)
                     = lit "## " ++ rest).
    { clear. induction k; [reflexivity|assumption]. }
    unfold body, heading. rewrite <- Hf, <- Hc, Hfm, Hcb, Hstrip.
    rewrite (bool_decide_eq_false_2 (strip _ = DASHES))
      by (eapply lstrip_hash_not_dashes; exact Hstrip).
    rewrite andb_false_r. cbn [negb].
    change (startswith (lit "## " ++ rest) FENCE_BACKTICK) with false.
    change (startswith (lit "## " ++ rest) FENCE_TILDE) with false.
    cbv iota.
    destruct (h1_match (repeat SP k ++ lit "## " ++ rest)) as [[g1 g3]|] eqn:Em.
    { apply (h1_match_inv _ _ _ Hl2) in Em as (k' & _ & Hh').
      exfalso. eapply h2_not_h1. exact Hh'. }
    eexists. split; [reflexivity|]. unfold same_flags. proj. auto.
Qed.

Lemma loop_again lines : forall i st st' st2,
  Forall one_line lines -> same_flags st st2 ->
  loop i lines st = Some st' ->
  exists outs st2', result_lines st' = result_lines st ++ outs
    /\ loop i outs st2 = Some st2'
    /\ result_lines st2' = result_lines st2 ++ outs
    /\ replacement_count st2' = replacement_count st2.
Proof.
  induction lines as [|x lines IH]; intros i st st' st2 Hall Hfl; simpl.
  - intros [= <-]. exists [], st2. now rewrite !app_nil_r.
  - destruct (body i x st) as [st1|] eqn:E; [|discriminate]. intros H.
    inversion Hall as [|? ? Hx Hall']; subst.
    destruct (body_grows _ _ _ _ E) as [o Ho].
    destruct (body_again _ _ _ _ st2 _ Hx Hfl E Ho)
      as (st21 & E2 & Hfl1 & Hr1 & Hn1).
    destruct (IH _ _ _ st21 Hall' Hfl1 H) as (outs & st2' & Hr & Hl & Hr2 & Hn2).
    exists (o :: outs), st2'. simpl. rewrite E2.
    rewrite Hr, Ho, Hr2, Hr1, <- !app_assoc. simpl.
    repeat split; try assumption. congruence.
Qed.

(** *** Fences and frontmatter *)

Lemma fence_not_dashes line F :
  F = FENCE_BACKTICK \/ F = FENCE_TILDE ->
  startswith (lstrip line) F = true -> strip line <> DASHES.
Proof.
  intros HF Hs Hd. destruct (lstrip_strip line) as (ws & _ & E).
  rewrite E, Hd in Hs. destruct HF as [-> | ->]; discriminate.
Qed.

Lemma tilde_not_backtick s :
  startswith s FENCE_TILDE = true -> startswith s FENCE_BACKTICK = false.
Proof. intros [t ->]%startswith_spec. reflexivity. Qed.

(** A line that starts a fence, met outside frontmatter and fences. *)
Lemma body_fence_open i line st F :
  F = FENCE_BACKTICK \/ F = FENCE_TILDE ->
  in_frontmatter st = false -> in_code_block st = false ->
  startswith (lstrip line) F = true ->
  body i line st = Some (append line (set_fence true (Some F) st)).
Proof.
  intros HF Hf Hc Hs. unfold body.
  rewrite (bool_decide_eq_false_2 _ (fence_not_dashes _ _ HF Hs)).
  rewrite andb_false_r, Hf, Hc. cbn [negb].
  destruct HF as [-> | ->].
  - now rewrite Hs.
  - now rewrite (tilde_not_backtick _ Hs), Hs.
Qed.

(** A line met inside a fence. *)
Lemma body_fenced i line st :
  inv i st -> in_code_block st = true ->
  exists F, (F = FENCE_BACKTICK \/ F = FENCE_TILDE)
    /\ code_fence_pattern st = Some F /\ in_frontmatter st = false
    /\ body i line st =
       Some (append line (if startswith (lstrip line) F
                          then set_fence false None st else st)).
Proof.
  intros (H0 & Hp & Hf & _) Hc.
  assert (Hi : (i =? 0) = false).
  { apply Nat.eqb_neq. intros Hi. rewrite (H0 Hi) in Hc. discriminate. }
  assert (Hfm : in_frontmatter st = false).
  { destruct (in_frontmatter st); [|reflexivity].
    rewrite (Hf eq_refl) in Hc. discriminate. }
  assert (exists F, (F = FENCE_BACKTICK \/ F = FENCE_TILDE)
                    /\ code_fence_pattern st = Some F) as (F & HF & HpF).
  { destruct (Hp Hc) as [H|H]; eauto. }
  exists F. repeat split; try assumption.
  unfold body. now rewrite Hi, Hfm, Hc, HpF.
Qed.

(** The first line, when it is the frontmatter delimiter. *)
Lemma body_front_open line st :
  strip line = DASHES ->
  body 0 line st = Some (append line (set_frontmatter true st)).
Proof. intros H. unfold body. now rewrite (bool_decide_eq_true_2 _ H). Qed.

(** A line met inside frontmatter. *)
Lemma body_front i line st :
  inv i st -> in_frontmatter st = true ->
  body i line st =
  Some (if bool_decide (strip line = DASHES)
        then set_frontmatter false (append line st) else append line st).
Proof.
  intros (H0 & _) Hf.
  assert (Hi : (i =? 0) = false).
  { apply Nat.eqb_neq. intros Hi. rewrite (H0 Hi) in Hf. discriminate. }
  unfold body. now rewrite Hi, Hf.
Qed.

(** Frontmatter is entered at the first line only. *)
Lemma body_enters_front i line st st' :
  in_frontmatter st = false -> body i line st = Some st' ->
  in_frontmatter st' = true -> i = 0 /\ strip line = DASHES.
Proof.
  intros Hf. destruct st as [rl n fm cb pat]. proj. subst fm.
  unfold body, heading. proj.
  destruct ((i =? 0) && bool_decide (strip line = DASHES)) eqn:E.
  - intros _ _. apply andb_true_iff in E as [Hi Hd].
    split; [now apply Nat.eqb_eq|now apply bool_decide_eq_true in Hd].
  - repeat match goal with
    | |- context [if ?b then _ else _] => destruct b eqn:?
    | |- context [match ?o with Some _ => _ | None => _ end] => destruct o eqn:?
    | |- context [let (_, _) := ?p in _] => destruct p
    end; intros [= <-]; proj; discriminate.
Qed.

(** Once a fence is open it stays open, with its marker and without any
    change to the count, over every run of lines that do not start with the
    marker. *)
Lemma fence_stays_open lines F d : forall j st,
  j + d <= length lines ->
  state_at lines j = Some st ->
  in_code_block st = true -> code_fence_pattern st = Some F ->
  (forall k line, k < d -> lines !! (j + k) = Some line ->
                  startswith (lstrip line) F = false) ->
  exists st', state_at lines (j + d) = Some st'
    /\ in_code_block st' = true /\ code_fence_pattern st' = Some F
    /\ replacement_count st' = replacement_count st.
Proof.
  induction d as [|d IH]; intros j st Hj Hst Hc Hp Hlines.
  - rewrite Nat.add_0_r. eauto.
  - destruct (lookup_lt_is_Some_2 lines j) as [line Hl]; [lia|].
    assert (Hinv : inv j st) by (apply (state_at_inv lines); [lia|assumption]).
    destruct (body_fenced j line st Hinv Hc) as (F' & _ & Hp' & _ & Hb).
    rewrite Hp in Hp'. injection Hp' as <-.
    rewrite (Hlines 0 line) in Hb; [|lia|now rewrite Nat.add_0_r].
    assert (HS : state_at lines (S j) = Some (append line st)).
    { now rewrite (state_at_S _ _ _ Hl), Hst. }
    assert (Hrest : forall k l, k < d -> lines !! (S j + k) = Some l ->
                            startswith (lstrip l) F = false).
    { intros k l Hk Hlk. apply (Hlines (S k)); [lia|].
      now replace (j + S k) with (S j + k) by lia. }
    destruct (IH (S j) (append line st) ltac:(lia) HS Hc Hp Hrest)
      as (st' & Hst' & Hc' & Hp'' & Hn).
    exists st'. replace (j + S d) with (S j + d) by lia. auto.
Qed.

Lemma always_normal content i st :
  no_excluded_regions content ->
  i <= length (split NL content) ->
  state_at (split NL content) i = Some st ->
  in_frontmatter st = false /\ in_code_block st = false.
Proof.
  intros [Hfirst Hfences]. revert st.
  induction i as [|i IH]; intros st Hi Hst.
  - rewrite state_at_0 in Hst. injection Hst as <-. auto.
  - destruct (lookup_lt_is_Some_2 (split NL content) i) as [line Hl]; [lia|].
    rewrite (state_at_S _ _ _ Hl) in Hst.
    destruct (state_at (split NL content) i) as [st0|] eqn:E0; [|discriminate].
    destruct (IH st0 ltac:(lia) eq_refl) as [Hf Hc].
    pose proof (Forall_lookup_1 _ _ _ _ Hfences Hl) as [Hb Ht].
    assert (Hd : (i =? 0) && bool_decide (strip line = DASHES) = false).
    { destruct i; [|reflexivity]. simpl.
      apply bool_decide_eq_false. now apply Hfirst. }
    destruct st0 as [rl n fm cb pat]. proj. subst fm cb.
    revert Hst. unfold body, heading. rewrite Hd, Hb, Ht. proj. cbn [negb].
    destruct (h1_match line) as [[g1 g3]|]; intros [= <-]; auto.
Qed.

Lemma filter_seq_take {A} (f : nat -> bool) (g : A -> bool) (l : list A) i :
  (forall j x, l !! j = Some x -> f j = g x) ->
  i <= length l ->
  length (List.filter f (seq 0 i)) = length (List.filter g (take i l)).
Proof.
  intros Hfg. induction i as [|i IH]; intros Hi; [reflexivity|].
  destruct (lookup_lt_is_Some_2 l i) as [x Hx]; [lia|].
  rewrite seq_S, (take_S_r _ _ _ Hx), !List.filter_app, !length_app.
  rewrite IH by lia. cbn [List.filter Nat.add]. rewrite (Hfg _ _ Hx).
  now destruct (g x).
Qed.

(** *** The properties of the transform *)

(** C1. Every line of every input has its iteration of the loop: the loop
    variables [st] when the loop reaches the line, [st'] when it leaves it,
    and the line [o] found at the same index of the output.  If the line is
    met outside frontmatter and outside a fence and is [k] spaces ([k] at
    most three), a hash, a space and [rest], then [o] is the same [k]
    spaces, two hashes, a space and [rest], and the count grows by one.  If
    the first hash of the line is followed by a character other than a
    space, or the line is spaces and two hashes, or the line starts with
    four spaces, then [o] is the line itself and the count does not move.
    The count returned is the number of lines of the first kind. *)
Theorem h1_lines_rewritten content i line :
  split NL content !! i = Some line ->
  exists st st' o,
  iteration content i line st st' o /\
  (forall k rest,
      in_frontmatter st = false -> in_code_block st = false ->
      h1_line line k rest ->
      o = repeat SP k ++ lit "## " ++ rest
      /\ replacement_count st' = replacement_count st + 1)
  /\ (forall pre c rest,
      line = pre ++ HASH :: c :: rest -> HASH ∉ pre -> c <> SP ->
      o = line /\ replacement_count st' = replacement_count st)
  /\ (forall k rest,
      line = repeat SP k ++ lit "##" ++ rest ->
      o = line /\ replacement_count st' = replacement_count st)
  /\ (forall rest,
      line = repeat SP 4 ++ rest ->
      o = line /\ replacement_count st' = replacement_count st)
  /\ (exists out n,
      convert_h1_to_h2 content = Some (out, n)
      /\ n = length (List.filter (convertible (split NL content))
                                 (seq 0 (length (split NL content))))).
Proof.
  intros Hline0.
  destruct (iteration_exists _ _ _ Hline0) as (st & st' & o & Hit).
  exists st, st', o. split; [exact Hit|].
  pose proof Hit as [Hline Hst Hb _].
  destruct (iteration_facts _ _ _ _ _ _ Hit) as (Hinv & Hl & _ & Ho).
  assert (Hhash : forall pre c rest,
             line = pre ++ HASH :: c :: rest -> HASH ∉ pre -> c <> SP ->
             o = line /\ replacement_count st' = replacement_count st).
  { intros pre c rest E Hpre Hc.
    destruct (body_emit _ _ _ _ Hl Hb) as (o' & Ho' & Hcase).
    rewrite Ho in Ho'. apply app_inj_tail in Ho' as [_ <-].
    destruct Hcase as [?|(k' & rest' & [_ E'] & _)]; [assumption|].
    rewrite E in E'. change (lit "# " ++ rest') with (HASH :: SP :: rest') in E'.
    apply first_hash_unique in E'; [|assumption|apply spaces_no_hash].
    injection E' as E1 _. contradiction. }
  split; [|split; [exact Hhash|split; [|split]]].
  - intros k rest Hf Hc Hh.
    rewrite (body_heading _ _ _ _ _ Hl Hf Hc Hh) in Hb. injection Hb as <-.
    proj. apply app_inj_tail in Ho as [_ <-]. auto.
  - intros k rest E.
    apply (Hhash (repeat SP k) HASH rest);
      [exact E|apply spaces_no_hash|discriminate].
  - intros rest E.
    destruct (body_emit _ _ _ _ Hl Hb) as (o' & Ho' & Hcase).
    rewrite Ho in Ho'. apply app_inj_tail in Ho' as [_ <-].
    destruct Hcase as [?|(k' & rest' & [Hk E'] & _)]; [assumption|].
    rewrite E in E'. exfalso.
    destruct k' as [|[|[|[|k']]]]; [| | | |lia]; discriminate.
  - destruct (convert_lines content) as (stf & Hf & Hc & _).
    eexists _, _. split; [exact Hc|].
    apply count_prefix; [apply split_lines|lia|].
    now rewrite state_at_end.
Qed.

Lemma h1_lines_rewritten_witness :
  split NL (lit "  # Title
#tag") !! 0 = Some (lit "  # Title")
  /\ exists st st' o,
      iteration (lit "  # Title
#tag") 0 (lit "  # Title") st st' o
      /\ o = lit "  ## Title"
      /\ replacement_count st' = replacement_count st + 1.
Proof.
  split; [reflexivity|].
  destruct (h1_lines_rewritten (lit "  # Title
#tag") 0 (lit "  # Title") eq_refl) as (st & st' & o & Hit & Hconv & _).
  exists st, st', o. split; [exact Hit|].
  destruct Hit as [_ Hst _ _]. rewrite state_at_0 in Hst. injection Hst as <-.
  apply (Hconv 2 (lit "Title")).
  - reflexivity.
  - reflexivity.
  - split; [lia|reflexivity].
Defined.

(** C2. Every line of every input has its iteration of the loop.  If no
    fence is open and the line, leading white space removed, starts with
    three backticks or with three tildes, the fence opens and remembers that
    marker.  If a fence is open, its marker is one of the two, and the fence
    closes exactly when the line, leading white space removed, starts with
    that marker.  In both cases the line is found unchanged at the same
    index of the output and the count does not move. *)
Theorem fenced_lines_untouched content i line :
  split NL content !! i = Some line ->
  exists st st' o,
  iteration content i line st st' o /\
  (forall F,
      F = FENCE_BACKTICK \/ F = FENCE_TILDE ->
      in_frontmatter st = false -> in_code_block st = false ->
      startswith (lstrip line) F = true ->
      in_code_block st' = true /\ code_fence_pattern st' = Some F
      /\ o = line /\ replacement_count st' = replacement_count st)
  /\ (in_code_block st = true ->
      exists F, (F = FENCE_BACKTICK \/ F = FENCE_TILDE)
        /\ code_fence_pattern st = Some F
        /\ in_frontmatter st = false
        /\ in_code_block st' = negb (startswith (lstrip line) F)
        /\ code_fence_pattern st' =
           (if startswith (lstrip line) F then None else Some F)
        /\ in_frontmatter st' = false
        /\ o = line /\ replacement_count st' = replacement_count st).
Proof.
  intros Hline0.
  destruct (iteration_exists _ _ _ Hline0) as (st & st' & o & Hit).
  exists st, st', o. split; [exact Hit|].
  pose proof Hit as [Hline Hst Hb _].
  destruct (iteration_facts _ _ _ _ _ _ Hit) as (Hinv & Hl & _ & Ho).
  split.
  - intros F HF Hf Hc Hs.
    rewrite (body_fence_open _ _ _ _ HF Hf Hc Hs) in Hb. injection Hb as <-.
    proj. apply app_inj_tail in Ho as [_ <-]. auto.
  - intros Hc.
    destruct (body_fenced i line st Hinv Hc) as (F & HF & Hp & Hf & Hb').
    rewrite Hb' in Hb. injection Hb as <-.
    exists F. destruct (startswith (lstrip line) F); proj;
      apply app_inj_tail in Ho as [_ <-]; auto 10.
Qed.

Lemma fenced_lines_untouched_witness :
  split NL (lit "~~~
# not a heading
~~~") !! 1 = Some (lit "# not a heading")
  /\ exists st st' o,
      iteration (lit "~~~
# not a heading
~~~") 1 (lit "# not a heading") st st' o
      /\ in_code_block st = true /\ in_code_block st' = true
      /\ o = lit "# not a heading"
      /\ replacement_count st' = replacement_count st.
Proof.
  split; [reflexivity|].
  destruct (fenced_lines_untouched (lit "~~~
# not a heading
~~~") 1 (lit "# not a heading") eq_refl) as (st & st' & o & Hit & _ & Hin).
  exists st, st', o. split; [exact Hit|].
  destruct Hit as [_ Hst _ _]. vm_compute in Hst. injection Hst as <-.
  destruct (Hin eq_refl) as (F & _ & HF & _ & Hc & _ & _ & Ho & Hn).
  injection HF as <-. split; [reflexivity|]. auto.
Defined.

(** C3. Every line of every input has its iteration of the loop.  The
    loop passes from outside to
    inside frontmatter exactly when the line has index 0 and, white space
    removed at both ends, is three dashes; that line is found unchanged in
    the output and is not counted.  A line met inside frontmatter is found
    unchanged in the output and is not counted, the fence variables do not
    move, and frontmatter is left exactly when the line, white space removed
    at both ends, is three dashes. *)
Theorem frontmatter_untouched content i line :
  split NL content !! i = Some line ->
  exists st st' o,
  iteration content i line st st' o /\
  (in_frontmatter st = false ->
     (in_frontmatter st' = true <-> i = 0 /\ strip line = DASHES))
  /\ (i = 0 -> strip line = DASHES ->
      o = line /\ replacement_count st' = replacement_count st)
  /\ (in_frontmatter st = true ->
      o = line /\ replacement_count st' = replacement_count st
      /\ in_code_block st' = in_code_block st
      /\ code_fence_pattern st' = code_fence_pattern st
      /\ (in_frontmatter st' = false <-> strip line = DASHES)).
Proof.
  intros Hline0.
  destruct (iteration_exists _ _ _ Hline0) as (st & st' & o & Hit).
  exists st, st', o. split; [exact Hit|].
  pose proof Hit as [Hline Hst Hb _].
  destruct (iteration_facts _ _ _ _ _ _ Hit) as (Hinv & Hl & _ & Ho).
  split; [|split].
  - intros Hf. split.
    + now apply (body_enters_front _ _ _ _ Hf Hb).
    + intros [-> Hd]. rewrite (body_front_open _ _ Hd) in Hb.
      now injection Hb as <-.
  - intros -> Hd. rewrite (body_front_open _ _ Hd) in Hb. injection Hb as <-.
    proj. apply app_inj_tail in Ho as [_ <-]. auto.
  - intros Hf. rewrite (body_front _ _ _ Hinv Hf) in Hb. injection Hb as <-.
    destruct (bool_decide (strip line = DASHES)) eqn:Hd; proj;
      apply app_inj_tail in Ho as [_ <-]; repeat split; auto.
    + intros _. now apply bool_decide_eq_true in Hd.
    + congruence.
    + intros Hd'. apply bool_decide_eq_false in Hd. contradiction.
Qed.

Lemma frontmatter_untouched_witness :
  split NL (lit "---
# x
---") !! 1 = Some (lit "# x")
  /\ exists st st' o,
      iteration (lit "---
# x
---") 1 (lit "# x") st st' o
      /\ in_frontmatter st = true
      /\ o = lit "# x"
      /\ replacement_count st' = replacement_count st.
Proof.
  split; [reflexivity|].
  destruct (frontmatter_untouched (lit "---
# x
---") 1 (lit "# x") eq_refl) as (st & st' & o & Hit & _ & _ & Hin).
  exists st, st', o. split; [exact Hit|].
  destruct Hit as [_ Hst _ _]. vm_compute in Hst. injection Hst as <-.
  destruct (Hin eq_refl) as (Ho & Hn & _).
  split; [reflexivity|]. auto.
Defined.

(** C4. The transform is idempotent: every input has an output and a
    count, and the transform applied to that output returns the same output
    with a count of zero. *)
Theorem convert_idempotent content :
  exists out n,
    convert_h1_to_h2 content = Some (out, n)
    /\ convert_h1_to_h2 out = Some (out, 0).
Proof.
  destruct (convert_lines content) as (stf & Hf & Hc & Hs & _).
  eexists _, _. split; [exact Hc|].
  destruct (loop_again _ _ _ _ init (split_lines NL content)
              (conj eq_refl (conj eq_refl eq_refl)) Hf)
    as (outs & st2 & Hr & Hl & Hr2 & Hn).
  simpl in Hr, Hr2, Hn. unfold convert_h1_to_h2 at 1.
  now rewrite Hs, Hr, Hl, Hr2, Hn.
Qed.

(** An indented heading is counted, and its line in the output begins with
    the indentation, not with two hashes. *)
Lemma round_trip_as_worded_fails : ~ round_trip_as_worded (lit " # B").
Proof.
  intros H. destruct H as (out & n & Hc & Hn & Hcount & _).
  - split.
    + intros l [= <-]. vm_compute. discriminate.
    + repeat constructor.
  - vm_compute in Hc. injection Hc as <- <-. vm_compute in Hcount.
    discriminate.
Qed.

(** A line that is a level-two heading already is not counted, yet begins
    with two hashes in the output. *)
Lemma round_trip_as_worded_fails_h2 : ~ round_trip_as_worded (lit "## A").
Proof.
  intros H. destruct H as (out & n & Hc & Hn & Hcount & _).
  - split.
    + intros l [= <-]. vm_compute. discriminate.
    + repeat constructor.
  - vm_compute in Hc. injection Hc as <- <-. vm_compute in Hcount.
    discriminate.
Qed.

(** C5, amended.  For every input without frontmatter and without fence,
    the count is the number [N] of level-one heading lines, the output has
    as many lines as the input, at the index of each heading line the output
    holds the same leading spaces, two hashes, a space and the same text,
    and at every other index the output holds the input line. *)
Theorem round_trip content :
  no_excluded_regions content ->
  exists out n,
    convert_h1_to_h2 content = Some (out, n)
    /\ n = length (List.filter is_h1 (split NL content))
    /\ length (split NL out) = length (split NL content)
    /\ (forall i l, split NL content !! i = Some l ->
        (forall k rest, h1_line l k rest ->
           split NL out !! i = Some (repeat SP k ++ lit "## " ++ rest))
        /\ (is_h1 l = false -> split NL out !! i = Some l)).
Proof.
  intros Hno.
  destruct (convert_lines content) as (stf & Hf & Hc & Hs & Hlen).
  eexists _, _. split; [exact Hc|]. rewrite Hs. split; [|split].
  - rewrite <- state_at_end in Hf.
    rewrite (count_prefix _ _ _ (split_lines NL content) (le_n _) Hf).
    rewrite (filter_seq_take _ is_h1 (split NL content)); [|..|lia].
    + now rewrite firstn_all.
    + intros j x Hx. unfold convertible. rewrite Hx.
      destruct (state_at_total (split NL content) j) as [st Hst]. rewrite Hst.
      apply lookup_lt_Some in Hx as Hj.
      destruct (always_normal _ _ _ Hno (Nat.lt_le_incl _ _ Hj) Hst) as [-> ->].
      reflexivity.
  - exact Hlen.
  - intros i l Hl.
    destruct (iteration_exists _ _ _ Hl) as (st & st' & o & Hit).
    pose proof Hit as [_ Hst Hb (out & n & Hc' & Ho)].
    rewrite Hc in Hc'. injection Hc' as <- <-. rewrite Hs in Ho.
    destruct (iteration_facts _ _ _ _ _ _ Hit) as (_ & Hline & _ & Hr).
    apply lookup_lt_Some in Hl as Hi.
    destruct (always_normal _ _ _ Hno (Nat.lt_le_incl _ _ Hi) Hst) as [Hfm Hcb].
    split.
    + intros k rest Hh.
      rewrite (body_heading _ _ _ _ _ Hline Hfm Hcb Hh) in Hb.
      injection Hb as <-. proj. apply app_inj_tail in Hr as [_ <-]. exact Ho.
    + intros Hn. destruct (body_emit _ _ _ _ Hline Hb) as (o' & Ho' & Hcase).
      rewrite Hr in Ho'. apply app_inj_tail in Ho' as [_ <-].
      destruct Hcase as [[-> _]|(k & rest & Hh & _)]; [exact Ho|].
      assert (is_h1 l = true) by (apply is_h1_spec; eauto). congruence.
Qed.

Lemma round_trip_witness :
  no_excluded_regions (lit "# A
 # B
## C")
  /\ convert_h1_to_h2 (lit "# A
 # B
## C") = Some (lit "## A
 ## B
## C", 2).
Proof.
  assert (H : no_excluded_regions (lit "# A
 # B
## C")).
  { split.
    - intros l [= <-]. vm_compute. discriminate.
    - repeat constructor. }
  split; [exact H|].
  destruct (round_trip _ H) as (out & n & Hc & Hn & _).
  rewrite Hc. vm_compute in Hc. injection Hc as <- <-. reflexivity.
Defined.

(** The examples of the documentation. *)
Example convert_title :
  convert_h1_to_h2 (lit "# Title

Some text
## Already H2
") = Some (lit "## Title

Some text
## Already H2
", 1).
Proof. vm_compute. reflexivity. Qed.

Example convert_fenced :
  convert_h1_to_h2 (lit "```
# not a heading
```
# Real Heading
") = Some (lit "```
# not a heading
```
## Real Heading
", 1).
Proof. vm_compute. reflexivity. Qed.

Example convert_frontmatter :
  convert_h1_to_h2 (lit "---
title: # x
---
# Heading
") = Some (lit "---
title: # x
---
## Heading
", 1).
Proof. vm_compute. reflexivity. Qed.

End ConvertFacts.

Module CodecFacts.

Import Text Convert Codec TextFacts ConvertFacts.

Example utf8_decode_two_bytes : utf8_decode [195; 169]%N = Some [233%N].
Proof. reflexivity. Qed.

Example utf8_decode_invalid : utf8_decode [255%N] = None.
Proof. reflexivity. Qed.

Example utf8_roundtrip_sample :
  option_map utf8_decode (utf8_encode [35; 233; 8364; 128512]%N)
  = Some (Some [35; 233; 8364; 128512]%N).
Proof. vm_compute. reflexivity. Qed.

Example universal_newlines_sample :
  universal_newlines (lit "a" ++ [CR; NL] ++ lit "b" ++ [CR] ++ lit "c")
  = lit "a
b
c".
Proof. vm_compute. reflexivity. Qed.

End CodecFacts.

Module SysFacts.

Import Text Convert Codec Sys TextFacts ConvertFacts CodecFacts.

Lemma reads_only_refl w : reads_only w w.
Proof. split; [reflexivity|]. exists []. now rewrite app_nil_r. Qed.

Lemma reads_only_trans w1 w2 w3 :
  reads_only w1 w2 -> reads_only w2 w3 -> reads_only w1 w3.
Proof.
  intros [Hf1 (e1 & Hl1 & He1)] [Hf2 (e2 & Hl2 & He2)]. split; [congruence|].
  exists (e1 ++ e2). rewrite Hl2, Hl1, app_assoc. split; [reflexivity|].
  now apply Forall_app.
Qed.

Lemma reads_only_same w w' :
  fs w' = fs w -> log w' = log w -> reads_only w w'.
Proof.
  intros Hf Hl. split; [assumption|]. exists []. now rewrite app_nil_r.
Qed.

Lemma reads_only_stdout l w : reads_only w (with_stdout l w).
Proof. now apply reads_only_same. Qed.

Lemma reads_only_faults l w : reads_only w (with_faults l w).
Proof. now apply reads_only_same. Qed.

Lemma reads_only_open p e ok w : reads_only w (with_log (EOpen p e ok) w).
Proof. split; [reflexivity|]. exists [EOpen p e ok]. split; [reflexivity|]. now constructor. Qed.

Lemma reader_ret {A} (a : A) : reader (ret a).
Proof. intros w. apply reads_only_refl. Qed.

Lemma reader_raise {A} e : reader (@raise A e).
Proof. intros w. apply reads_only_refl. Qed.

Lemma reader_bind {A B} (m : M A) (k : A -> M B) :
  reader m -> (forall a, reader (k a)) -> reader (bind m k).
Proof.
  intros Hm Hk w. unfold bind. specialize (Hm w).
  destruct (m w) as [[e|a] w1]; [exact Hm|].
  eapply reads_only_trans; [exact Hm|]. apply Hk.
Qed.

Lemma reader_try {A} c (m : M A) h :
  reader m -> (forall e, reader (h e)) -> reader (try_except c m h).
Proof.
  intros Hm Hh w. unfold try_except. specialize (Hm w).
  destruct (m w) as [[e|a] w1]; [|exact Hm].
  destruct (c e); [|exact Hm].
  eapply reads_only_trans; [exact Hm|]. apply Hh.
Qed.

Lemma reader_get : reader get.
Proof. intros w. apply reads_only_refl. Qed.

Lemma reader_print l : reader (print l).
Proof. intros w. apply reads_only_stdout. Qed.

Lemma reader_when b m : reader m -> reader (when b m).
Proof. destruct b; [auto|]. intros _. apply reader_ret. Qed.

Lemma reader_next_fault : reader next_fault.
Proof.
  intros w. unfold next_fault.
  destruct (faults w); [apply reads_only_refl|apply reads_only_faults].
Qed.

Lemma reader_emit_open p e ok : reader (emit (EOpen p e ok)).
Proof. intros w. apply reads_only_open. Qed.

Lemma reader_relative_to_m p root : reader (relative_to_m p root).
Proof.
  unfold relative_to_m. destruct (relative_to p root);
    [apply reader_ret|apply reader_raise].
Qed.

Lemma reader_read_text p e : reader (read_text p e).
Proof.
  unfold read_text. apply reader_bind; [apply reader_next_fault|].
  intros [|n s d].
  - apply reader_bind; [apply reader_get|]. intros w.
    destruct (fs w !! p) as [[data meta|]|];
      [destruct (decode e data)|..];
      (apply reader_bind; [apply reader_emit_open|]); intros _;
      first [apply reader_ret|apply reader_raise].
  - apply reader_bind; [apply reader_emit_open|]. intros _. apply reader_raise.
Qed.

Lemma reader_decode_loop encs p : reader (decode_loop encs p).
Proof.
  induction encs as [|e encs IH]; simpl; [apply reader_ret|].
  apply reader_try; [|intros _; exact IH].
  apply reader_bind; [apply reader_read_text|]. intros c. apply reader_ret.
Qed.

(** *** What a read returns *)

Lemma read_text_result p e w r w' :
  read_text p e w = (r, w') ->
  match r with
  | inr c =>
      exists data meta s, fs w !! p = Some (File data meta)
        /\ decode e data = Some s /\ c = universal_newlines s
  | inl (UnicodeDecodeError e') =>
      e' = e /\ exists data meta, fs w !! p = Some (File data meta)
                 /\ decode e data = None
  | inl _ => True
  end.
Proof.
  unfold read_text, bind, next_fault, get, emit, modify, ret, raise.
  destruct (faults w) as [|[|n s d] rest]; cbn.
  - destruct (fs w !! p) as [[data meta|]|] eqn:E; cbn;
      [destruct (decode e data) eqn:D; cbn|..]; intros [= <- <-]; cbn; eauto 10.
  - destruct (fs w !! p) as [[data meta|]|] eqn:E; cbn;
      [destruct (decode e data) eqn:D; cbn|..]; intros [= <- <-]; cbn; eauto 10.
  - intros [= <- <-]. exact I.
Qed.

(** The loop returns the content decoded with the first encoding of the list
    that decodes the bytes of the file, and returns no content only when
    every encoding of the list fails on them. *)
Lemma decode_loop_result encs p w r w' :
  decode_loop encs p w = (r, w') ->
  match r with
  | inr (Some c, enc) =>
      exists data meta s tried rest,
        fs w !! p = Some (File data meta)
        /\ encs = tried ++ enc :: rest
        /\ Forall (fun e => decode e data = None) tried
        /\ decode enc data = Some s /\ c = universal_newlines s
  | inr (None, enc) =>
      enc = UTF8
      /\ forall e, e ∈ encs ->
           exists data meta, fs w !! p = Some (File data meta)
                             /\ decode e data = None
  | inl e => is_UnicodeDecodeError e = false
  end.
Proof.
  revert w. induction encs as [|e encs IH]; intros w; simpl.
  - intros [= <- <-]. split; [reflexivity|]. intros e He.
    now apply elem_of_nil in He.
  - unfold try_except, bind.
    destruct (read_text p e w) as [[x|c] w1] eqn:R.
    + pose proof (read_text_result _ _ _ _ _ R) as Hr.
      pose proof (reader_read_text p e w) as [Hfs _]. rewrite R in Hfs.
      simpl in Hfs.
      destruct x; cbn; try (intros [= <- <-]; reflexivity).
      destruct Hr as (-> & data & meta & Hp & Hd).
      intros H. specialize (IH _ H). rewrite Hfs in IH.
      destruct r as [x|[[c|] enc]]; [exact IH| |].
      * destruct IH as (data' & meta' & s & tried & rest & Hp' & -> & Ht & Hs).
        rewrite Hp in Hp'. injection Hp' as <- <-.
        exists data, meta, s, (e :: tried), rest. split; [assumption|].
        split; [reflexivity|]. split; [constructor; assumption|assumption].
      * destruct IH as [-> IH]. split; [reflexivity|].
        intros e' [->|He']%elem_of_cons; eauto.
    + pose proof (read_text_result _ _ _ _ _ R) as (data & meta & s & Hp & Hd & ->).
      cbn. intros [= <- <-].
      exists data, meta, s, [], encs. repeat split; auto.
Qed.

(** *** Reads that do not fail *)

Lemma read_text_no_fault p e w data meta :
  fs w !! p = Some (File data meta) -> faults w = [] ->
  exists w', fs w' = fs w /\ faults w' = []
    /\ read_text p e w =
       (match decode e data with
        | Some s => inr (universal_newlines s)
        | None => inl (UnicodeDecodeError e)
        end, w').
Proof.
  intros Hf Hno.
  unfold read_text, bind, next_fault, get, emit, modify, ret, raise.
  rewrite Hno. cbn. rewrite Hf.
  destruct (decode e data); cbn; eexists; (split; [|split; [|reflexivity]]);
    cbn; auto.
Qed.

Lemma decode_loop_no_fault fp data meta tried : forall encs enc rest s w,
  fs w !! fp = Some (File data meta) -> faults w = [] ->
  encs = tried ++ enc :: rest ->
  Forall (fun e => decode e data = None) tried ->
  decode enc data = Some s ->
  exists w', decode_loop encs fp w
             = (inr (Some (universal_newlines s), enc), w').
Proof.
  induction tried as [|e tried IH]; intros encs enc rest s w Hf Hno -> Ht Hd;
    cbn [app decode_loop]; unfold try_except, bind.
  - destruct (read_text_no_fault fp enc w _ _ Hf Hno) as (w1 & _ & _ & ->).
    rewrite Hd. cbn. eauto.
  - destruct (read_text_no_fault fp e w _ _ Hf Hno) as (w1 & Hf1 & Hno1 & ->).
    inversion Ht as [|? ? H1 Ht']; subst. rewrite H1. cbn.
    rewrite <- Hf1 in Hf. eapply IH; eauto.
Qed.


(** One of the three encodings decodes, whatever the bytes: the first of
    them that does is the one the loop stops at. *)
Lemma first_decoding data :
  exists tried enc rest s,
    ENCODINGS = tried ++ enc :: rest
    /\ Forall (fun e => decode e data = None) tried
    /\ decode enc data = Some s.
Proof.
  destruct (decode UTF8 data) as [s|] eqn:E1.
  { exists [], UTF8, [UTF8_SIG; LATIN1], s. repeat split; auto. }
  destruct (decode UTF8_SIG data) as [s|] eqn:E2.
  { exists [UTF8], UTF8_SIG, [LATIN1], s. repeat split; auto. }
  exists [UTF8; UTF8_SIG], LATIN1, [], data. repeat split; auto.
Qed.

(** *** Dry runs *)

Lemma reader_dry_run_try fp root b v : reader (process_file_try fp root true b v).
Proof.
  unfold process_file_try, process_content.
  apply reader_bind; [apply reader_decode_loop|]. intros [[c|] enc];
    [|apply reader_ret].
  apply reader_bind.
  { destruct (convert_h1_to_h2 c); [apply reader_ret|apply reader_raise]. }
  intros [new n]. destruct (n =? 0); [apply reader_ret|].
  apply reader_bind; [|intros _; apply reader_ret].
  apply reader_when, reader_bind; [apply reader_relative_to_m|].
  intros rel. apply reader_print.
Qed.

Lemma dry_run_try_result fp root b v w r w' :
  process_file_try fp root true b v w = (inr r, w') ->
  modified r = false
  /\ (error r = None ->
      exists c enc w1 out,
        decode_loop ENCODINGS fp w = (inr (Some c, enc), w1)
        /\ convert_h1_to_h2 c = Some (out, replacements r)).
Proof.
  unfold process_file_try, process_content, bind.
  destruct (decode_loop ENCODINGS fp w) as [[e|[[c|] enc]] w1] eqn:D;
    [discriminate| |].
  - destruct (convert_h1_to_h2 c) as [[new n]|] eqn:C; cbn; [|discriminate].
    destruct (n =? 0) eqn:N.
    + apply Nat.eqb_eq in N as ->. intros [= <- <-]. cbn. split; [reflexivity|].
      intros _. eauto 10.
    + destruct (when v _ w1) as [[e|[]] w2]; [discriminate|].
      intros [= <- <-]. cbn. split; [reflexivity|]. intros _. eauto 10.
  - intros [= <- <-]. cbn. split; [reflexivity|discriminate].
Qed.

(** A dry run on a file that exists, when no open fails: the result is
    the count of the transform on the content decoded with the first
    encoding that decodes the bytes, without error. *)
Lemma dry_run_count fp root b v w data meta tried enc rest s :
  fs w !! fp = Some (File data meta) -> faults w = [] ->
  (v = true -> relative_to fp root <> None) ->
  ENCODINGS = tried ++ enc :: rest ->
  Forall (fun e => decode e data = None) tried ->
  decode enc data = Some s ->
  exists out n w',
    convert_h1_to_h2 (universal_newlines s) = Some (out, n)
    /\ process_file fp root true b v w
       = (inr {| file_path := fp; replacements := n;
                 modified := false; error := None |}, w').
Proof.
  intros Hf Hno Hv Hl Ht Hd.
  destruct (decode_loop_no_fault _ _ _ _ _ _ _ _ _ Hf Hno Hl Ht Hd)
    as (w1 & Hloop).
  destruct (convert_lines (universal_newlines s)) as (stf & _ & Hc & _).
  exists (join NL (result_lines stf)), (replacement_count stf).
  unfold process_file, try_except, process_file_try, process_content.
  unfold bind at 1. rewrite Hloop. unfold bind at 1. rewrite Hc.
  unfold ret at 1. destruct (replacement_count stf =? 0) eqn:N.
  { apply Nat.eqb_eq in N. rewrite N. eexists. split; reflexivity. }
  unfold bind at 1. destruct v; cbn [when].
  - unfold relative_to_m.
    destruct (relative_to fp root) as [rel|]; [|now destruct (Hv eq_refl)].
    eexists. split; reflexivity.
  - eexists. split; reflexivity.
Qed.

(** C6. In a dry run [process_file] returns a result, whatever the file and
    the state of the file system; no file and no directory is created,
    changed or removed; the only system calls made are opens for reading;
    and the result says the file was not modified.  When the file exists
    and no open fails (and, with [verbose] on, the file is below the vault,
    as every file of a run is), the result carries no error and its count
    is the would-be count: the count of the transform on the content of the
    file, decoded with the first of the three encodings that decodes it.
    In every case a result without error carries the count of the
    transform on the content read. *)
Theorem dry_run_changes_nothing fp root create_backups verbose w :
  exists r w',
    process_file fp root true create_backups verbose w = (inr r, w')
    /\ fs w' = fs w
    /\ (exists evs, log w' = log w ++ evs
                    /\ Forall (fun ev => is_open ev = true) evs)
    /\ modified r = false
    /\ (forall data meta,
          fs w !! fp = Some (File data meta) -> faults w = [] ->
          (verbose = true -> relative_to fp root <> None) ->
          exists tried enc rest s out,
            ENCODINGS = tried ++ enc :: rest
            /\ Forall (fun e => decode e data = None) tried
            /\ decode enc data = Some s
            /\ convert_h1_to_h2 (universal_newlines s)
               = Some (out, replacements r)
            /\ error r = None)
    /\ (error r = None ->
        exists c enc w1 out,
          decode_loop ENCODINGS fp w = (inr (Some c, enc), w1)
          /\ convert_h1_to_h2 c = Some (out, replacements r)).
Proof.
  pose proof (reader_dry_run_try fp root create_backups verbose w) as Hro.
  assert (Hpos : forall r w',
            process_file fp root true create_backups verbose w = (inr r, w') ->
            forall data meta,
              fs w !! fp = Some (File data meta) -> faults w = [] ->
              (verbose = true -> relative_to fp root <> None) ->
              exists tried enc rest s out,
                ENCODINGS = tried ++ enc :: rest
                /\ Forall (fun e => decode e data = None) tried
                /\ decode enc data = Some s
                /\ convert_h1_to_h2 (universal_newlines s)
                   = Some (out, replacements r)
                /\ error r = None).
  { intros r w' E data meta Hf Hno Hv.
    destruct (first_decoding data) as (tried & enc & rest & s & Hl & Ht & Hd).
    destruct (dry_run_count fp root create_backups verbose w _ _ _ _ _ _
                Hf Hno Hv Hl Ht Hd) as (out & n & w2 & Hc & Hrun).
    rewrite Hrun in E. injection E as <- <-.
    exists tried, enc, rest, s, out. auto. }
  revert Hpos. unfold process_file, try_except.
  destruct (process_file_try fp root true create_backups verbose w)
    as [[e|r] w'] eqn:E; cbn in *; intros Hpos.
  - eexists _, _. split; [reflexivity|]. destruct Hro as [Hf Hl].
    split; [assumption|]. split; [assumption|]. split; [reflexivity|].
    split; [exact (Hpos _ _ eq_refl)|]. cbn. discriminate.
  - exists r, w'. split; [reflexivity|]. destruct Hro as [Hf Hl].
    destruct (dry_run_try_result _ _ _ _ _ _ _ E) as [Hm Hc].
    split; [assumption|]. split; [assumption|]. split; [assumption|].
    split; [exact (Hpos _ _ eq_refl)|assumption].
Qed.

(** The dry run on [a.md] of the sample vault counts its two headings. *)
Lemma dry_run_changes_nothing_witness :
  exists r w',
    process_file (vault ++ [lit "a.md"]) vault true true false sample
    = (inr r, w')
    /\ fs w' = fs sample /\ modified r = false
    /\ replacements r = 2 /\ error r = None.
Proof.
  destruct (dry_run_changes_nothing (vault ++ [lit "a.md"]) vault true false
              sample) as (r & w' & E & Hfs & _ & Hm & Hpos & _).
  exists r, w'. split; [exact E|]. split; [exact Hfs|]. split; [exact Hm|].
  assert (Hr : fst (process_file (vault ++ [lit "a.md"]) vault true true
                      false sample)
               = inr {| file_path := vault ++ [lit "a.md"];
                        replacements := 2; modified := false;
                        error := None |}) by (vm_compute; reflexivity).
  rewrite E in Hr. cbn [fst] in Hr. injection Hr as ->.
  split; [reflexivity|].
  destruct (Hpos (lit "# A
text
# B") 7%N) as (tried & enc & rest & s & out & _ & _ & _ & _ & He).
  - vm_compute. reflexivity.
  - reflexivity.
  - discriminate.
  - exact He.
Defined.

(** *** Atomic writes *)

Lemma fresh_name_spec m dir prefix sfx tries cands p rest :
  fresh_name m dir prefix sfx tries cands = Some (p, rest) ->
  m !! p = None /\ exists r, p = dir ++ [prefix ++ r ++ sfx].
Proof.
  revert cands. induction tries as [|tries IH]; intros [|r cands]; simpl;
    try discriminate.
  destruct (m !! (dir ++ [prefix ++ r ++ sfx])) eqn:E; [apply IH|].
  intros [= <- <-]. eauto.
Qed.

Lemma mkstemp_result sfx prefix dir w r w' :
  mkstemp sfx prefix dir w = (r, w') ->
  clock w' = clock w /\
  match r with
  | inr p =>
      fs w !! p = None
      /\ (exists r0, p = dir ++ [prefix ++ r0 ++ sfx])
      /\ fs w' = <[p := File [] (clock w)]> (fs w)
      /\ log w' = log w ++ [EMkstemp dir (Some p)]
  | inl _ => fs w' = fs w
  end.
Proof.
  unfold mkstemp, bind, next_fault, get, emit, modify, ret, raise.
  destruct (faults w) as [|[|n s d] rest]; cbn.
  - destruct (is_dir w dir); cbn; [|intros [= <- <-]; auto].
    destruct (fresh_name _ _ _ _ _ _) as [[p cs]|] eqn:F; cbn;
      intros [= <- <-]; cbn; [|auto].
    apply fresh_name_spec in F as [? ?]. auto.
  - unfold is_dir. cbn.
    destruct (match fs w !! dir with Some Dir => true | _ => false end); cbn;
      [|intros [= <- <-]; auto].
    destruct (fresh_name _ _ _ _ _ _) as [[p cs]|] eqn:F; cbn;
      intros [= <- <-]; cbn; [|auto].
    apply fresh_name_spec in F as [? ?]. auto.
  - intros [= <- <-]. auto.
Qed.

Lemma write_text_result p c e w r w' :
  write_text p c e w = (r, w') ->
  clock w' = clock w /\
  match r with
  | inr _ =>
      exists data, encode e c = Some data
        /\ fs w' = <[p := File data (clock w)]> (fs w)
        /\ log w' = log w ++ [EWrite p true]
  | inl _ =>
      fs w' = fs w
      \/ exists part, fs w' = <[p := File part (clock w)]> (fs w)
  end.
Proof.
  unfold write_text, bind, next_fault, get, emit, modify, ret, raise.
  destruct (encode e c) as [data|]; cbn; [|intros [= <- <-]; auto].
  destruct (faults w) as [|[|n s d] rest]; cbn; intros [= <- <-]; cbn; eauto.
Qed.

Lemma replace_result src dst w r w' :
  replace src dst w = (r, w') ->
  clock w' = clock w /\
  match r with
  | inr _ =>
      exists data meta, fs w !! src = Some (File data meta)
        /\ fs w' = <[dst := File data meta]> (delete src (fs w))
        /\ log w' = log w ++ [EReplace src dst true]
  | inl _ => fs w' = fs w
  end.
Proof.
  unfold replace, bind, next_fault, get, emit, modify, ret, raise, is_dir.
  destruct (faults w) as [|[|n s d] rest]; cbn;
    try (intros [= <- <-]; cbn; auto; fail);
    (destruct (fs w !! src) as [[data meta|]|] eqn:E; cbn;
     [destruct (match fs w !! dst with Some Dir => true | _ => false end)|..];
     cbn; intros [= <- <-]; cbn; eauto 10).
Qed.

Lemma unlink_result p w r w' :
  unlink p w = (r, w') ->
  match r with
  | inr _ => fs w' = delete p (fs w)
  | inl e => fs w' = fs w /\ last (log w') = Some (EUnlink p false)
  end.
Proof.
  unfold unlink, bind, next_fault, get, emit, modify, ret, raise.
  destruct (faults w) as [|[|n s d] rest]; cbn;
    try (intros [= <- <-]; cbn; rewrite last_snoc; auto; fail);
    (destruct (fs w !! p) as [[data meta|]|] eqn:E; cbn;
     intros [= <- <-]; cbn; rewrite ?last_snoc; auto).
Qed.

(** The name of the temporary file is not the name of the target. *)
Lemma temp_path_differs fp r sfx :
  parent fp ++ [(lit "." ++ name fp ++ lit "_") ++ r ++ sfx] <> fp.
Proof.
  destruct (decide (fp = [])) as [->|Hne]; [discriminate|].
  destruct (exists_last Hne) as (d & nm & ->).
  unfold parent, name. rewrite removelast_last, List.last_last.
  intros H. apply app_inj_tail in H as [_ H].
  apply (f_equal length) in H. rewrite !length_app in H. simpl in H. lia.
Qed.

(** A successful atomic write leaves the encoded new content in the
    target. *)
Lemma write_file_atomic_success fp content e w w' :
  write_file_atomic fp content e w = (inr tt, w') ->
  exists data, encode e content = Some data
    /\ fs w' !! fp = Some (File data (clock w)).
Proof.
  unfold write_file_atomic. unfold bind at 1.
  destruct (mkstemp _ _ _ w) as [[x|tmp] w1] eqn:Hmk; [discriminate|].
  apply mkstemp_result in Hmk as (Hck1 & _ & _ & Hfs1 & _).
  unfold try_except, bind.
  destruct (write_text tmp content e w1) as [[x|[]] w2] eqn:Hwr.
  { cbn. destruct (unlink tmp w2) as [[y|[]] w3]; cbn;
      [destruct (is_OSError y)|]; discriminate. }
  apply write_text_result in Hwr as [Hck2 (data & Henc & Hfs2 & _)].
  destruct (replace tmp fp w2) as [[x|[]] w3] eqn:Hrp.
  { cbn. destruct (unlink tmp w3) as [[y|[]] w4]; cbn;
      [destruct (is_OSError y)|]; discriminate. }
  apply replace_result in Hrp as [_ (data' & meta' & Hsrc & Hfs3 & _)].
  rewrite Hfs2, lookup_insert_eq in Hsrc. injection Hsrc as <- <-.
  intros [= <-]. exists data. split; [assumption|].
  rewrite Hfs3, lookup_insert_eq. now rewrite Hck1.
Qed.

(** C7, amended.  [write_file_atomic] creates an empty temporary file under
    a free name in the directory of the target, writes the whole new content
    to it and replaces the target by it in one step: on success these three
    system calls are the ones made, the target holds exactly the encoded new
    content and no other file differs.  If a step fails, the failure is
    propagated and the target and every other file that existed are as
    before; the temporary file is removed, unless its removal fails too, in
    which case that second failure is ignored and the temporary file is the
    only file left over. *)
Theorem write_file_atomic_spec fp content e w :
  match write_file_atomic fp content e w with
  | (inr _, w') =>
      exists data tmp,
        encode e content = Some data
        /\ fs w' = <[fp := File data (clock w)]> (fs w)
        /\ parent tmp = parent fp /\ fs w !! tmp = None
        /\ log w' = log w ++ [EMkstemp (parent fp) (Some tmp);
                              EWrite tmp true; EReplace tmp fp true]
  | (inl _, w') =>
      fs w' !! fp = fs w !! fp
      /\ (fs w' = fs w
          \/ exists tmp part,
               parent tmp = parent fp /\ fs w !! tmp = None
               /\ fs w' = <[tmp := File part (clock w)]> (fs w)
               /\ last (log w') = Some (EUnlink tmp false))
  end.
Proof.
  unfold write_file_atomic. unfold bind at 1.
  destruct (mkstemp _ _ _ w) as [[x|tmp] w1] eqn:Hmk.
  { apply mkstemp_result in Hmk as [_ ->]. auto. }
  apply mkstemp_result in Hmk as (Hck1 & Hfresh & (r0 & Htmp) & Hfs1 & Hlog1).
  assert (Hne : tmp <> fp) by (rewrite Htmp; apply temp_path_differs).
  assert (Hpar : parent tmp = parent fp).
  { rewrite Htmp. unfold parent at 1. now rewrite removelast_last. }
  unfold try_except, bind.
  destruct (write_text tmp content e w1) as [[x|[]] w2] eqn:Hwr.
  - (* the write failed *)
    apply write_text_result in Hwr as [Hck2 Hfs2]. cbn.
    assert (exists part, fs w2 = <[tmp := File part (clock w)]> (fs w))
      as [part Hw2].
    { destruct Hfs2 as [->|[part ->]]; rewrite Hfs1, ?Hck1;
        [eauto|rewrite insert_insert_eq; eauto]. }
    destruct (unlink tmp w2) as [[y|[]] w3] eqn:Hun; cbn;
      apply unlink_result in Hun.
    + destruct Hun as [Hfs3 Hlog]. destruct (is_OSError y); cbn;
        rewrite Hfs3, Hw2, lookup_insert_ne by assumption;
        (split; [reflexivity|right; exists tmp, part; auto]).
    + rewrite Hun, Hw2, delete_insert_id by assumption. auto.
  - (* the write succeeded *)
    apply write_text_result in Hwr as [Hck2 (data & Henc & Hfs2 & Hlog2)].
    rewrite Hfs1, Hck1, insert_insert_eq in Hfs2.
    destruct (replace tmp fp w2) as [[x|[]] w3] eqn:Hrp;
      apply replace_result in Hrp as [Hck3 Hrp].
    + (* the replacement failed *)
      cbn. destruct (unlink tmp w3) as [[y|[]] w4] eqn:Hun; cbn;
        apply unlink_result in Hun.
      * destruct Hun as [Hfs4 Hlog]. destruct (is_OSError y); cbn;
          rewrite Hfs4, Hrp, Hfs2, lookup_insert_ne by assumption;
          (split; [reflexivity|right; exists tmp, data; auto]).
      * rewrite Hun, Hrp, Hfs2, delete_insert_id by assumption. auto.
    + destruct Hrp as (data' & meta' & Hsrc & Hfs3 & Hlog3).
      rewrite Hfs2, lookup_insert_eq in Hsrc. injection Hsrc as <- <-.
      exists data, tmp. split; [assumption|].
      split; [now rewrite Hfs3, Hfs2, delete_insert_id|].
      split; [assumption|]. split; [assumption|].
      now rewrite Hlog3, Hlog2, Hlog1, <- !app_assoc.
Qed.

Lemma full_disk_leaves_temp :
  fs full_disk !! note_temp = None
  /\ exists e w',
      write_file_atomic note (lit "## A") UTF8 full_disk = (inl e, w')
      /\ fs w' !! note_temp = Some (File [HASH] 9%N)
      /\ fs w' !! note = Some (File (lit "# A") 7%N).
Proof.
  split; [vm_compute; reflexivity|].
  destruct (write_file_atomic note (lit "## A") UTF8 full_disk) as [r w'] eqn:E.
  vm_compute in E. injection E as <- <-.
  eexists _, _. split; [reflexivity|]. split; vm_compute; reflexivity.
Qed.

(** The wording fails there: the temporary file is left behind. *)
Lemma atomic_write_as_worded_fails :
  ~ atomic_write_as_worded note (lit "## A") UTF8 full_disk.
Proof.
  unfold atomic_write_as_worded.
  destruct full_disk_leaves_temp as (Hfree & e & w' & -> & Htmp & _).
  intros [_ H]. specialize (H _ Hfree). congruence.
Qed.

(** *** Results of [process_file] *)

Lemma latin1_always_decodes data : decode LATIN1 data = Some data.
Proof. reflexivity. Qed.

(** With latin-1 last in the list, the loop never ends without content. *)
Lemma decode_loop_some fp w c enc w1 :
  decode_loop ENCODINGS fp w = (inr (c, enc), w1) -> c <> None.
Proof.
  intros H ->. apply decode_loop_result in H as [_ H].
  destruct (H LATIN1) as (data & meta & _ & Hd).
  - unfold ENCODINGS. set_solver.
  - discriminate.
Qed.

Lemma exn_str_nonempty e : exists c s, exn_str e = c :: s.
Proof. destruct e; cbn; eauto. Qed.

Lemma exn_str_not_decode_message e : exn_str e <> COULD_NOT_DECODE.
Proof. destruct e; cbn; discriminate. Qed.

(** A result of the [try] block names its file and carries no error. *)
Lemma process_file_try_result fp root d b v w r w' :
  process_file_try fp root d b v w = (inr r, w') ->
  file_path r = fp /\ error r = None.
Proof.
  unfold process_file_try, process_content. unfold bind at 1.
  destruct (decode_loop ENCODINGS fp w) as [[e|[[c|] enc]] w1] eqn:D;
    [discriminate| |].
  - unfold bind at 1.
    destruct (convert_h1_to_h2 c) as [[new n]|] eqn:C; cbn; [|discriminate].
    destruct (n =? 0) eqn:N; [intros [= <- <-]; auto|].
    unfold bind at 1. destruct (when v _ w1) as [[e|[]] w2]; [discriminate|].
    destruct d; [intros [= <- <-]; auto|].
    unfold bind at 1. destruct (when b _ w2) as [[e|[]] w3]; [discriminate|].
    unfold bind at 1.
    destruct (write_file_atomic fp new enc w3) as [[e|[]] w4]; [discriminate|].
    intros [= <- <-]; auto.
  - exfalso. now apply decode_loop_some in D.
Qed.

(** [process_file] never raises: it returns a result for its file, with no
    error or with the text of the exception caught, which is not empty. *)
Lemma process_file_result fp root d b v w :
  exists r w',
    process_file fp root d b v w = (inr r, w')
    /\ file_path r = fp
    /\ (error r = None \/ exists e, error r = Some (exn_str e)).
Proof.
  unfold process_file, try_except.
  destruct (process_file_try fp root d b v w) as [[e|r] w'] eqn:E; cbn.
  - eexists _, _. split; [reflexivity|]. cbn. eauto.
  - exists r, w'. split; [reflexivity|].
    apply process_file_try_result in E as [? ?]. auto.
Qed.

(** The run attempts every file: one result per file, in order. *)
Lemma process_all_result files root d b v : forall w,
  exists results w',
    process_all files root d b v w = (inr results, w')
    /\ map file_path results = files
    /\ Forall reported results.
Proof.
  induction files as [|fp files IH]; intros w; simpl.
  - exists [], w. repeat split; constructor.
  - unfold bind at 1.
    destruct (process_file_result fp root d b v w) as (r & w1 & -> & Hfp & Hr).
    unfold bind at 1.
    destruct (IH w1) as (rs & w2 & -> & Hfiles & Hall).
    exists (r :: rs), w2. split; [reflexivity|]. simpl.
    split; [congruence|]. now constructor.
Qed.

Lemma reported_truthy r : reported r -> truthy (error r) = true <-> error r <> None.
Proof.
  intros [->|[e ->]]; [split; [discriminate|congruence]|].
  destruct (exn_str_nonempty e) as (c & s & ->). split; [discriminate|reflexivity].
Qed.

Lemma error_lines_empty results :
  Forall reported results ->
  error_lines results = [] <-> Forall (fun r => error r = None) results.
Proof.
  induction 1 as [|r rs Hr _ IH]; simpl.
  - split; constructor.
  - rewrite Forall_cons, <- IH. destruct Hr as [E|[e E]]; rewrite E.
    + simpl. tauto.
    + destruct (exn_str_nonempty e) as (c & s & Es). rewrite Es. simpl.
      split; [discriminate|]. intros [[=] _].
Qed.

Lemma output_only_refl w : output_only w w.
Proof. repeat split. Qed.

Lemma output_only_trans w1 w2 w3 :
  output_only w1 w2 -> output_only w2 w3 -> output_only w1 w3.
Proof. unfold output_only. intuition congruence. Qed.

Lemma printer_print l : printer (print l).
Proof. intros w. eexists. split; [reflexivity|]. repeat split. Qed.

Lemma printer_print_err l : printer (print_err l).
Proof. intros w. eexists. split; [reflexivity|]. repeat split. Qed.

Lemma printer_ret : printer (ret tt).
Proof. intros w. exists w. split; [reflexivity|apply output_only_refl]. Qed.

Lemma printer_when b m : printer m -> printer (when b m).
Proof. destruct b; [auto|]. intros _. apply printer_ret. Qed.

Lemma printer_seq m k : printer m -> printer k -> printer (m ;; k).
Proof.
  intros Hm Hk w. unfold bind. destruct (Hm w) as (w1 & -> & H1).
  destruct (Hk w1) as (w2 & -> & H2). exists w2. split; [reflexivity|].
  eapply output_only_trans; eassumption.
Qed.

Lemma post_printer {A} m (k : M A) w Q :
  printer m ->
  (forall w1, output_only w w1 -> post k w1 Q) -> post (m ;; k) w Q.
Proof.
  intros Hm Hk. destruct (Hm w) as (w1 & E & H1).
  unfold post, bind. rewrite E. now apply Hk.
Qed.

Lemma post_bind {A B} (m : M A) (k : A -> M B) w a w' Q :
  m w = (inr a, w') -> post (k a) w' Q -> post (bind m k) w Q.
Proof. intros E H. unfold post, bind. now rewrite E. Qed.

Lemma post_ret {A} (a : A) w (Q : exn + A -> world -> Prop) :
  Q (inr a) w -> post (ret a) w Q.
Proof. auto. Qed.

Lemma find_markdown_files_pure root extra w :
  exists files, find_markdown_files root extra w = (inr files, w).
Proof. unfold find_markdown_files, bind, get, ret. eauto. Qed.

Ltac printers :=
  repeat first [apply printer_seq | apply printer_when | apply printer_print
               | apply printer_ret].

(** [run_conversion] prints, lists the files, prints, processes every file
    in order, prints, and returns the errors of the results. *)
Lemma run_conversion_result root d b v extra w :
  exists w0 files w1 results w2 w3 summary,
    output_only w w0
    /\ find_markdown_files root extra w0 = (inr files, w0)
    /\ output_only w0 w1
    /\ process_all files root d b v w1 = (inr results, w2)
    /\ map file_path results = files
    /\ Forall reported results
    /\ output_only w2 w3
    /\ run_conversion root d b v extra w = (inr summary, w3)
    /\ errors summary = error_lines results.
Proof.
  enough (post (run_conversion root d b v extra) w
            (fun r w3 => exists w0 files w1 results w2 summary,
               output_only w w0
               /\ find_markdown_files root extra w0 = (inr files, w0)
               /\ output_only w0 w1
               /\ process_all files root d b v w1 = (inr results, w2)
               /\ map file_path results = files
               /\ Forall reported results
               /\ output_only w2 w3
               /\ r = inr summary
               /\ errors summary = error_lines results)) as H.
  { destruct H as (w0 & files & w1 & results & w2 & summary & H).
    exists w0, files, w1, results, w2, (snd (run_conversion root d b v extra w)),
      summary.
    intuition. now apply injective_projections. }
  unfold run_conversion.
  apply post_printer; [printers|]. intros wa Ha.
  apply post_printer; [printers|]. intros wb Hb.
  apply post_printer; [printers|]. intros wc Hc.
  apply post_printer; [printers|]. intros wd Hd.
  apply post_printer; [printers|]. intros w0 H0.
  assert (Hw0 : output_only w w0).
  { repeat (eapply output_only_trans; [eassumption|]). apply output_only_refl. }
  destruct (find_markdown_files_pure root extra w0) as [files Ef].
  eapply post_bind; [exact Ef|].
  apply post_printer; [printers|]. intros we He.
  apply post_printer; [printers|]. intros w1 H1.
  assert (Hw1 : output_only w0 w1).
  { repeat (eapply output_only_trans; [eassumption|]). apply output_only_refl. }
  destruct (process_all_result files root d b v w1)
    as (results & w2 & Ep & Hfiles & Hall).
  eapply post_bind; [exact Ep|].
  apply post_printer; [printers|]. intros wf Hf.
  apply post_printer.
  { destruct (d && _); [printers|]. destruct (negb d && _); [printers|].
    destruct (_ =? 0); printers. }
  intros wg Hg.
  apply post_printer; [printers|]. intros wh Hh.
  apply post_printer; [printers|]. intros w3 H3.
  apply post_ret.
  exists w0, files, w1, results, w2. eexists.
  repeat (split; [eassumption|]).
  split; [|split; reflexivity].
  repeat (eapply output_only_trans; [eassumption|]). apply output_only_refl.
Qed.

(** C8.  [main] returns an exit code, 0 or 1.  When the root is not an
    existing directory the code is 1 and nothing was done but printing one
    message on the error stream: no system call, no file touched, nothing on
    the standard output.  When the root is a directory, the files are listed
    and every one of them is processed in order, and the code is 0 exactly
    when no result carries an error, 1 exactly when some result does:
    neither the counts nor the flags take part. *)
Theorem exit_code args w :
  exists code w',
    main args w = (inr code, w')
    /\ (code = 0 \/ code = 1)
    /\ (is_dir w (vault_path args) = false ->
        code = 1 /\ fs w' = fs w /\ log w' = log w /\ faults w' = faults w
        /\ stdout w' = stdout w
        /\ (stderr w' = stderr w ++ [PNotExists (vault_path args)]
            \/ stderr w' = stderr w ++ [PNotDir (vault_path args)]))
    /\ (is_dir w (vault_path args) = true ->
        exists w0 files w1 results w2,
          output_only w w0
          /\ find_markdown_files (vault_path args)
               (parse_excludes (exclude args)) w0 = (inr files, w0)
          /\ output_only w0 w1
          /\ process_all files (vault_path args) (negb (write args))
               (negb (no_backup args)) (verbose args) w1 = (inr results, w2)
          /\ map file_path results = files
          /\ (code = 0 <-> Forall (fun r => error r = None) results)
          /\ (code = 1 <-> Exists (fun r => error r <> None) results)).
Proof.
  unfold main, bind at 1, get.
  destruct (exists_ w (vault_path args)) eqn:Hex; cbn [negb].
  - destruct (is_dir w (vault_path args)) eqn:Hdir; cbn [negb].
    + destruct (run_conversion_result (vault_path args) (negb (write args))
                  (true && negb (no_backup args)) (verbose args)
                  (parse_excludes (exclude args)) w)
        as (w0 & files & w1 & results & w2 & w3 & summary
            & H0 & Ef & H1 & Ep & Hfiles & Hall & H3 & Er & Herr).
      unfold bind, ret. rewrite Er, Herr.
      pose proof (error_lines_empty _ Hall) as Hempty.
      eexists _, _. split; [reflexivity|].
      split; [case_bool_decide; auto|]. split; [discriminate|]. intros _.
      exists w0, files, w1, results, w2. cbn [andb] in Ep.
      repeat (split; [assumption|]).
      split.
      * case_bool_decide as Hb; [tauto|]. split; [discriminate|tauto].
      * change (fun r => error r <> None) with (fun r => ~ error r = None).
        rewrite List.Exists_Forall_neg
          by (intros r; destruct (error r); [right; discriminate|now left]).
        case_bool_decide as Hb; [split; [discriminate|tauto]|tauto].
    + cbn. eexists _, _. split; [reflexivity|]. cbn.
      split; [auto|]. split; [|discriminate]. intros _. auto 10.
  - cbn. eexists _, _. split; [reflexivity|]. cbn.
    split; [auto|]. split; [auto 10|].
    unfold is_dir, exists_ in *. destruct (fs w !! vault_path args) as [[]|];
      discriminate.
Qed.

(** What happened when [process_file] reports a file modified. *)
Lemma process_file_written fp root d b v w r w' :
  process_file fp root d b v w = (inr r, w') -> modified r = true ->
  exists data meta s enc tried rest new n bytes meta',
    fs w !! fp = Some (File data meta)
    /\ ENCODINGS = tried ++ enc :: rest
    /\ Forall (fun e => decode e data = None) tried
    /\ decode enc data = Some s
    /\ convert_h1_to_h2 (universal_newlines s) = Some (new, n)
    /\ encode enc new = Some bytes
    /\ fs w' !! fp = Some (File bytes meta')
    /\ n = replacements r.
Proof.
  unfold process_file, try_except.
  destruct (process_file_try fp root d b v w)
    as [[e|r0] w0] eqn:E; cbn; [intros [= <- <-]; discriminate|].
  intros [= <- <-]. revert E. unfold process_file_try, process_content.
  unfold bind at 1.
  destruct (decode_loop ENCODINGS fp w) as [[e|[[c|] enc]] w1] eqn:D;
    [discriminate| |intros [= <- <-]; discriminate].
  apply decode_loop_result in D
    as (data & meta & s & tried & rest & Hf & Hl & Ht & Hd & ->).
  unfold bind at 1.
  destruct (convert_h1_to_h2 _) as [[new n]|] eqn:C; cbn; [|discriminate].
  destruct (n =? 0); [intros [= <- <-]; discriminate|].
  unfold bind at 1. destruct (when v _ w1) as [[e|[]] w2]; [discriminate|].
  destruct d; [intros [= <- <-]; discriminate|].
  unfold bind at 1.
  destruct (when b _ w2) as [[e|[]] w3]; [discriminate|].
  unfold bind at 1.
  destruct (write_file_atomic fp new enc w3) as [[e|[]] w4] eqn:W;
    [discriminate|].
  apply write_file_atomic_success in W as (bytes & Henc & Hfs).
  intros [= <- <-] _.
  exists data, meta, s, enc, tried, rest, new, n, bytes, (clock w3). auto 10.
Qed.



(** C10.  Because latin-1 decodes every sequence of bytes, the loop over the
    encodings never ends without content; it returns content for every
    file that exists when no open fails; the result of [process_file] never
    carries the error about decoding; and no result of a run does. *)
Theorem undecodable_unreachable fp root dry_run create_backups verbose w :
  (forall data, decode LATIN1 data = Some data)
  /\ (forall c enc w1,
      decode_loop ENCODINGS fp w = (inr (c, enc), w1) -> c <> None)
  /\ (forall data meta,
      fs w !! fp = Some (File data meta) -> faults w = [] ->
      exists c enc w1, decode_loop ENCODINGS fp w = (inr (Some c, enc), w1))
  /\ (exists r w',
      process_file fp root dry_run create_backups verbose w = (inr r, w')
      /\ error r <> Some COULD_NOT_DECODE)
  /\ (forall files, exists results w',
      process_all files root dry_run create_backups verbose w
      = (inr results, w')
      /\ Forall (fun r => error r <> Some COULD_NOT_DECODE) results).
Proof.
  assert (Hrep : forall r, reported r -> error r <> Some COULD_NOT_DECODE).
  { intros r [->|[e ->]]; [discriminate|].
    intros [= H]. now apply exn_str_not_decode_message in H. }
  split; [exact latin1_always_decodes|].
  split; [apply decode_loop_some|]. split; [|split].
  - intros data meta Hf Hno.
    destruct (decode_loop ENCODINGS fp w) as [[e|[c enc]] w1] eqn:D.
    + exfalso. revert D. unfold ENCODINGS. cbn [decode_loop].
      unfold try_except, bind.
      destruct (read_text_no_fault fp UTF8 w _ _ Hf Hno) as (wa & Hfa & Hna & ->).
      destruct (decode UTF8 data); cbn; [discriminate|].
      rewrite <- Hfa in Hf.
      destruct (read_text_no_fault fp UTF8_SIG wa _ _ Hf Hna)
        as (wb & Hfb & Hnb & ->).
      destruct (decode UTF8_SIG data); cbn; [discriminate|].
      rewrite <- Hfb in Hf.
      destruct (read_text_no_fault fp LATIN1 wb _ _ Hf Hnb)
        as (wc & Hfc & Hnc & ->).
      cbn. discriminate.
    + destruct c as [c|]; [eauto|]. now apply decode_loop_some in D.
  - destruct (process_file_result fp root dry_run create_backups verbose w)
      as (r & w' & E & _ & Hr). eauto.
  - intros files.
    destruct (process_all_result files root dry_run create_backups verbose w)
      as (rs & w' & E & _ & Hall).
    exists rs, w'. split; [assumption|].
    eapply Forall_impl; [exact Hall|exact Hrep].
Qed.

Example sample_files :
  fst (find_markdown_files vault [] sample)
  = inr [vault ++ [lit "a.md"]; vault ++ [lit "b.md"];
         vault ++ [lit "sub"; lit "d.md"]].
Proof. vm_compute. reflexivity. Qed.

Example sample_latin1 :
  fst (decode_loop ENCODINGS (vault ++ [lit "b.md"]) sample)
  = inr (Some [255; 35; 32; 65]%N, LATIN1).
Proof. vm_compute. reflexivity. Qed.

Example sample_dry_run :
  fst (main (sample_args false) sample) = inr 0
  /\ map_to_list (fs (snd (main (sample_args false) sample)))
     = map_to_list (fs sample)
  /\ stdout (snd (main (sample_args false) sample))
     = [PRule; PBanner vault true; PRule; PFoundFiles 3; PSummary 3 1 2;
        PDryRunNote; PRule].
Proof. repeat split; vm_compute; reflexivity. Qed.

Example sample_write :
  fst (main (sample_args true) sample) = inr 0
  /\ fs (snd (main (sample_args true) sample)) !! (vault ++ [lit "a.md"])
     = Some (File (lit "## A
text
## B") 100%N)
  /\ fs (snd (main (sample_args true) sample))
       !! (vault ++ [lit "_backups"; lit "a_20240101_120000.md"])
     = Some (File (lit "# A
text
# B") 7%N).
Proof. vm_compute. repeat split. Qed.

(** The copy to the backup area fails: the file is not written, the error
    is recorded and the exit code is 1. *)
Example sample_backup_fails :
  let w := with_faults [NoFault; NoFault; NoFault;
                        Fail 13 (lit "Permission denied") 0] sample in
  fst (main (sample_args true) w) = inr 1
  /\ fs (snd (main (sample_args true) w)) !! (vault ++ [lit "a.md"])
     = fs sample !! (vault ++ [lit "a.md"]).
Proof. vm_compute. repeat split. Qed.

(** With only the first two encodings a file can be undecodable. *)
Example two_encodings_can_fail :
  fst (decode_loop [UTF8; UTF8_SIG] (vault ++ [lit "b.md"]) sample)
  = inr (None, UTF8).
Proof. vm_compute. reflexivity. Qed.

End SysFacts.

(** ** More about the transform *)

Module ConvertExtra.

Import Text Convert More TextFacts ConvertFacts.

Lemma length_join sep ls :
  ls <> [] ->
  length (join sep ls) + 1 = list_sum (map length ls) + length ls.
Proof.
  induction ls as [|l ls IH]; [congruence|]. intros _.
  destruct ls as [|l' ls].
  - simpl. lia.
  - rewrite join_cons, length_app. unfold list_sum in *.
    cbn [length map fold_right] in *.
    specialize (IH ltac:(discriminate)). lia.
Qed.

(** What a run of the loop appends: as many lines as it reads, one
    character more for each line it counts, and the lines themselves when it
    counts none. *)
Lemma loop_lengths lines : forall i st st',
  Forall one_line lines -> loop i lines st = Some st' ->
  exists outs,
    result_lines st' = result_lines st ++ outs
    /\ length outs = length lines
    /\ replacement_count st <= replacement_count st'
    /\ list_sum (map length outs) + replacement_count st
       = list_sum (map length lines) + replacement_count st'
    /\ (replacement_count st' = replacement_count st -> outs = lines).
Proof.
  induction lines as [|x lines IH]; intros i st st' Hall; simpl.
  - intros [= <-]. exists []. rewrite app_nil_r. repeat split; auto.
  - destruct (body i x st) as [st1|] eqn:E; [|discriminate]. intros H.
    inversion Hall as [|? ? Hx Hall']; subst.
    destruct (body_emit _ _ _ _ Hx E) as (o & Ho & Hcase).
    destruct (IH _ _ _ Hall' H) as (outs & Hr & Hlen & Hle & Hsum & Hsame).
    exists (o :: outs). rewrite Hr, Ho, <- app_assoc. unfold list_sum in *.
    cbn [length map fold_right].
    destruct Hcase as [[-> Hn]|(k & rest & [_ ->] & -> & Hn & _)].
    + rewrite Hn in *. repeat split; auto; try lia.
      intros Hc. now rewrite (Hsame Hc).
    + rewrite !length_app in *.
      change (length (lit "## ")) with 3. change (length (lit "# ")) with 2.
      repeat split; auto; try lia.
Qed.

(** X1.  Every input has an output with as many lines, and longer by exactly one
    character for each heading counted. *)
Theorem convert_lengths content :
  exists out n,
    convert_h1_to_h2 content = Some (out, n)
    /\ length (split NL out) = length (split NL content)
    /\ length out = length content + n.
Proof.
  destruct (convert_lines content) as (stf & Hf & Hc & Hs & Hlen).
  eexists _, _. split; [exact Hc|]. rewrite Hs. split; [exact Hlen|].
  destruct (loop_lengths _ _ _ _ (split_lines NL content) Hf)
    as (outs & Hr & Hl & _ & Hsum & _).
  cbn in Hr, Hsum. subst outs.
  pose proof (split_nonempty NL content) as Hne.
  assert (Hne' : result_lines stf <> []).
  { intros E. rewrite E in Hl. destruct (split NL content); [congruence|discriminate]. }
  pose proof (length_join NL _ Hne) as H1.
  pose proof (length_join NL _ Hne') as H2.
  rewrite join_split in H1. lia.
Qed.

(** X2.  The count is zero exactly when the output is the input. *)
Theorem convert_zero_iff_unchanged content :
  exists out n,
    convert_h1_to_h2 content = Some (out, n)
    /\ (n = 0 <-> out = content).
Proof.
  destruct (convert_lines content) as (stf & Hf & Hc & Hs & Hlen).
  eexists _, _. split; [exact Hc|].
  destruct (loop_lengths _ _ _ _ (split_lines NL content) Hf)
    as (outs & Hr & Hl & _ & Hsum & Hsame).
  cbn in Hr, Hsum, Hsame. subst outs. split.
  - intros H0. rewrite (Hsame H0). apply join_split.
  - intros Heq. apply (f_equal (split NL)) in Heq. rewrite Hs in Heq.
    rewrite Heq in Hsum. lia.
Qed.

(** X3.  The line found in the output differs from the line of the input exactly
    when that line is a level-one heading met outside frontmatter and
    outside a fence. *)
Theorem changed_lines_are_headings content i line :
  split NL content !! i = Some line ->
  exists out n o,
    convert_h1_to_h2 content = Some (out, n)
    /\ split NL out !! i = Some o
    /\ (o <> line <-> convertible (split NL content) i = true).
Proof.
  intros Hl.
  destruct (iteration_exists _ _ _ Hl) as (st & st' & o & Hit).
  destruct (iteration_facts _ _ _ _ _ _ Hit) as (_ & Hline & _ & Ho).
  destruct Hit as [_ Hst Hb (out & n & Hc & Hout)].
  exists out, n, o. split; [exact Hc|]. split; [exact Hout|].
  unfold convertible. rewrite Hl, Hst.
  destruct (body_emit _ _ _ _ Hline Hb) as (o' & Ho' & Hcase).
  rewrite Ho in Ho'. apply app_inj_tail in Ho' as [_ <-].
  destruct Hcase as [[-> _]|(k & rest & Hh & -> & _ & Hf & Hcb)].
  - split; [congruence|]. intros Hconv. exfalso.
    apply andb_true_iff in Hconv as [[Hf Hcb]%andb_true_iff Hh].
    apply negb_true_iff in Hf, Hcb. apply is_h1_spec in Hh as (k & rest & Hh).
    rewrite (body_heading _ _ _ _ _ Hline Hf Hcb Hh) in Hb. injection Hb as <-.
    proj. apply app_inj_tail in Ho as [_ Ho]. destruct Hh as [_ Hh].
    rewrite <- Ho in Hh. apply app_inv_head in Hh. discriminate.
  - split.
    + intros _. rewrite Hf, Hcb. cbn. apply is_h1_spec. eauto.
    + intros _ E. destruct Hh as [_ Hh]. rewrite Hh in E.
      apply app_inv_head in E. discriminate.
Qed.

Lemma changed_lines_are_headings_witness :
  split NL (lit "# A
	# B") !! 1 = Some (lit "	# B")
  /\ convertible (split NL (lit "# A
	# B")) 1 = false
  /\ exists out n,
      convert_h1_to_h2 (lit "# A
	# B") = Some (out, n)
      /\ split NL out !! 1 = Some (lit "	# B").
Proof.
  split; [reflexivity|]. split; [reflexivity|].
  destruct (changed_lines_are_headings (lit "# A
	# B") 1 (lit "	# B") eq_refl) as (out & n & o & Hc & Ho & Hiff).
  exists out, n. split; [exact Hc|].
  destruct (decide (o = lit "	# B")) as [->|Hne]; [exact Ho|].
  apply Hiff in Hne. vm_compute in Hne. discriminate.
Defined.

(** In frontmatter, lines that are not the delimiter are appended as they
    are and the scan stays in frontmatter. *)
Lemma loop_in_frontmatter lines : forall i st,
  in_frontmatter st = true ->
  Forall (fun l => strip l <> DASHES) lines ->
  exists st', loop (S i) lines st = Some st'
    /\ result_lines st' = result_lines st ++ lines
    /\ replacement_count st' = replacement_count st.
Proof.
  induction lines as [|x lines IH]; intros i st Hf Hall; simpl.
  - exists st. now rewrite app_nil_r.
  - inversion Hall as [|? ? Hx Hall']; subst.
    unfold body at 1. cbn [Nat.eqb andb]. rewrite Hf.
    rewrite (bool_decide_eq_false_2 _ Hx).
    destruct (IH (S i) (append x st) Hf Hall') as (st' & Hl & Hr & Hn).
    exists st'. split; [exact Hl|]. rewrite Hr, Hn. cbn.
    now rewrite <- app_assoc.
Qed.

(** X4.  A document whose first line is the delimiter and that has no second
    delimiter is frontmatter to its end: it comes back as it is, with a
    count of zero. *)
Theorem unclosed_frontmatter_unchanged content first rest :
  split NL content = first :: rest ->
  strip first = DASHES ->
  Forall (fun l => strip l <> DASHES) rest ->
  convert_h1_to_h2 content = Some (content, 0).
Proof.
  intros Hs Hd Hall. unfold convert_h1_to_h2. rewrite Hs. cbn [loop].
  rewrite (body_front_open _ _ Hd).
  destruct (loop_in_frontmatter rest 0 (append first (set_frontmatter true init))
              eq_refl Hall) as (st' & -> & Hr & Hn).
  rewrite Hr, Hn. proj. cbn [init result_lines replacement_count app].
  now rewrite <- Hs, join_split.
Qed.

Lemma unclosed_frontmatter_unchanged_witness :
  convert_h1_to_h2 (lit "---
# Title
text") = Some (lit "---
# Title
text", 0).
Proof.
  apply (unclosed_frontmatter_unchanged _ (lit "---") [lit "# Title"; lit "text"]).
  - reflexivity.
  - reflexivity.
  - repeat constructor; vm_compute; discriminate.
Defined.

(** X5.  A first line that starts with a byte order mark (U+FEFF, which is not
    white space) is neither the frontmatter delimiter, nor a fence, nor a
    heading: it comes back as it is and the scan goes on outside
    frontmatter, so a delimiter on a later line opens nothing. *)
Theorem bom_first_line content :
  exists first out n,
    split NL (BOM_CHAR :: content) !! 0 = Some (BOM_CHAR :: first)
    /\ convert_h1_to_h2 (BOM_CHAR :: content) = Some (out, n)
    /\ split NL out !! 0 = Some (BOM_CHAR :: first)
    /\ state_at (split NL (BOM_CHAR :: content)) 1
       = Some (append (BOM_CHAR :: first) init).
Proof.
  assert (exists first, split NL (BOM_CHAR :: content) !! 0
                        = Some (BOM_CHAR :: first)) as [first Hl].
  { cbn [split]. change (BOM_CHAR =? NL)%N with false. cbv iota.
    pose proof (split_nonempty NL content).
    destruct (split NL content) as [|l ls]; [congruence|]. now exists l. }
  exists first.
  destruct (iteration_exists _ _ _ Hl) as (st & st' & o & Hit).
  destruct (iteration_facts _ _ _ _ _ _ Hit) as (_ & Hline & HS & Ho).
  destruct Hit as [_ Hst Hb (out & n & Hc & Hout)].
  rewrite state_at_0 in Hst. injection Hst as <-.
  assert (Hbody : body 0 (BOM_CHAR :: first) init
                  = Some (append (BOM_CHAR :: first) init)).
  { unfold body, heading.
    assert (Hd : strip (BOM_CHAR :: first) <> DASHES).
    { intros Hd. destruct (lstrip_strip (BOM_CHAR :: first)) as (ws & _ & E).
      rewrite Hd in E. discriminate. }
    rewrite (bool_decide_eq_false_2 _ Hd). cbn.
    destruct (h1_match (BOM_CHAR :: first)) as [[g1 g3]|] eqn:Em; [|reflexivity].
    apply (h1_match_inv _ _ _ Hline) in Em as (k & _ & [Hk E]).
    destruct k; discriminate. }
  rewrite Hbody in Hb. injection Hb as <-.
  cbn in Ho. injection Ho as <-.
  exists out, n. rewrite HS. auto.
Qed.

(** X6.  Once a fence is open, no line that does not start with its marker
    closes it: in particular the other marker does not, and a fence that is
    never closed protects every line to the end of the input. *)
Theorem unclosed_fence_protects_rest content j opener st F :
  split NL content !! j = Some opener ->
  state_at (split NL content) j = Some st ->
  in_frontmatter st = false -> in_code_block st = false ->
  F = FENCE_BACKTICK \/ F = FENCE_TILDE ->
  startswith (lstrip opener) F = true ->
  (forall k line, j < k -> split NL content !! k = Some line ->
                  startswith (lstrip line) F = false) ->
  exists out n,
    convert_h1_to_h2 content = Some (out, n)
    /\ n = replacement_count st
    /\ forall i line, j <= i -> split NL content !! i = Some line ->
                      split NL out !! i = Some line.
Proof.
  intros Hop Hst Hf Hc HF Hs Hrest.
  set (lines := split NL content) in *.
  pose proof (lookup_lt_Some _ _ _ Hop) as Hj.
  assert (HS : state_at lines (S j)
               = Some (append opener (set_fence true (Some F) st))).
  { rewrite (state_at_S _ _ _ Hop), Hst. now apply body_fence_open. }
  assert (Hopen : forall d, S j + d <= length lines ->
            exists st', state_at lines (S j + d) = Some st'
              /\ in_code_block st' = true /\ code_fence_pattern st' = Some F
              /\ replacement_count st' = replacement_count st).
  { intros d Hd.
    destruct (fence_stays_open lines F d (S j) _ Hd HS eq_refl eq_refl)
      as (st' & H1 & H2 & H3 & H4).
    - intros k line Hk Hlk. apply (Hrest (S j + k)); [lia|assumption].
    - exists st'. auto. }
  destruct (convert_lines content) as (stf & Hfin & Hconv & Hsp & Hlen).
  fold lines in Hfin, Hlen.
  eexists _, _. split; [exact Hconv|]. rewrite Hsp. split.
  - destruct (Hopen (length lines - S j) ltac:(lia)) as (st' & H1 & _ & _ & H4).
    replace (S j + (length lines - S j)) with (length lines) in H1 by lia.
    rewrite state_at_end, Hfin in H1. injection H1 as <-. exact H4.
  - intros i line Hi Hl.
    destruct (iteration_exists _ _ _ Hl) as (sti & sti' & o & Hit).
    destruct (iteration_facts _ _ _ _ _ _ Hit) as (Hinv & Hline & _ & Ho).
    destruct Hit as [_ Hsti Hb (out & n & Hc' & Hout)].
    rewrite Hconv in Hc'. injection Hc' as <- <-. rewrite Hsp in Hout.
    fold lines in Hsti. rewrite Hout. f_equal.
    destruct (decide (i = j)) as [->|Hne].
    + rewrite Hst in Hsti. injection Hsti as <-.
      rewrite Hop in Hl. injection Hl as <-.
      rewrite (body_fence_open _ _ _ _ HF Hf Hc Hs) in Hb. injection Hb as <-.
      cbn in Ho. now apply app_inj_tail in Ho as [_ <-].
    + pose proof (lookup_lt_Some _ _ _ Hl) as Hil.
      destruct (Hopen (i - S j) ltac:(lia)) as (st' & H1 & H2 & _).
      replace (S j + (i - S j)) with i in H1 by lia.
      rewrite Hsti in H1. injection H1 as <-.
      destruct (body_fenced i line sti Hinv H2) as (F' & _ & _ & _ & Hb').
      rewrite Hb' in Hb. injection Hb as <-.
      cbn in Ho. now apply app_inj_tail in Ho as [_ <-].
Qed.

Lemma unclosed_fence_protects_rest_witness :
  exists out n,
    convert_h1_to_h2 (lit "# A
```
# B
~~~
# C") = Some (out, n)
    /\ n = 1
    /\ split NL out !! 4 = Some (lit "# C").
Proof.
  destruct (unclosed_fence_protects_rest (lit "# A
```
# B
~~~
# C") 1 (lit "```") (count_one (append (lit "## A") init)) FENCE_BACKTICK)
    as (out & n & Hc & Hn & Hl).
  - vm_compute. reflexivity.
  - vm_compute. reflexivity.
  - reflexivity.
  - reflexivity.
  - now left.
  - vm_compute. reflexivity.
  - intros k line Hk Hl.
    destruct k as [|[|[|[|[|k]]]]]; try lia;
      vm_compute in Hl; try discriminate;
      injection Hl as <-; vm_compute; reflexivity.
  - exists out, n. split; [exact Hc|]. split; [exact Hn|].
    apply Hl; [lia|vm_compute; reflexivity].
Defined.

End ConvertExtra.

(** ** More about the files *)

Module SysExtra.

Import Text Convert Codec Sys More TextFacts ConvertFacts SysFacts.

(** A run whose result is known, paired with the world it ends in. *)
Lemma run_pair {A B} (p : A * B) (a : A) : fst p = a -> p = (a, snd p).
Proof. intros <-. now destruct p. Qed.

(** *** The order of the encodings *)

Lemma strip_bom_cases bs :
  (exists r, bs = BOM ++ r /\ strip_bom bs = r) \/ strip_bom bs = bs.
Proof.
  unfold strip_bom, BOM.
  repeat match goal with
  | |- context [match ?x with _ => _ end] => destruct x
  end; auto.
  left. eexists. split; reflexivity.
Qed.

Lemma utf8_decode_bom r :
  utf8_decode (BOM ++ r) = option_map (cons BOM_CHAR) (utf8_decode r).
Proof. reflexivity. Qed.

(** Whatever utf-8-sig decodes, utf-8 decodes too. *)
Lemma utf8_sig_implies_utf8 bs s :
  decode UTF8_SIG bs = Some s -> decode UTF8 bs <> None.
Proof.
  unfold decode. destruct (strip_bom_cases bs) as [(r & -> & ->)| ->].
  - intros H. rewrite utf8_decode_bom, H. discriminate.
  - congruence.
Qed.

Lemma universal_newlines_cons c s :
  c <> CR -> universal_newlines (c :: s) = c :: universal_newlines s.
Proof.
  intros Hc. cbn [universal_newlines].
  destruct (N.eqb_spec c CR); [contradiction|reflexivity].
Qed.

(** X7.  utf-8-sig is never the encoding used: a file that starts with a byte
    order mark is read as utf-8 and its content starts with U+FEFF. *)
Theorem utf8_sig_never_used fp w c enc w1 :
  decode_loop ENCODINGS fp w = (inr (Some c, enc), w1) ->
  enc <> UTF8_SIG
  /\ (forall data meta r,
        fs w !! fp = Some (File data meta) -> data = BOM ++ r ->
        enc = UTF8 -> exists c', c = BOM_CHAR :: c').
Proof.
  intros H. apply decode_loop_result in H
    as (data & meta & s & tried & rest & Hf & Hl & Ht & Hd & ->).
  split.
  - intros ->. unfold ENCODINGS in Hl.
    destruct tried as [|e1 [|e2 tried]]; try discriminate.
    + injection Hl as <- _. inversion Ht as [|? ? H1 _]; subst.
      now apply utf8_sig_implies_utf8 in Hd.
    + injection Hl as _ _ Hl. destruct tried as [|? [|? ?]]; discriminate.
  - intros data' meta' r Hf' -> ->. rewrite Hf in Hf'. injection Hf' as -> _.
    change (utf8_decode (BOM ++ r) = Some s) in Hd.
    rewrite utf8_decode_bom in Hd.
    destruct (utf8_decode r) as [s'|]; [|discriminate].
    injection Hd as <-. rewrite universal_newlines_cons by discriminate. eauto.
Qed.

(** The note of [bom_world] starts with a byte order mark: it is read as
    utf-8 and its content starts with U+FEFF. *)
Lemma utf8_sig_never_used_witness :
  fst (decode_loop ENCODINGS note bom_world)
  = inr (Some (BOM_CHAR :: lit "# A"), UTF8)
  /\ UTF8 <> UTF8_SIG
  /\ exists c', BOM_CHAR :: lit "# A" = BOM_CHAR :: c'.
Proof.
  assert (E : fst (decode_loop ENCODINGS note bom_world)
              = inr (Some (BOM_CHAR :: lit "# A"), UTF8))
    by (vm_compute; reflexivity).
  split; [exact E|].
  destruct (utf8_sig_never_used _ _ _ _ _ (run_pair _ _ E)) as [Hne H].
  split; [exact Hne|].
  apply (H (BOM ++ lit "# A") 7%N (lit "# A"));
    [vm_compute; reflexivity|reflexivity|reflexivity].
Defined.

(** *** Computations that leave the disk alone *)

Lemma same_disk_refl w : same_disk w w.
Proof. repeat split. Qed.

Lemma same_disk_trans w1 w2 w3 :
  same_disk w1 w2 -> same_disk w2 w3 -> same_disk w1 w3.
Proof. unfold same_disk. intuition congruence. Qed.

Lemma quiet_ret {A} (a : A) : quiet (ret a).
Proof. intros w. apply same_disk_refl. Qed.

Lemma quiet_raise {A} e : quiet (@raise A e).
Proof. intros w. apply same_disk_refl. Qed.

Lemma quiet_modify f :
  (forall w, same_disk w (f w)) -> quiet (modify f).
Proof. intros H w. apply H. Qed.

Lemma quiet_bind {A B} (m : M A) (k : A -> M B) :
  quiet m -> (forall a, quiet (k a)) -> quiet (bind m k).
Proof.
  intros Hm Hk w. unfold bind. specialize (Hm w).
  destruct (m w) as [[e|a] w1]; [exact Hm|].
  eapply same_disk_trans; [exact Hm|]. apply Hk.
Qed.

Lemma quiet_try {A} c (m : M A) h :
  quiet m -> (forall e, quiet (h e)) -> quiet (try_except c m h).
Proof.
  intros Hm Hh w. unfold try_except. specialize (Hm w).
  destruct (m w) as [[e|a] w1]; [|exact Hm].
  destruct (c e); [|exact Hm].
  eapply same_disk_trans; [exact Hm|]. apply Hh.
Qed.

Lemma quiet_print l : quiet (print l).
Proof. apply quiet_modify. intros w. repeat split. Qed.

Lemma quiet_emit ev : quiet (emit ev).
Proof. apply quiet_modify. intros w. repeat split. Qed.

Lemma quiet_when b m : quiet m -> quiet (when b m).
Proof. destruct b; [auto|]. intros _. apply quiet_ret. Qed.

Lemma quiet_next_fault : quiet next_fault.
Proof. intros w. unfold next_fault. destruct (faults w); repeat split. Qed.

Lemma quiet_relative_to_m p root : quiet (relative_to_m p root).
Proof.
  unfold relative_to_m. destruct (relative_to p root);
    [apply quiet_ret|apply quiet_raise].
Qed.

Lemma quiet_read_text p e : quiet (read_text p e).
Proof.
  unfold read_text. apply quiet_bind; [apply quiet_next_fault|].
  intros [|n s d].
  - apply quiet_bind; [intros w; apply same_disk_refl|]. intros w.
    destruct (fs w !! p) as [[data meta|]|];
      [destruct (decode e data)|..];
      (apply quiet_bind; [apply quiet_emit|]); intros _;
      first [apply quiet_ret|apply quiet_raise].
  - apply quiet_bind; [apply quiet_emit|]. intros _. apply quiet_raise.
Qed.

Lemma quiet_decode_loop encs p : quiet (decode_loop encs p).
Proof.
  induction encs as [|e encs IH]; simpl; [apply quiet_ret|].
  apply quiet_try; [|intros _; exact IH].
  apply quiet_bind; [apply quiet_read_text|]. intros c. apply quiet_ret.
Qed.

Lemma quiet_found v fp root n :
  quiet (when v (let* rel_path := relative_to_m fp root in
                 print (PFound rel_path n))).
Proof.
  apply quiet_when, quiet_bind; [apply quiet_relative_to_m|].
  intros rel. apply quiet_print.
Qed.

Lemma reader_found v fp root n :
  reader (when v (let* rel_path := relative_to_m fp root in
                  print (PFound rel_path n))).
Proof.
  apply reader_when, reader_bind; [apply reader_relative_to_m|].
  intros rel. apply reader_print.
Qed.

(** *** Files without a heading *)

(** X8.  In every mode, a result without error and with a count of zero means
    that nothing was done but reading: no file, no directory and no backup
    was created, changed or removed. *)
Theorem no_heading_no_write fp root dry_run create_backups verbose w r w' :
  process_file fp root dry_run create_backups verbose w = (inr r, w') ->
  error r = None -> replacements r = 0 ->
  modified r = false /\ reads_only w w'.
Proof.
  unfold process_file, try_except.
  destruct (process_file_try fp root dry_run create_backups verbose w)
    as [[e|r0] w0] eqn:E; cbn; [intros [= <- <-]; cbn; discriminate|].
  intros [= <- <-] Herr Hzero.
  revert E. unfold process_file_try, process_content.
  unfold bind at 1.
  pose proof (reader_decode_loop ENCODINGS fp w) as Hro.
  destruct (decode_loop ENCODINGS fp w) as [[e|[[c|] enc]] w1] eqn:D;
    [discriminate| |intros [= <- <-]; discriminate Herr].
  cbn in Hro. unfold bind at 1.
  destruct (convert_h1_to_h2 c) as [[new n]|] eqn:C; cbn; [|discriminate].
  destruct (n =? 0) eqn:N; [intros [= <- <-]; auto|].
  apply Nat.eqb_neq in N.
  unfold bind at 1. destruct (when verbose _ w1) as [[e|[]] w2]; [discriminate|].
  destruct dry_run; [intros [= <- <-]; cbn in Hzero; contradiction|].
  unfold bind at 1.
  destruct (when create_backups _ w2) as [[e|[]] w3]; [discriminate|].
  unfold bind at 1.
  destruct (write_file_atomic fp new enc w3) as [[e|[]] w4]; [discriminate|].
  intros [= <- <-]; cbn in Hzero; contradiction.
Qed.

(** The file of the sample vault without a heading, in write mode with
    backups. *)
Lemma no_heading_no_write_witness :
  exists r w',
    process_file d_md vault false true false sample = (inr r, w')
    /\ error r = None /\ replacements r = 0
    /\ modified r = false /\ reads_only sample w'.
Proof.
  assert (E : fst (process_file d_md vault false true false sample)
              = inr {| file_path := d_md; replacements := 0;
                       modified := false; error := None |})
    by (vm_compute; reflexivity).
  apply run_pair in E. eexists _, _. split; [exact E|].
  split; [reflexivity|]. split; [reflexivity|].
  apply (no_heading_no_write _ _ _ _ _ _ _ _ E); reflexivity.
Defined.

(** *** Backups *)

Lemma relative_to_Some p root rel :
  relative_to p root = Some rel -> p = root ++ rel.
Proof.
  revert p. induction root as [|r root IH]; intros [|x p]; simpl;
    try congruence.
  case_bool_decide; [|discriminate].
  subst. intros H. f_equal. now apply IH.
Qed.

Lemma relative_to_app root rel : relative_to (root ++ rel) root = Some rel.
Proof.
  induction root as [|r root IH]; simpl; [now destruct rel|].
  now rewrite bool_decide_eq_true_2.
Qed.

Lemma adds_dirs_refl m : adds_dirs m m.
Proof. split; auto. Qed.

Lemma adds_dirs_trans m1 m2 m3 :
  adds_dirs m1 m2 -> adds_dirs m2 m3 -> adds_dirs m1 m3.
Proof. intros [A1 B1] [A2 B2]. split; eauto. Qed.

Lemma adds_dirs_insert m p : m !! p = None -> adds_dirs m (<[p := Dir]> m).
Proof.
  intros Hp. split.
  - intros q x Hq. rewrite lookup_insert_ne; [assumption|congruence].
  - intros q d x. destruct (decide (p = q)) as [->|Hne].
    + rewrite lookup_insert_eq. discriminate.
    + now rewrite lookup_insert_ne.
Qed.

Lemma make_dirs_adds dirs : forall m m',
  make_dirs m dirs = Some m' -> adds_dirs m m'.
Proof.
  induction dirs as [|d dirs IH]; intros m m'; simpl.
  - intros [= <-]. apply adds_dirs_refl.
  - destruct (m !! d) as [[data meta|]|] eqn:E; [discriminate|apply IH|].
    intros H. eapply adds_dirs_trans; [|apply IH; exact H].
    now apply adds_dirs_insert.
Qed.

Lemma make_dirs_frame dirs : forall m m' q,
  make_dirs m dirs = Some m' -> q ∉ dirs -> m' !! q = m !! q.
Proof.
  induction dirs as [|d dirs IH]; intros m m' q; simpl.
  - now intros [= <-].
  - intros H Hq. apply not_elem_of_cons in Hq as [Hqd Hq].
    destruct (m !! d) as [[data meta|]|] eqn:E; [discriminate|eauto|].
    rewrite (IH _ _ _ H Hq). now apply lookup_insert_ne.
Qed.

Lemma dirs_between_root p :
  dirs_between [] p = map (fun k => take k p) (seq 1 (length p)).
Proof. unfold dirs_between. now destruct p. Qed.

(** [mkdir] adds directories only, and none below [p]. *)
Lemma mkdir_result parents p w r w' :
  mkdir parents p w = (r, w') ->
  adds_dirs (fs w) (fs w') /\ timestamp w' = timestamp w
  /\ match r with inl e => is_ValueError e = false | inr _ => True end
  /\ forall q, length p < length q -> fs w' !! q = fs w !! q.
Proof.
  assert (Hmk : forall m q,
            make_dirs (fs w) (dirs_between [] p) = Some m ->
            length p < length q -> m !! q = fs w !! q).
  { intros m q Hm Hq. apply (make_dirs_frame _ _ _ _ Hm).
    rewrite dirs_between_root, list_elem_of_In, in_map_iff.
    intros (k & <- & _). rewrite length_take in Hq. lia. }
  assert (Hins : forall q, length p < length q ->
            (<[p := Dir]> (fs w)) !! q = fs w !! q).
  { intros q Hq. apply lookup_insert_ne. intros ->. lia. }
  unfold mkdir, bind, next_fault, get, emit, modify, ret, raise, is_dir.
  destruct (faults w) as [|[|n s d] rest]; cbn;
    try (intros [= <- <-]; cbn; auto using adds_dirs_refl; fail);
    (destruct parents;
     [destruct (make_dirs (fs w) (dirs_between [] p)) as [m|] eqn:E; cbn;
      intros [= <- <-]; cbn; eauto 10 using adds_dirs_refl, make_dirs_adds
     |destruct (fs w !! p) as [[data meta|]|] eqn:E; cbn;
      [..|destruct (match fs w !! parent p with Some Dir => true | _ => false end);
          cbn];
      intros [= <- <-]; cbn;
      auto 10 using adds_dirs_refl, adds_dirs_insert]).
Qed.

(** Where [copy2] leaves the files: on success the destination holds the
    bytes and the metadata of the source; on failure nothing changed, or
    the destination was created or cut and holds what reached it. *)
Lemma copy2_result src dst w r w' :
  copy2 src dst w = (r, w') ->
  let dst' := if is_dir w dst then dst ++ [name src] else dst in
  timestamp w' = timestamp w /\
  match r with
  | inr _ =>
      exists data meta, fs w !! src = Some (File data meta)
        /\ fs w' = <[dst' := File data meta]> (fs w)
  | inl _ =>
      fs w' = fs w \/ exists d m, fs w' = <[dst' := File d m]> (fs w)
  end.
Proof.
  unfold copy2. unfold bind at 1, get. cbv zeta.
  set (dst' := if is_dir w dst then dst ++ [name src] else dst).
  destruct (bool_decide (src = dst') && exists_ w src).
  { unfold bind, emit, modify, raise. intros [= <- <-]. cbn. auto. }
  unfold bind, next_fault, emit, modify, ret, raise.
  destruct (faults w) as [|[|n s d] rest]; cbn;
    try (intros [= <- <-]; cbn; auto; fail);
    (destruct (fs w !! src) as [[data meta|]|] eqn:E; cbn;
     [|intros [= <- <-]; cbn; auto..]);
    (destruct (fs w !! dst') as [[dd dm|]|];
     destruct (fs w !! parent dst') as [[pd pm|]|]; cbn;
     try (intros [= <- <-]; cbn; auto; fail)).
  all: try (destruct rest as [|[|n2 s2 d2] rest]; cbn;
            intros [= <- <-]; cbn; eauto 10; fail).
  all: destruct (faults w) as [|[|n2 s2 d2] rest]; cbn;
    intros [= <- <-]; cbn; eauto 10.
Qed.

(** The backup never has the path of the file it copies. *)
Lemma backup_path_differs fp root ts : backup_path_of fp root ts <> fp.
Proof.
  unfold backup_path_of. intros H.
  destruct (relative_to fp root) as [rel|] eqn:E.
  - apply relative_to_Some in E. subst fp. unfold parent in H.
    destruct (decide (rel = [])) as [->|Hne].
    + apply (f_equal length) in H. rewrite !length_app in H. cbn in H. lia.
    + destruct (exists_last Hne) as (l' & a & ->).
      rewrite removelast_last in H.
      apply (f_equal length) in H. rewrite !length_app in H. cbn in H. lia.
  - rewrite <- H, <- app_assoc, relative_to_app in E. discriminate.
Qed.

(** What [create_backup] does when the backup path is not a directory:
    the copy goes to the backup path; whatever else existed is kept, and
    no file appears anywhere else. *)
Lemma create_backup_result fp root w :
  let bp := backup_path_of fp root (timestamp w) in
  is_dir w bp = false ->
  match create_backup fp root w with
  | (inr p, w') =>
      p = bp
      /\ (exists data meta,
            fs w !! fp = Some (File data meta)
            /\ fs w' !! bp = Some (File data meta))
      /\ fs w' !! fp = fs w !! fp
      /\ (forall q x, q <> bp -> fs w !! q = Some x -> fs w' !! q = Some x)
      /\ timestamp w' = timestamp w
  | (inl _, w') =>
      (forall q x, q <> bp -> fs w !! q = Some x -> fs w' !! q = Some x)
      /\ (forall q d x, q <> bp -> fs w' !! q = Some (File d x) ->
                        fs w !! q = Some (File d x))
      /\ timestamp w' = timestamp w
  end.
Proof.
  intros bp Hbp. unfold create_backup. unfold bind at 1.
  destruct (mkdir false (root ++ [lit "_backups"]) w) as [[e|[]] w1] eqn:M1;
    apply mkdir_result in M1 as ([A1 B1] & T1 & _ & K1); [eauto|].
  unfold bind at 1.
  set (block := try_except _ _ _).
  assert (Hblock : forall sub w2, block w1 = (sub, w2) ->
            adds_dirs (fs w1) (fs w2) /\ timestamp w2 = timestamp w1
            /\ match sub with
               | inr d =>
                   d = (root ++ [lit "_backups"])
                       ++ match relative_to fp root with
                          | Some rel => parent rel
                          | None => []
                          end
                   /\ forall q, length d < length q -> fs w2 !! q = fs w1 !! q
               | inl _ => True
               end).
  { intros sub w2. unfold block, try_except, bind, relative_to_m.
    destruct (relative_to fp root) as [rel|]; cbn.
    - destruct (mkdir true _ w1) as [[e|[]] w2'] eqn:M2;
        apply mkdir_result in M2 as (A2 & T2 & V2 & K2); cbn.
      + rewrite V2. intros [= <- <-]. auto.
      + intros [= <- <-]. auto.
    - intros [= <- <-]. rewrite app_nil_r. auto using adds_dirs_refl. }
  destruct (block w1) as [[e|sub] w2] eqn:B; specialize (Hblock _ _ eq_refl)
    as ([A2 B2] & T2 & Hsub).
  { split; [auto|]. split; [eauto|congruence]. }
  destruct Hsub as [Hsub K2].
  unfold bind at 1, get. unfold bind at 1.
  assert (Ebp : sub ++ [stem fp ++ lit "_" ++ timestamp w2 ++ suffix fp] = bp).
  { unfold bp, backup_path_of. rewrite Hsub, T2, T1. now rewrite <- app_assoc. }
  rewrite Ebp.
  assert (Hlen1 : length (root ++ [lit "_backups"]) < length bp).
  { unfold bp, backup_path_of. rewrite !length_app. cbn [length]. lia. }
  assert (Hlen2 : length sub < length bp).
  { rewrite <- Ebp, length_app. cbn [length]. lia. }
  assert (Hbp2 : is_dir w2 bp = false).
  { unfold is_dir in *. now rewrite (K2 _ Hlen2), (K1 _ Hlen1). }
  destruct (copy2 fp bp w2) as [[e|[]] w3] eqn:C;
    apply copy2_result in C; cbv zeta in C; rewrite Hbp2 in C;
    destruct C as [T3 C]; cbn.
  { split; [|split; [|congruence]].
    - intros q x Hq Hx.
      destruct C as [C|(d & m & C)]; rewrite C;
        [|rewrite lookup_insert_ne by congruence]; auto.
    - intros q d x Hq Hx.
      destruct C as [C|(d' & m' & C)]; rewrite C in Hx;
        [|rewrite lookup_insert_ne in Hx by congruence]; eauto. }
  destruct C as (data & meta & Hsrc & Hfs).
  split; [reflexivity|]. split; [|split; [|split]].
  - exists data, meta. split; [eauto|].
    rewrite Hfs. apply lookup_insert_eq.
  - rewrite Hfs, lookup_insert_ne by apply backup_path_differs.
    rewrite Hsrc. symmetry. eauto.
  - intros q x Hq Hx. rewrite Hfs, lookup_insert_ne by congruence. auto.
  - congruence.
Qed.

(** X9.  [create_backup], when the backup path is not a directory (the
    copy would then go into it), either returns the backup path or fails.
    The backup path is the folder [_backups] of the vault, then the
    directories of the file below the vault, then the name of the file with
    the time stamp before its suffix.  When it is returned, it holds the
    bytes and the metadata of the file, the file itself is as before, and
    so is whatever else existed (a backup of the same name, taken in the
    same second, is overwritten).  When [create_backup] fails, whatever
    existed beside the backup path is as before and no file has appeared
    beside the backup path: directories may have been made, and the backup
    path may hold the part of the copy that was made. *)
Theorem create_backup_spec fp root w r w' :
  create_backup fp root w = (r, w') ->
  is_dir w (backup_path_of fp root (timestamp w)) = false ->
  match r with
  | inr p =>
      p = backup_path_of fp root (timestamp w)
      /\ (exists data meta,
            fs w !! fp = Some (File data meta)
            /\ fs w' !! p = Some (File data meta))
      /\ fs w' !! fp = fs w !! fp
      /\ (forall q x, q <> p -> fs w !! q = Some x -> fs w' !! q = Some x)
  | inl _ =>
      (forall q x, q <> backup_path_of fp root (timestamp w) ->
                   fs w !! q = Some x -> fs w' !! q = Some x)
      /\ (forall q d x, q <> backup_path_of fp root (timestamp w) ->
                        fs w' !! q = Some (File d x) ->
                        fs w !! q = Some (File d x))
  end.
Proof.
  intros H Hd. pose proof (create_backup_result fp root w) as R.
  cbv zeta in R. specialize (R Hd). rewrite H in R. destruct r as [e|p].
  - destruct R as (Hq & Hf & _). auto.
  - destruct R as (-> & Hb & Hf & Hq & _). auto.
Qed.

(** The backup of [a.md] in the sample vault. *)
Lemma create_backup_spec_witness :
  exists w',
    create_backup a_md vault sample
    = (inr (vault ++ [lit "_backups"; lit "a_20240101_120000.md"]), w')
    /\ vault ++ [lit "_backups"; lit "a_20240101_120000.md"]
       = backup_path_of a_md vault (timestamp sample)
    /\ (exists data meta,
          fs sample !! a_md = Some (File data meta)
          /\ fs w' !! (vault ++ [lit "_backups"; lit "a_20240101_120000.md"])
             = Some (File data meta))
    /\ fs w' !! a_md = fs sample !! a_md.
Proof.
  assert (E : fst (create_backup a_md vault sample)
              = inr (vault ++ [lit "_backups"; lit "a_20240101_120000.md"]))
    by (vm_compute; reflexivity).
  apply run_pair in E. eexists. split; [exact E|].
  assert (Hd : is_dir sample (backup_path_of a_md vault (timestamp sample))
               = false) by (vm_compute; reflexivity).
  pose proof (create_backup_spec _ _ _ _ _ E Hd) as (Hp & Hb & Hf & _).
  auto.
Defined.

(** *** What [process_file] can touch *)

(** A copy that fails after two bytes leaves a backup of two bytes. *)
Example backup_can_be_partial :
  let w := with_faults [NoFault; NoFault; NoFault;
                        Fail 28 (lit "No space left on device") 2] sample in
  fst (create_backup a_md vault w)
  = inl (OSError 28 (lit "No space left on device"))
  /\ fs (snd (create_backup a_md vault w))
       !! backup_path_of a_md vault (timestamp w)
     = Some (File (lit "# ") 100%N).
Proof. vm_compute. repeat split. Qed.

(** Where an atomic write leaves the files: as they were, or with the
    temporary file left over, or with the target replaced. *)
Lemma write_file_atomic_outcomes fp content e w r w' :
  write_file_atomic fp content e w = (r, w') ->
  (fs w' = fs w /\ exists x, r = inl x)
  \/ (exists tmp part x, r = inl x /\ tmp <> fp /\ fs w !! tmp = None
       /\ fs w' = <[tmp := part]> (fs w))
  \/ (exists data, r = inr tt /\ fs w' = <[fp := File data (clock w)]> (fs w)).
Proof.
  unfold write_file_atomic. unfold bind at 1.
  destruct (mkstemp _ _ _ w) as [[x|tmp] w1] eqn:Hmk.
  { apply mkstemp_result in Hmk as [_ Hfs]. intros [= <- <-]. left. eauto. }
  apply mkstemp_result in Hmk as (Hck1 & Hfresh & (r0 & Htmp) & Hfs1 & _).
  assert (Hne : tmp <> fp) by (rewrite Htmp; apply temp_path_differs).
  unfold try_except, bind.
  destruct (write_text tmp content e w1) as [[x|[]] w2] eqn:Hwr.
  - apply write_text_result in Hwr as [Hck2 Hfs2]. cbn.
    assert (exists part, fs w2 = <[tmp := part]> (fs w)) as [part Hw2].
    { destruct Hfs2 as [->|[part ->]]; rewrite Hfs1;
        [eauto|rewrite insert_insert_eq; eauto]. }
    destruct (unlink tmp w2) as [[y|[]] w3] eqn:Hun; cbn;
      apply unlink_result in Hun.
    + destruct Hun as [Hfs3 _]. destruct (is_OSError y); cbn;
        intros [= <- <-]; right; left; exists tmp, part; rewrite Hfs3; eauto 10.
    + intros [= <- <-]. left. rewrite Hun, Hw2, delete_insert_id by assumption.
      eauto.
  - apply write_text_result in Hwr as [Hck2 (data & Henc & Hfs2 & _)].
    rewrite Hfs1, Hck1, insert_insert_eq in Hfs2.
    destruct (replace tmp fp w2) as [[x|[]] w3] eqn:Hrp;
      apply replace_result in Hrp as [Hck3 Hrp].
    + cbn. destruct (unlink tmp w3) as [[y|[]] w4] eqn:Hun; cbn;
        apply unlink_result in Hun.
      * destruct Hun as [Hfs4 _]. destruct (is_OSError y); cbn;
          intros [= <- <-]; right; left; eexists tmp, _;
          rewrite Hfs4, Hrp, Hfs2; eauto 10.
      * intros [= <- <-]. left.
        rewrite Hun, Hrp, Hfs2, delete_insert_id by assumption. eauto.
    + destruct Hrp as (data' & meta' & Hsrc & Hfs3 & _).
      rewrite Hfs2, lookup_insert_eq in Hsrc. injection Hsrc as <- <-.
      intros [= <- <-]. right. right. exists data. split; [reflexivity|].
      now rewrite Hfs3, Hfs2, delete_insert_id.
Qed.

(** An atomic write keeps whatever existed beside the target, and keeps the
    target too when it fails. *)
Lemma write_file_atomic_frame fp content e w r w' :
  write_file_atomic fp content e w = (r, w') ->
  (forall q x, q <> fp -> fs w !! q = Some x -> fs w' !! q = Some x)
  /\ (forall x, r = inl x -> fs w' !! fp = fs w !! fp).
Proof.
  intros H. apply write_file_atomic_outcomes in H
    as [[-> _]|[(tmp & part & x & -> & Hne & Hfree & ->)|(data & -> & ->)]].
  - auto.
  - split.
    + intros q y Hq Hy. rewrite lookup_insert_ne; [assumption|congruence].
    + intros _ _. now rewrite lookup_insert_ne.
  - split; [|discriminate].
    intros q y Hq Hy. now rewrite lookup_insert_ne by congruence.
Qed.

(** X10. [process_file] touches its target only when it reports it modified,
    and never changes or removes anything else that existed, except a backup of
    the same name taken in the same second. The backup path is supposed not to
    be a directory: the copy would then go into it. *)
Theorem process_file_frame fp root dry_run create_backups verbose w r w' :
  process_file fp root dry_run create_backups verbose w = (inr r, w') ->
  is_dir w (backup_path_of fp root (timestamp w)) = false ->
  (modified r = false -> fs w' !! fp = fs w !! fp)
  /\ (forall q x,
        q <> fp -> q <> backup_path_of fp root (timestamp w) ->
        fs w !! q = Some x -> fs w' !! q = Some x).
Proof.
  intros H Hd.
  enough (Hgen : forall res w0,
             process_file_try fp root dry_run create_backups verbose w
             = (res, w0) ->
             (fs w0 !! fp = fs w !! fp
              \/ exists r0, res = inr r0 /\ modified r0 = true)
             /\ (forall q x,
                   q <> fp -> q <> backup_path_of fp root (timestamp w) ->
                   fs w !! q = Some x -> fs w0 !! q = Some x)).
  { revert H. unfold process_file, try_except.
    destruct (process_file_try fp root dry_run create_backups verbose w)
      as [[e|r0] w0] eqn:E; cbn; intros [= <- <-];
      destruct (Hgen _ _ eq_refl) as [[Ht|(r1 & Hr & Hm)] Hq];
      (split; [|exact Hq]); auto.
    - discriminate.
    - injection Hr as <-. congruence. }
  clear H r w'. intros res w0. unfold process_file_try, process_content.
  unfold bind at 1.
  pose proof (quiet_decode_loop ENCODINGS fp w) as Q1.
  destruct (decode_loop ENCODINGS fp w) as [[e|[[c|] enc]] w1] eqn:D;
    destruct Q1 as (F1 & _ & T1); cbn in F1, T1;
    try (intros [= <- <-]; rewrite F1; auto; fail).
  apply decode_loop_result in D
    as (data & meta & s & _ & _ & Hfile & _).
  unfold bind at 1.
  destruct (convert_h1_to_h2 c) as [[new n]|] eqn:C; cbn;
    [|intros [= <- <-]; rewrite F1; auto].
  destruct (n =? 0); [intros [= <- <-]; rewrite F1; auto|].
  unfold bind at 1. pose proof (quiet_found verbose fp root n w1) as Q2.
  destruct (when verbose _ w1) as [[e|[]] w2]; destruct Q2 as (F2 & _ & T2);
    cbn in F2, T2; [intros [= <- <-]; rewrite F2, F1; auto|].
  destruct dry_run; [intros [= <- <-]; rewrite F2, F1; auto|].
  unfold bind at 1.
  assert (Hbk : forall rb w3,
            when create_backups
              (let* backup_path := create_backup fp root in
               when verbose (print (PBackupCreated (name backup_path)))) w2
            = (rb, w3) ->
            fs w3 !! fp = fs w !! fp
            /\ (forall q x, q <> backup_path_of fp root (timestamp w) ->
                            fs w !! q = Some x -> fs w3 !! q = Some x)).
  { intros rb w3. destruct create_backups; cbn;
      [|intros [= <- <-]; rewrite F2, F1; auto].
    unfold bind. pose proof (create_backup_result fp root w2) as R.
    cbv zeta in R. rewrite T2, T1 in R.
    assert (Hd2 : is_dir w2 (backup_path_of fp root (timestamp w)) = false)
      by (unfold is_dir in *; now rewrite F2, F1).
    specialize (R Hd2).
    destruct (create_backup fp root w2) as [[e|bp] w2'].
    - intros [= <- <-]. destruct R as (A & _). rewrite F2, F1 in A.
      split; [|auto]. rewrite Hfile. apply A; [|exact Hfile].
      apply not_eq_sym, backup_path_differs.
    - destruct R as (-> & _ & Hf & Hq & _). rewrite F2, F1 in Hf, Hq.
      pose proof (quiet_when verbose _
                    (quiet_print (PBackupCreated
                       (name (backup_path_of fp root (timestamp w))))) w2')
        as (F3 & _).
      destruct (when verbose _ w2') as [rp w2'']. cbn in F3.
      intros [= <- <-]. rewrite F3. auto. }
  destruct (when create_backups _ w2) as [[e|[]] w3] eqn:B;
    destruct (Hbk _ _ eq_refl) as [Hf3 Hq3];
    [intros [= <- <-]; auto|].
  unfold bind at 1.
  destruct (write_file_atomic fp new enc w3) as [[e|[]] w4] eqn:W;
    apply write_file_atomic_frame in W as [Wq Wf]; intros [= <- <-].
  - split; [left; rewrite (Wf _ eq_refl); exact Hf3|]. auto.
  - split; [right; eauto|]. auto.
Qed.

(** Rewriting [a.md] in the sample vault leaves [b.md] as it is. *)
Lemma process_file_frame_witness :
  exists r w',
    process_file a_md vault false true false sample = (inr r, w')
    /\ fs w' !! b_md = Some (File [255; 35; 32; 65]%N 7%N).
Proof.
  assert (E : fst (process_file a_md vault false true false sample)
              = inr {| file_path := a_md; replacements := 2;
                       modified := true; error := None |})
    by (vm_compute; reflexivity).
  apply run_pair in E. eexists _, _. split; [exact E|].
  assert (Hd : is_dir sample (backup_path_of a_md vault (timestamp sample))
               = false) by (vm_compute; reflexivity).
  destruct (process_file_frame _ _ _ _ _ _ _ _ E Hd) as [_ H].
  apply H.
  - intros Hq. vm_compute in Hq. discriminate Hq.
  - intros Hq. vm_compute in Hq. discriminate Hq.
  - vm_compute. reflexivity.
Defined.

(** X11.  When [process_file], with backups on, reports a file modified, the
    backup path holds the bytes and the metadata the file had before.  The
    backup path is supposed not to be a directory: the copy would then go
    into it. *)
Theorem backup_before_write fp root verbose w r w' :
  is_dir w (backup_path_of fp root (timestamp w)) = false ->
  process_file fp root false true verbose w = (inr r, w') ->
  modified r = true ->
  exists data meta,
    fs w !! fp = Some (File data meta)
    /\ fs w' !! backup_path_of fp root (timestamp w) = Some (File data meta).
Proof.
  intros Hdir. unfold process_file, try_except.
  destruct (process_file_try fp root false true verbose w)
    as [[e|r0] w0] eqn:E; cbn; [intros [= <- <-]; discriminate|].
  intros [= <- <-]. revert E. unfold process_file_try, process_content.
  unfold bind at 1.
  pose proof (quiet_decode_loop ENCODINGS fp w) as Q1.
  destruct (decode_loop ENCODINGS fp w) as [[e|[[c|] enc]] w1] eqn:D;
    destruct Q1 as (F1 & _ & T1); cbn in F1, T1;
    [discriminate| |intros [= <- <-]; discriminate].
  apply decode_loop_result in D as (data & meta & s & _ & _ & Hfile & _).
  unfold bind at 1.
  destruct (convert_h1_to_h2 c) as [[new n]|] eqn:C; cbn; [|discriminate].
  destruct (n =? 0); [intros [= <- <-]; discriminate|].
  unfold bind at 1. pose proof (quiet_found verbose fp root n w1) as Q2.
  destruct (when verbose _ w1) as [[e|[]] w2]; destruct Q2 as (F2 & _ & T2);
    cbn in F2, T2; [discriminate|].
  unfold bind at 1. cbn [when]. unfold bind at 1.
  pose proof (create_backup_result fp root w2) as R. cbv zeta in R.
  rewrite T2, T1 in R.
  assert (Hd2 : is_dir w2 (backup_path_of fp root (timestamp w)) = false)
    by (unfold is_dir in *; now rewrite F2, F1).
  specialize (R Hd2).
  destruct (create_backup fp root w2) as [[e|bp] w3]; [discriminate|].
  destruct R as (-> & (data' & meta' & Hsrc & Hbp) & _).
  rewrite F2, F1, Hfile in Hsrc. injection Hsrc as <- <-.
  pose proof (quiet_when verbose _
                (quiet_print (PBackupCreated
                   (name (backup_path_of fp root (timestamp w))))) w3)
    as (F3 & _).
  destruct (when verbose _ w3) as [[e|[]] w4]; cbn in F3; [discriminate|].
  unfold bind at 1.
  destruct (write_file_atomic fp new enc w4) as [[e|[]] w5] eqn:W;
    [discriminate|].
  apply write_file_atomic_frame in W as [Wq _].
  intros [= <- <-] _. exists data, meta. split; [assumption|].
  apply Wq; [apply backup_path_differs|]. now rewrite F3.
Qed.

(** Rewriting [a.md] in the sample vault leaves its old bytes in the
    backup. *)
Lemma backup_before_write_witness :
  exists data meta,
    fs sample !! a_md = Some (File data meta)
    /\ fs (snd (process_file a_md vault false true false sample))
         !! backup_path_of a_md vault (timestamp sample)
       = Some (File data meta).
Proof.
  assert (E : fst (process_file a_md vault false true false sample)
              = inr {| file_path := a_md; replacements := 2;
                       modified := true; error := None |})
    by (vm_compute; reflexivity).
  apply run_pair in E.
  assert (Hd : is_dir sample (backup_path_of a_md vault (timestamp sample))
               = false) by (vm_compute; reflexivity).
  exact (backup_before_write _ _ _ _ _ _ Hd E eq_refl).
Defined.

(** *** Line endings *)

Lemma universal_newlines_no_cr_aux n : forall s,
  length s <= n -> Forall (fun c => c <> CR) (universal_newlines s).
Proof.
  induction n as [|n IH]; intros s Hn.
  - destruct s; [constructor|simpl in Hn; lia].
  - destruct s as [|c s]; [constructor|]. simpl in Hn. cbn [universal_newlines].
    destruct (N.eqb_spec c CR) as [->|Hc].
    + destruct s as [|c' s]; [repeat constructor; discriminate|].
      simpl in Hn.
      destruct (N.eqb_spec c' NL); (constructor; [discriminate|]);
        apply IH; simpl; lia.
    + constructor; [assumption|]. apply IH. lia.
Qed.

(** What is read never holds a carriage return. *)
Lemma universal_newlines_no_cr s :
  Forall (fun c => c <> CR) (universal_newlines s).
Proof. now apply (universal_newlines_no_cr_aux (length s)). Qed.

Lemma split_Forall (P : N -> Prop) sep s :
  Forall P s -> Forall (Forall P) (split sep s).
Proof.
  induction 1 as [|c s Hc _ IH]; simpl; [repeat constructor|].
  destruct (c =? sep)%N; [constructor; [constructor|assumption]|].
  destruct (split sep s) as [|l ls]; [repeat constructor; assumption|].
  inversion IH; subst. constructor; [constructor|]; assumption.
Qed.

Lemma join_Forall (P : N -> Prop) sep ls :
  P sep -> Forall (Forall P) ls -> Forall P (join sep ls).
Proof.
  intros Hsep. induction 1 as [|l ls Hl _ IH]; [constructor|].
  destruct ls as [|l' ls]; [assumption|].
  rewrite join_cons. apply Forall_app. split; [assumption|].
  constructor; assumption.
Qed.

Lemma loop_no_cr lines : forall i st st',
  Forall one_line lines ->
  Forall (Forall (fun c => c <> CR)) lines ->
  Forall (Forall (fun c => c <> CR)) (result_lines st) ->
  loop i lines st = Some st' ->
  Forall (Forall (fun c => c <> CR)) (result_lines st').
Proof.
  induction lines as [|x lines IH]; intros i st st' Hone Hall Hr; simpl.
  - now intros [= <-].
  - destruct (body i x st) as [st1|] eqn:E; [|discriminate].
    inversion Hone as [|? ? Hx1 Hone']; subst.
    inversion Hall as [|? ? Hx Hall']; subst.
    apply IH; try assumption.
    destruct (body_emit _ _ _ _ Hx1 E) as (o & -> & Ho).
    apply Forall_app. split; [assumption|]. constructor; [|constructor].
    destruct Ho as [[-> _]|(k & rest & [_ ->] & -> & _)]; [assumption|].
    apply Forall_app in Hx as [H1 [_ H2]%Forall_app].
    apply Forall_app. split; [assumption|].
    apply Forall_app. split; [|assumption].
    repeat constructor; discriminate.
Qed.

(** The transform brings in no carriage return. *)
Lemma convert_no_cr content out n :
  Forall (fun c => c <> CR) content ->
  convert_h1_to_h2 content = Some (out, n) ->
  Forall (fun c => c <> CR) out.
Proof.
  intros Hc. unfold convert_h1_to_h2.
  destruct (loop 0 (split NL content) init) as [st|] eqn:L; [|discriminate].
  intros [= <- <-]. apply join_Forall; [discriminate|].
  apply (loop_no_cr (split NL content) 0 init st);
    [apply split_lines|now apply split_Forall|constructor|exact L].
Qed.

Lemma utf8_encode_char_no_cr c b :
  c <> CR -> utf8_encode_char c = Some b -> Forall (fun x => x <> CR) b.
Proof.
  unfold utf8_encode_char, CR. intros Hc.
  repeat match goal with
  | |- context [if ?t then _ else _] => destruct t
  end; intros [= <-]; repeat constructor; try assumption;
    match goal with
    | |- (_ + ?x)%N <> _ => generalize x; intros; lia
    end.
Qed.

Lemma utf8_encode_no_cr s : forall b,
  Forall (fun c => c <> CR) s -> utf8_encode s = Some b ->
  Forall (fun x => x <> CR) b.
Proof.
  induction s as [|c s IH]; intros b Hs; simpl.
  - intros [= <-]. constructor.
  - inversion Hs; subst.
    destruct (utf8_encode_char c) as [b1|] eqn:E1; [|discriminate].
    destruct (utf8_encode s) as [b2|]; [|discriminate].
    intros [= <-]. apply Forall_app. split; [|now apply IH].
    eapply utf8_encode_char_no_cr; eassumption.
Qed.

(** No encoding of the program brings in a carriage return. *)
Lemma encode_no_cr e s b :
  Forall (fun c => c <> CR) s -> encode e s = Some b ->
  Forall (fun x => x <> CR) b.
Proof.
  intros Hs. destruct e; cbn [encode].
  - now apply utf8_encode_no_cr.
  - destruct (utf8_encode s) as [b'|] eqn:E; [|discriminate].
    intros [= <-]. change (Forall (fun x => x <> CR) (BOM ++ b')).
    apply Forall_app. split.
    + repeat constructor; discriminate.
    + eapply utf8_encode_no_cr; eassumption.
  - destruct (forallb _ s); [|discriminate]. now intros [= <-].
Qed.

(** X12.  A file that [process_file] reports modified holds no carriage return
    afterwards: the read turns every line ending into a line feed and the
    write keeps line feeds as they are, so a file with CR LF line endings is
    rewritten with LF line endings. *)
Theorem written_without_carriage_return
    fp root dry_run create_backups verbose w r w' :
  process_file fp root dry_run create_backups verbose w = (inr r, w') ->
  modified r = true ->
  exists data meta,
    fs w' !! fp = Some (File data meta) /\ Forall (fun b => b <> CR) data.
Proof.
  unfold process_file, try_except.
  destruct (process_file_try fp root dry_run create_backups verbose w)
    as [[e|r0] w0] eqn:E; cbn; [intros [= <- <-]; discriminate|].
  intros [= <- <-]. revert E. unfold process_file_try, process_content.
  unfold bind at 1.
  destruct (decode_loop ENCODINGS fp w) as [[e|[[c|] enc]] w1] eqn:D;
    [discriminate| |intros [= <- <-]; discriminate].
  apply decode_loop_result in D
    as (data & meta & s & _ & _ & _ & _ & _ & _ & ->).
  unfold bind at 1.
  destruct (convert_h1_to_h2 _) as [[new n]|] eqn:C; cbn; [|discriminate].
  apply convert_no_cr in C; [|apply universal_newlines_no_cr].
  destruct (n =? 0); [intros [= <- <-]; discriminate|].
  unfold bind at 1. destruct (when verbose _ w1) as [[e|[]] w2]; [discriminate|].
  destruct dry_run; [intros [= <- <-]; discriminate|].
  unfold bind at 1.
  destruct (when create_backups _ w2) as [[e|[]] w3]; [discriminate|].
  unfold bind at 1.
  destruct (write_file_atomic fp new enc w3) as [[e|[]] w4] eqn:W;
    [discriminate|].
  apply write_file_atomic_success in W as (bytes & Henc & Hfs).
  intros [= <- <-] _. exists bytes, (clock w3). split; [assumption|].
  eapply encode_no_cr; eassumption.
Qed.

(** The note of [crlf_world], with CR LF line endings, is rewritten
    without a carriage return. *)
Lemma written_without_carriage_return_witness :
  exists data meta,
    fs (snd (process_file note [] false false false crlf_world)) !! note
    = Some (File data meta)
    /\ Forall (fun b => b <> CR) data.
Proof.
  assert (E : fst (process_file note [] false false false crlf_world)
              = inr {| file_path := note; replacements := 1;
                       modified := true; error := None |})
    by (vm_compute; reflexivity).
  apply run_pair in E.
  exact (written_without_carriage_return _ _ _ _ _ _ _ _ E eq_refl).
Defined.

(** *** Whole runs *)

Lemma reader_process_file_dry fp root b v :
  reader (process_file fp root true b v).
Proof.
  unfold process_file. apply reader_try; [apply reader_dry_run_try|].
  intros e. apply reader_ret.
Qed.

Lemma reader_process_all_dry files root b v :
  reader (process_all files root true b v).
Proof.
  induction files as [|fp files IH]; simpl; [apply reader_ret|].
  apply reader_bind; [apply reader_process_file_dry|]. intros r.
  apply reader_bind; [exact IH|]. intros rs. apply reader_ret.
Qed.

Lemma output_only_reads_only w w' : output_only w w' -> reads_only w w'.
Proof. intros (Hf & _ & _ & _ & _ & Hl). now apply reads_only_same. Qed.

(** X13.  Without [--write], a whole run of [main] creates, changes and removes
    no file and no directory, whatever the vault holds and whatever fails
    on the way: the only system calls made are opens for reading. *)
Theorem main_dry_run_changes_nothing args w :
  write args = false ->
  exists code w', main args w = (inr code, w') /\ reads_only w w'.
Proof.
  intros Hw. unfold main, bind at 1, get.
  destruct (exists_ w (vault_path args)); cbn [negb];
    [destruct (is_dir w (vault_path args)); cbn [negb]|].
  - destruct (run_conversion_result (vault_path args) (negb (write args))
                (true && negb (no_backup args)) (verbose args)
                (parse_excludes (exclude args)) w)
      as (w0 & files & w1 & results & w2 & w3 & summary
          & H0 & _ & H1 & Ep & _ & _ & H3 & Er & _).
    unfold bind, ret. rewrite Er. eexists _, _. split; [reflexivity|].
    rewrite Hw in Ep. cbn [negb] in Ep.
    pose proof (reader_process_all_dry files (vault_path args)
                  (true && negb (no_backup args)) (verbose args) w1) as Hr.
    rewrite Ep in Hr. cbn [snd] in Hr.
    apply output_only_reads_only in H0, H1, H3.
    eapply reads_only_trans; [exact H0|].
    eapply reads_only_trans; [exact H1|].
    eapply reads_only_trans; [exact Hr|exact H3].
  - cbn. eexists _, _. split; [reflexivity|]. now apply reads_only_same.
  - cbn. eexists _, _. split; [reflexivity|]. now apply reads_only_same.
Qed.

Lemma main_dry_run_changes_nothing_witness :
  exists code w',
    main (sample_args false) sample = (inr code, w') /\ reads_only sample w'.
Proof. exact (main_dry_run_changes_nothing (sample_args false) sample eq_refl). Defined.

(** *** The summary *)

Lemma process_file_try_shape fp root d b v w r w' :
  process_file_try fp root d b v w = (inr r, w') -> well_shaped d r.
Proof.
  unfold process_file_try, process_content. unfold bind at 1.
  destruct (decode_loop ENCODINGS fp w) as [[e|[[c|] enc]] w1] eqn:D;
    [discriminate| |].
  - unfold bind at 1.
    destruct (convert_h1_to_h2 c) as [[new n]|] eqn:C; cbn; [|discriminate].
    destruct (n =? 0) eqn:N;
      [intros [= <- <-]; repeat split; auto|].
    apply Nat.eqb_neq in N.
    assert (Hpos : (0 <? n) = true) by (apply Nat.ltb_lt; lia).
    unfold bind at 1. destruct (when v _ w1) as [[e|[]] w2]; [discriminate|].
    destruct d; [intros [= <- <-]; repeat split; auto; discriminate|].
    unfold bind at 1. destruct (when b _ w2) as [[e|[]] w3]; [discriminate|].
    unfold bind at 1.
    destruct (write_file_atomic fp new enc w3) as [[e|[]] w4]; [discriminate|].
    intros [= <- <-]; repeat split; auto; discriminate.
  - intros [= <- <-]. repeat split; auto.
Qed.

Lemma process_file_shape fp root d b v w r w' :
  process_file fp root d b v w = (inr r, w') -> well_shaped d r.
Proof.
  unfold process_file, try_except.
  destruct (process_file_try fp root d b v w) as [[e|r0] w0] eqn:E; cbn.
  - intros [= <- <-]. repeat split; auto.
  - intros [= <- <-]. eapply process_file_try_shape; eassumption.
Qed.

Lemma process_all_shape files root d b v : forall w results w',
  process_all files root d b v w = (inr results, w') ->
  Forall (well_shaped d) results.
Proof.
  induction files as [|fp files IH]; intros w results w'; simpl.
  - intros [= <- <-]. constructor.
  - unfold bind at 1.
    destruct (process_file fp root d b v w) as [[e|r] w1] eqn:E; [discriminate|].
    unfold bind at 1.
    destruct (process_all files root d b v w1) as [[e|rs] w2] eqn:Ea;
      [discriminate|].
    intros [= <- <-]. constructor; [|eapply IH; eassumption].
    eapply process_file_shape; eassumption.
Qed.

(** The files found depend on the files and directories only. *)
Lemma find_markdown_files_fs root extra w w0 :
  fs w0 = fs w ->
  fst (find_markdown_files root extra w0)
  = fst (find_markdown_files root extra w).
Proof.
  intros H. unfold find_markdown_files, bind, get, ret, walk_reaches, is_dir.
  cbv beta iota. unfold fst. now rewrite H.
Qed.

(** [run_conversion] returns a summary made of the results of the files it
    listed. *)
Lemma run_conversion_summary root d b v extra w :
  exists w0 files w1 results w2 w3,
    output_only w w0
    /\ find_markdown_files root extra w0 = (inr files, w0)
    /\ output_only w0 w1
    /\ process_all files root d b v w1 = (inr results, w2)
    /\ run_conversion root d b v extra w
       = (inr {| files_scanned := length files;
                 files_changed :=
                   length (List.filter (fun r => 0 <? replacements r) results);
                 total_replacements := list_sum (map replacements results);
                 errors := error_lines results |}, w3).
Proof.
  enough (post (run_conversion root d b v extra) w
            (fun r w3 => exists w0 files w1 results w2,
               output_only w w0
               /\ find_markdown_files root extra w0 = (inr files, w0)
               /\ output_only w0 w1
               /\ process_all files root d b v w1 = (inr results, w2)
               /\ r = inr {| files_scanned := length files;
                             files_changed :=
                               length (List.filter
                                         (fun r => 0 <? replacements r) results);
                             total_replacements :=
                               list_sum (map replacements results);
                             errors := error_lines results |})) as H.
  { destruct H as (w0 & files & w1 & results & w2 & H).
    exists w0, files, w1, results, w2, (snd (run_conversion root d b v extra w)).
    intuition. now apply injective_projections. }
  unfold run_conversion.
  apply post_printer; [printers|]. intros wa Ha.
  apply post_printer; [printers|]. intros wb Hb.
  apply post_printer; [printers|]. intros wc Hc.
  apply post_printer; [printers|]. intros wd Hd.
  apply post_printer; [printers|]. intros w0 H0.
  assert (Hw0 : output_only w w0).
  { repeat (eapply output_only_trans; [eassumption|]). apply output_only_refl. }
  destruct (find_markdown_files_pure root extra w0) as [files Ef].
  eapply post_bind; [exact Ef|].
  apply post_printer; [printers|]. intros we He.
  apply post_printer; [printers|]. intros w1 H1.
  assert (Hw1 : output_only w0 w1).
  { repeat (eapply output_only_trans; [eassumption|]). apply output_only_refl. }
  destruct (process_all_result files root d b v w1)
    as (results & w2 & Ep & Hfiles & Hall).
  eapply post_bind; [exact Ep|].
  apply post_printer; [printers|]. intros wf Hf.
  apply post_printer.
  { destruct (d && _); [printers|]. destruct (negb d && _); [printers|].
    destruct (_ =? 0); printers. }
  intros wg Hg.
  apply post_printer; [printers|]. intros wh Hh.
  apply post_printer; [printers|]. intros w3 H3.
  apply post_ret.
  exists w0, files, w1, results, w2. auto.
Qed.

Lemma counts_of_results d results :
  Forall (well_shaped d) results -> Forall reported results ->
  let changed := length (List.filter (fun r => 0 <? replacements r) results) in
  changed + length (error_lines results) <= length results
  /\ changed <= list_sum (map replacements results)
  /\ (changed = 0 <-> list_sum (map replacements results) = 0)
  /\ (d = false -> changed = length (List.filter modified results))
  /\ (d = true -> Forall (fun r => modified r = false) results).
Proof.
  intros Hs Hr. cbv zeta. induction Hs as [|r rs (He & Hw & Hd) _ IH].
  - cbn. repeat split; auto.
  - inversion Hr as [|? ? Hr1 Hr2]; subst.
    destruct (IH Hr2) as (I1 & I2 & I3 & I4 & I5). clear IH.
    assert (El : length (error_lines (r :: rs))
                 = (if truthy (error r) then 1 else 0)
                   + length (error_lines rs)).
    { unfold error_lines. cbn [flat_map]. rewrite length_app.
      destruct (error r) as [[|c e]|]; reflexivity. }
    rewrite El. cbn [List.filter map list_sum fold_right length].
    change (fold_right Nat.add 0 (map replacements rs))
      with (list_sum (map replacements rs)).
    assert (Ht : truthy (error r) = true -> replacements r = 0).
    { destruct He as [->|[H _]]; [discriminate|auto]. }
    destruct (0 <? replacements r) eqn:P.
    + apply Nat.ltb_lt in P.
      destruct (truthy (error r)); [specialize (Ht eq_refl); lia|].
      cbn [length]. repeat split; try lia.
      * intros ->. rewrite <- (Hw eq_refl). cbn [length]. f_equal. auto.
      * intros ->. constructor; auto.
    + apply Nat.ltb_ge in P.
      destruct (truthy (error r)); repeat split; try lia.
      * intros ->. rewrite <- (Hw eq_refl). auto.
      * intros ->. constructor; auto.
      * intros ->. rewrite <- (Hw eq_refl). auto.
      * intros ->. constructor; auto.
Qed.

(** X14. The counts of the summary agree with each other and with what was
    done: a file is counted as changed or as an error, never both; in write
    mode the files counted as changed are exactly the files modified, so the
    number printed as modified is right; in a dry run no file is modified. *)
Theorem summary_counts root dry_run create_backups verbose extra w :
  exists files w1 results w2 s w3,
    fst (find_markdown_files root extra w) = inr files
    /\ output_only w w1
    /\ process_all files root dry_run create_backups verbose w1
       = (inr results, w2)
    /\ run_conversion root dry_run create_backups verbose extra w = (inr s, w3)
    /\ files_scanned s = length files
    /\ length results = length files
    /\ files_changed s + length (errors s) <= files_scanned s
    /\ files_changed s <= total_replacements s
    /\ (files_changed s = 0 <-> total_replacements s = 0)
    /\ (dry_run = false ->
        files_changed s = length (List.filter modified results))
    /\ (dry_run = true -> Forall (fun r => modified r = false) results).
Proof.
  destruct (run_conversion_summary root dry_run create_backups verbose extra w)
    as (w0 & files & w1 & results & w2 & w3 & H0 & Ef & H1 & Ep & Er).
  destruct (process_all_result files root dry_run create_backups verbose w1)
    as (results' & w2' & Ep' & Hfiles & Hrep).
  rewrite Ep in Ep'. injection Ep' as <- <-.
  pose proof (process_all_shape _ _ _ _ _ _ _ _ Ep) as Hshape.
  assert (Hlen : length results = length files)
    by (rewrite <- Hfiles; now rewrite length_map).
  destruct (counts_of_results dry_run results Hshape Hrep)
    as (C1 & C2 & C3 & C4 & C5).
  exists files, w1, results, w2. eexists _, w3.
  split.
  { rewrite <- (find_markdown_files_fs root extra w w0) by apply H0.
    now rewrite Ef. }
  split; [eapply output_only_trans; eassumption|].
  split; [exact Ep|]. split; [exact Er|]. cbn.
  rewrite <- Hlen. auto 10.
Qed.

(** *** The names given with [--exclude] *)

Lemma lstrip_head s :
  lstrip s = [] \/ exists c r, lstrip s = c :: r /\ isspace c = false.
Proof.
  induction s as [|c s IH]; simpl; [now left|].
  destruct (isspace c) eqn:E; [exact IH|]. right. eauto.
Qed.

Lemma lstrip_fixed c r : isspace c = false -> lstrip (c :: r) = c :: r.
Proof. intros H. simpl. now rewrite H. Qed.

Lemma strip_strip s : strip (strip s) = strip s.
Proof.
  unfold strip at 2 3.
  destruct (lstrip_head (rstrip s)) as [E|(c & r & E & Hc)]; rewrite E;
    [reflexivity|].
  destruct (lstrip_decompose (rstrip s)) as (ws & _ & Hd). rewrite E in Hd.
  unfold rstrip in Hd.
  assert (Hr : lstrip (rev s) = rev (c :: r) ++ rev ws).
  { rewrite <- rev_app_distr, <- Hd. now rewrite rev_involutive. }
  assert (Hx : exists x y, rev (c :: r) = x :: y).
  { destruct (rev (c :: r)) as [|x y] eqn:Ex; [|eauto].
    apply (f_equal (@length N)) in Ex. rewrite length_rev in Ex.
    discriminate. }
  destruct Hx as (x & y & Hx).
  destruct (lstrip_head (rev s)) as [E'|(c' & r' & E' & Hc')];
    rewrite E', Hx in Hr; [discriminate|].
  injection Hr as -> _.
  unfold strip, rstrip. rewrite Hx, (lstrip_fixed _ _ Hc'), <- Hx.
  rewrite rev_involutive. now apply lstrip_fixed.
Qed.

Lemma lstrip_no_sep sep s :
  Forall (fun c => c <> sep) s -> Forall (fun c => c <> sep) (lstrip s).
Proof.
  induction 1 as [|c s Hc Hs IH]; simpl; [constructor|].
  destruct (isspace c); [exact IH|now constructor].
Qed.

Lemma strip_no_sep sep s :
  Forall (fun c => c <> sep) s -> Forall (fun c => c <> sep) (strip s).
Proof.
  intros H. unfold strip, rstrip. apply lstrip_no_sep, List.Forall_rev,
    lstrip_no_sep, List.Forall_rev, H.
Qed.

(** X15.  [parse_excludes] gives the pieces between the commas, stripped of the
    white space around them, without the empty ones and without
    repetition: no name it gives is empty, holds a comma, or starts or ends
    with white space. *)
Theorem parse_excludes_spec exclude_str :
  NoDup (parse_excludes exclude_str)
  /\ (forall e, e ∈ parse_excludes exclude_str <->
        e <> [] /\ exists piece,
                     piece ∈ split COMMA exclude_str /\ e = strip piece)
  /\ Forall (fun e => e <> [] /\ strip e = e
                      /\ Forall (fun c => c <> COMMA) e)
       (parse_excludes exclude_str).
Proof.
  assert (Hmem : forall e, e ∈ parse_excludes exclude_str <->
            e <> [] /\ exists piece,
                         piece ∈ split COMMA exclude_str /\ e = strip piece).
  { intros e. unfold parse_excludes. destruct exclude_str as [|c s].
    - split; [intros H; inversion H|]. intros [Hne (piece & Hp & ->)].
      cbn in Hp. apply list_elem_of_singleton in Hp as ->. now destruct Hne.
    - rewrite elem_of_remove_dups, list_elem_of_In, filter_In, in_map_iff.
      rewrite negb_true_iff, bool_decide_eq_false. split.
      + intros [(piece & <- & Hp) Hne]. split; [exact Hne|].
        exists piece. now rewrite list_elem_of_In.
      + intros [Hne (piece & Hp & ->)]. split; [|exact Hne].
        exists piece. now rewrite <- list_elem_of_In. }
  split; [|split; [exact Hmem|]].
  - unfold parse_excludes. destruct exclude_str; [constructor|].
    apply NoDup_remove_dups.
  - apply List.Forall_forall. intros e He.
    apply list_elem_of_In, Hmem in He as [Hne (piece & Hp & ->)].
    split; [exact Hne|]. split; [apply strip_strip|].
    apply strip_no_sep.
    pose proof (split_lines COMMA exclude_str) as Hall.
    rewrite List.Forall_forall in Hall. apply Hall.
    now apply list_elem_of_In.
Qed.

(** *** The files found *)

Section Order.

Context {A : Type} (cmp : A -> A -> comparison).
Hypothesis cmp_eq : forall x y, cmp x y = Eq <-> x = y.
Hypothesis cmp_antisym : forall x y, cmp y x = CompOpp (cmp x y).
Hypothesis cmp_trans :
  forall x y z, cmp x y = Lt -> cmp y z = Lt -> cmp x z = Lt.

Lemma lex_eq a : forall b, lex cmp a b = Eq <-> a = b.
Proof.
  induction a as [|x a IH]; intros [|y b]; simpl;
    try (split; [discriminate|congruence]); [tauto|].
  destruct (cmp x y) eqn:E.
  - apply cmp_eq in E as ->. rewrite IH. split; congruence.
  - split; [discriminate|]. intros [= -> _].
    rewrite (proj2 (cmp_eq y y) eq_refl) in E. discriminate.
  - split; [discriminate|]. intros [= -> _].
    rewrite (proj2 (cmp_eq y y) eq_refl) in E. discriminate.
Qed.

Lemma lex_antisym a : forall b, lex cmp b a = CompOpp (lex cmp a b).
Proof.
  induction a as [|x a IH]; intros [|y b]; simpl; try reflexivity.
  rewrite (cmp_antisym x y). destruct (cmp x y); simpl; auto.
Qed.

Lemma lex_trans a : forall b c,
  lex cmp a b = Lt -> lex cmp b c = Lt -> lex cmp a c = Lt.
Proof.
  induction a as [|x a IH]; intros [|y b] [|z c]; simpl;
    try discriminate; auto.
  destruct (cmp x y) eqn:E1; [|destruct (cmp y z) eqn:E2|discriminate];
    try discriminate.
  - apply cmp_eq in E1 as ->. destruct (cmp y z); eauto.
  - intros _ H. apply cmp_eq in E2 as <-. now rewrite E1.
  - intros _ _. now rewrite (cmp_trans _ _ _ E1 E2).
Qed.

Lemma insert_by_perm x l : insert_by cmp x l ≡ₚ x :: l.
Proof.
  induction l as [|y l IH]; simpl; [reflexivity|].
  destruct (cmp x y); try reflexivity.
  rewrite IH. apply perm_swap.
Qed.

Lemma sorted_perm l : sorted cmp l ≡ₚ l.
Proof.
  induction l as [|x l IH]; simpl; [reflexivity|].
  rewrite insert_by_perm. now constructor.
Qed.

Lemma not_gt_trans x y z :
  cmp x y <> Gt -> cmp y z <> Gt -> cmp x z <> Gt.
Proof.
  destruct (cmp x y) eqn:E1; [|destruct (cmp y z) eqn:E2|congruence];
    intros _ H; try congruence.
  - now apply cmp_eq in E1 as ->.
  - apply cmp_eq in E2 as <-. congruence.
  - rewrite (cmp_trans _ _ _ E1 E2). discriminate.
Qed.

Lemma insert_by_sorted x l :
  StronglySorted (fun a b => cmp a b <> Gt) l ->
  StronglySorted (fun a b => cmp a b <> Gt) (insert_by cmp x l).
Proof.
  induction 1 as [|y l Hl IH Hy]; simpl; [repeat constructor|].
  destruct (cmp x y) eqn:E.
  - constructor; [now constructor|]. constructor; [congruence|].
    eapply Forall_impl; [exact Hy|]. intros z Hz.
    apply (not_gt_trans x y z); congruence.
  - constructor; [now constructor|]. constructor; [congruence|].
    eapply Forall_impl; [exact Hy|]. intros z Hz.
    apply (not_gt_trans x y z); congruence.
  - constructor; [exact IH|].
    rewrite insert_by_perm.
    constructor; [|exact Hy]. rewrite cmp_antisym, E. discriminate.
Qed.

Lemma sorted_sorted l :
  StronglySorted (fun a b => cmp a b <> Gt) (sorted cmp l).
Proof.
  induction l as [|x l IH]; simpl; [constructor|].
  now apply insert_by_sorted.
Qed.

Lemma sorted_strictly l :
  NoDup l -> StronglySorted (fun a b => cmp a b = Lt) (sorted cmp l).
Proof.
  intros Hnd. rewrite <- (sorted_perm l) in Hnd.
  pose proof (sorted_sorted l) as Hs.
  induction Hs as [|x k Hk IH Hx]; [constructor|].
  apply NoDup_cons in Hnd as [Hin Hnd]. constructor; [auto|].
  rewrite List.Forall_forall in Hx. apply List.Forall_forall.
  intros y Hy. specialize (Hx y Hy).
  destruct (cmp x y) eqn:E; [|reflexivity|congruence].
  apply cmp_eq in E as ->. now apply list_elem_of_In in Hy.
Qed.

End Order.

Lemma str_cmp_eq a b : str_cmp a b = Eq <-> a = b.
Proof. apply lex_eq. apply N.compare_eq_iff. Qed.

Lemma str_cmp_antisym a b : str_cmp b a = CompOpp (str_cmp a b).
Proof. apply lex_antisym. intros x y. apply N.compare_antisym. Qed.

Lemma str_cmp_trans a b c :
  str_cmp a b = Lt -> str_cmp b c = Lt -> str_cmp a c = Lt.
Proof.
  apply lex_trans.
  - apply N.compare_eq_iff.
  - intros x y z. rewrite !N.compare_lt_iff. apply N.lt_trans.
Qed.

Lemma name_app root rel : rel <> [] -> name (root ++ rel) = List.last rel [].
Proof.
  intros Hne. destruct (exists_last Hne) as (l & a & ->). unfold name.
  now rewrite app_assoc, !last_last.
Qed.

Lemma last_In (rel : path) : rel <> [] -> In (List.last rel []) rel.
Proof.
  intros Hne. destruct (exists_last Hne) as (l & a & ->).
  rewrite last_last. apply in_or_app. right. now left.
Qed.

Lemma existsb_false_Forall {A} (f : A -> bool) l :
  existsb f l = false <-> Forall (fun x => f x = false) l.
Proof.
  induction l as [|x l IH]; simpl; [split; constructor|].
  rewrite orb_false_iff, IH, Forall_cons. tauto.
Qed.

(** The test that [find_markdown_files] makes on a path of the file
    system comes to this: the path is a file below the vault, every
    directory on the way exists, the name ends with [.md], and no part of
    the path below the vault starts with a dot or is an excluded name.  The
    pruning of the walk and the test on the first character of the file
    name exclude nothing that [should_exclude] would keep. *)
Lemma found_iff root extra w p :
  match fs w !! p, relative_to p root with
  | Some (File _ _), Some (x :: rel') =>
      walk_reaches w root extra (x :: rel')
      && endswith (name p) (lit ".md")
      && negb (startswith (name p) (lit "."))
      && negb (should_exclude p root extra)
  | _, _ => false
  end = true
  <-> exists rel,
        p = root ++ rel /\ rel <> []
        /\ (exists data meta, fs w !! p = Some (File data meta))
        /\ (forall k, k < length rel -> is_dir w (root ++ take k rel) = true)
        /\ endswith (name p) (lit ".md") = true
        /\ Forall (fun part => excluded_part extra part = false) rel.
Proof.
  split.
  - destruct (fs w !! p) as [[data meta|]|] eqn:Hf; try discriminate.
    destruct (relative_to p root) as [[|x rel']|] eqn:Hr; try discriminate.
    unfold should_exclude. rewrite Hr.
    rewrite !andb_true_iff, !negb_true_iff.
    intros [[[Hw He] _] Hx]. apply existsb_false_Forall in Hx.
    apply relative_to_Some in Hr. exists (x :: rel').
    split; [exact Hr|]. split; [discriminate|]. split; [eauto|].
    split; [|auto]. unfold walk_reaches in Hw.
    apply andb_true_iff in Hw as [Hroot Hw].
    rewrite forallb_forall in Hw. intros k Hk.
    destruct k as [|k]; [now rewrite take_0, app_nil_r|].
    specialize (Hw (S k)). rewrite in_seq in Hw.
    apply andb_true_iff in Hw as [Hd _]; [exact Hd|]. cbn [length] in *. lia.
  - intros (rel & -> & Hne & (data & meta & Hf) & Hd & He & Hx).
    rewrite Hf, relative_to_app. destruct rel as [|x rel']; [congruence|].
    unfold should_exclude. rewrite relative_to_app.
    rewrite (proj2 (existsb_false_Forall _ _) Hx), He.
    rewrite List.Forall_forall in Hx.
    assert (Hdot : startswith (name (root ++ x :: rel')) (lit ".") = false).
    { rewrite name_app by discriminate.
      specialize (Hx _ (last_In (x :: rel') Hne)).
      unfold excluded_part in Hx. now apply orb_false_iff in Hx as [? _]. }
    rewrite Hdot. cbn [negb]. rewrite !andb_true_r.
    unfold walk_reaches. apply andb_true_iff. split.
    + specialize (Hd 0). rewrite take_0, app_nil_r in Hd. apply Hd.
      cbn [length]. lia.
    + apply forallb_forall. intros k Hk. apply in_seq in Hk.
      apply andb_true_iff. split; [apply Hd; lia|].
      apply negb_true_iff, Hx, nth_In. lia.
Qed.

(** X16.  [find_markdown_files] changes nothing and returns, without repetition
    and in increasing order of paths (compared part by part, and the parts
    code point by code point), the files below the vault whose name ends
    with [.md], whose directories all exist, and of which no part below the
    vault starts with a dot or is an excluded name. *)
Theorem find_markdown_files_spec root extra w :
  exists files,
    find_markdown_files root extra w = (inr files, w)
    /\ StronglySorted (fun a b => path_cmp a b = Lt) files
    /\ forall p,
         p ∈ files
         <-> exists rel,
               p = root ++ rel /\ rel <> []
               /\ (exists data meta, fs w !! p = Some (File data meta))
               /\ (forall k, k < length rel ->
                             is_dir w (root ++ take k rel) = true)
               /\ endswith (name p) (lit ".md") = true
               /\ Forall (fun part => excluded_part extra part = false) rel.
Proof.
  unfold find_markdown_files, bind, get, ret. eexists. split; [reflexivity|].
  assert (Hnd : NoDup (map fst (map_to_list (fs w))))
    by apply (NoDup_fst_map_to_list (fs w)).
  split.
  - apply sorted_strictly.
    + apply lex_eq, str_cmp_eq.
    + apply lex_antisym, str_cmp_antisym.
    + apply lex_trans; [apply str_cmp_eq|apply str_cmp_trans].
    + apply NoDup_ListNoDup, List.NoDup_filter, NoDup_ListNoDup, Hnd.
  - intros p. rewrite (sorted_perm path_cmp), list_elem_of_In, filter_In.
    rewrite found_iff. split; [tauto|]. intros H. split; [|exact H].
    destruct H as (rel & _ & _ & (data & meta & Hf) & _).
    apply in_map_iff. exists (p, File data meta). split; [reflexivity|].
    apply list_elem_of_In, elem_of_map_to_list, Hf.
Qed.

(** *** Backups and the next scan *)

(** What [find_markdown_files] returns holds exactly the paths that pass
    its test. *)
Lemma find_markdown_files_mem root extra w files w' p :
  find_markdown_files root extra w = (inr files, w') ->
  p ∈ files
  <-> exists rel,
        p = root ++ rel /\ rel <> []
        /\ (exists data meta, fs w !! p = Some (File data meta))
        /\ (forall k, k < length rel -> is_dir w (root ++ take k rel) = true)
        /\ endswith (name p) (lit ".md") = true
        /\ Forall (fun part => excluded_part extra part = false) rel.
Proof.
  unfold find_markdown_files, bind, get, ret. intros [= <- _].
  rewrite (sorted_perm path_cmp), list_elem_of_In, filter_In.
  rewrite found_iff. split; [tauto|]. intros H. split; [|exact H].
  destruct H as (rel & _ & _ & (data & meta & Hf) & _).
  apply in_map_iff. exists (p, File data meta). split; [reflexivity|].
  apply list_elem_of_In, elem_of_map_to_list, Hf.
Qed.

Lemma make_dirs_made dirs : forall m m',
  make_dirs m dirs = Some m' -> Forall (fun d => m' !! d = Some Dir) dirs.
Proof.
  induction dirs as [|d dirs IH]; intros m m'; simpl; [constructor|].
  destruct (m !! d) as [[data meta|]|] eqn:E; [discriminate| |]; intros H.
  - constructor; [|eapply IH; exact H].
    apply make_dirs_adds in H as [H _]. now apply H.
  - constructor; [|eapply IH; exact H].
    apply make_dirs_adds in H as [H _]. apply H. apply lookup_insert_eq.
Qed.

Lemma mkdir_parents_made p w w' :
  mkdir true p w = (inr tt, w') ->
  forall k, 1 <= k <= length p -> fs w' !! take k p = Some Dir.
Proof.
  unfold mkdir, bind, next_fault, get, emit, modify, ret, raise.
  rewrite dirs_between_root.
  assert (Hm : forall m,
            make_dirs (fs w) (map (fun k => take k p) (seq 1 (length p)))
            = Some m ->
            forall k, 1 <= k <= length p -> m !! take k p = Some Dir).
  { intros m Hm k Hk. apply make_dirs_made in Hm.
    rewrite List.Forall_forall in Hm. apply Hm, in_map_iff.
    exists k. split; [reflexivity|]. apply in_seq. lia. }
  destruct (faults w) as [|[|n s d] rest]; cbn; try discriminate;
    (destruct (make_dirs (fs w) _) as [m|]; cbn; [|discriminate]);
    intros [= <-]; cbn; now apply Hm.
Qed.

Lemma mkdir_false_made p w w' :
  mkdir false p w = (inr tt, w') -> fs w' !! p = Some Dir.
Proof.
  unfold mkdir, bind, next_fault, get, emit, modify, ret, raise, is_dir.
  destruct (faults w) as [|[|n s d] rest]; cbn; try discriminate;
    (destruct (fs w !! p) as [[data meta|]|] eqn:E; cbn;
     [discriminate|intros [= <-]; exact E|]);
    (destruct (match fs w !! parent p with Some Dir => true | _ => false end);
     cbn; [|discriminate]);
    intros [= <-]; cbn; apply lookup_insert_eq.
Qed.

(** After a backup, the folder [_backups] and the directories of the
    backup below it exist. *)
Lemma create_backup_dirs fp root rel w bp w' :
  create_backup fp root w = (inr bp, w') ->
  relative_to fp root = Some rel ->
  forall j, j <= length (parent rel) ->
    fs w' !! ((root ++ [lit "_backups"]) ++ take j (parent rel)) = Some Dir.
Proof.
  intros H Hrel. revert H. unfold create_backup. unfold bind at 1.
  destruct (mkdir false (root ++ [lit "_backups"]) w) as [[e|[]] w1] eqn:M1;
    [discriminate|].
  apply mkdir_false_made in M1.
  unfold bind at 1. unfold try_except, relative_to_m. rewrite Hrel.
  unfold bind at 1, ret at 1.
  unfold bind at 1.
  destruct (mkdir true _ w1) as [[e|[]] w2] eqn:M2;
    [apply mkdir_result in M2 as (_ & _ & V2 & _); rewrite V2; discriminate|].
  pose proof (mkdir_result _ _ _ _ _ M2) as ([A2 _] & _).
  pose proof (mkdir_parents_made _ _ _ M2) as D2.
  unfold ret at 1. unfold bind at 1, get. unfold bind at 1.
  set (bpath := _ ++ [_]).
  destruct (copy2 fp bpath w2) as [[e|[]] w3] eqn:C; [discriminate|].
  apply copy2_result in C. cbv zeta in C.
  destruct C as [_ (data & meta & _ & Hfs)].
  intros [= <- <-] j Hj. rewrite Hfs, lookup_insert_ne.
  - destruct (decide (j = 0 /\ root = [])) as [[-> ->]|Hne].
    + rewrite take_0, app_nil_r. apply A2. exact M1.
    + specialize (D2 (length (root ++ [lit "_backups"]) + j)).
      rewrite take_app_add in D2 by lia. apply D2.
      rewrite !length_app. cbn [length]. lia.
  - intros Heq. apply (f_equal length) in Heq.
    destruct (is_dir w2 bpath); unfold bpath in Heq;
      rewrite !length_app, length_take in Heq; cbn [length] in Heq; lia.
Qed.

(** What happened when [process_file], with backups on, reports a file
    modified: the backup was made, then the file was written. *)
Lemma process_file_backup_trace fp root verbose w r w' :
  process_file fp root false true verbose w = (inr r, w') ->
  modified r = true ->
  exists w2 bp w3 w4 new enc,
    fs w2 = fs w /\ timestamp w2 = timestamp w
    /\ create_backup fp root w2 = (inr bp, w3)
    /\ fs w4 = fs w3
    /\ write_file_atomic fp new enc w4 = (inr tt, w').
Proof.
  unfold process_file, try_except.
  destruct (process_file_try fp root false true verbose w)
    as [[e|r0] w0] eqn:E; cbn; [intros [= <- <-]; discriminate|].
  intros [= <- <-]. revert E. unfold process_file_try, process_content.
  unfold bind at 1.
  pose proof (quiet_decode_loop ENCODINGS fp w) as Q1.
  destruct (decode_loop ENCODINGS fp w) as [[e|[[c|] enc]] w1] eqn:D;
    destruct Q1 as (F1 & _ & T1); cbn in F1, T1;
    [discriminate| |intros [= <- <-]; discriminate].
  unfold bind at 1.
  destruct (convert_h1_to_h2 c) as [[new n]|] eqn:C; cbn; [|discriminate].
  destruct (n =? 0); [intros [= <- <-]; discriminate|].
  unfold bind at 1. pose proof (quiet_found verbose fp root n w1) as Q2.
  destruct (when verbose _ w1) as [[e|[]] w2]; destruct Q2 as (F2 & _ & T2);
    cbn in F2, T2; [discriminate|].
  unfold bind at 1. cbn [when]. unfold bind at 1.
  destruct (create_backup fp root w2) as [[e|bp] w3] eqn:B; [discriminate|].
  pose proof (quiet_when verbose _
                (quiet_print (PBackupCreated (name bp))) w3) as (F3 & _).
  destruct (when verbose _ w3) as [[e|[]] w4]; cbn in F3; [discriminate|].
  unfold bind at 1.
  destruct (write_file_atomic fp new enc w4) as [[e|[]] w5] eqn:W;
    [discriminate|].
  intros [= <- <-] _. exists w2, bp, w3, w4, new, enc.
  repeat split; first [assumption|congruence].
Qed.

Lemma rfind_none c s : Forall (fun x => x <> c) s -> rfind c s = None.
Proof.
  induction 1 as [|x s Hx _ IH]; simpl; [reflexivity|]. rewrite IH.
  now apply N.eqb_neq in Hx as ->.
Qed.

Lemma rfind_last c pre post :
  Forall (fun x => x <> c) post -> rfind c (pre ++ c :: post) = Some (length pre).
Proof.
  intros H. induction pre as [|x pre IH]; simpl.
  - now rewrite (rfind_none _ _ H), N.eqb_refl.
  - now rewrite IH.
Qed.

Lemma endswith_spec s p : endswith s p = true <-> exists t, s = t ++ p.
Proof.
  unfold endswith. rewrite startswith_spec. split.
  - intros [t H]. exists (rev t).
    rewrite <- (rev_involutive s), H, rev_app_distr. now rewrite rev_involutive.
  - intros [t ->]. exists (rev t). apply rev_app_distr.
Qed.

(** The stem and the suffix of a name that ends with [.md] and does not
    start with a dot. *)
Lemma md_name p :
  endswith (name p) (lit ".md") = true ->
  startswith (name p) (lit ".") = false ->
  exists c pre,
    c <> DOT /\ stem p = c :: pre /\ suffix p = lit ".md".
Proof.
  intros He Hs. apply endswith_spec in He as [t Ht].
  destruct t as [|c pre].
  { rewrite Ht in Hs. vm_compute in Hs. discriminate. }
  assert (Hc : c <> DOT).
  { intros ->. rewrite Ht in Hs. vm_compute in Hs. discriminate. }
  exists c, pre. split; [exact Hc|].
  assert (Hat : suffix_at (name p) = Some (length (c :: pre))).
  { unfold suffix_at. rewrite Ht.
    change (lit ".md") with (DOT :: [109; 100]%N).
    rewrite rfind_last
      by (repeat constructor; intros E; vm_compute in E; discriminate).
    rewrite length_app. cbn [length].
    replace (0 <? S (length pre)) with true by (symmetry; apply Nat.ltb_lt; lia).
    replace (S (length pre) <? S (length pre) + 3 - 1) with true
      by (symmetry; apply Nat.ltb_lt; lia).
    reflexivity. }
  unfold stem, suffix. rewrite Hat, Ht.
  rewrite take_app_length, drop_app_length. auto.
Qed.

Lemma removelast_In {A} (l : list A) x : In x (removelast l) -> In x l.
Proof.
  destruct (decide (l = [])) as [->|Hne]; [auto|].
  destruct (exists_last Hne) as (l' & a & ->). rewrite removelast_last.
  intros H. apply in_or_app. now left.
Qed.

(** X17.  The backups are Markdown files of the vault: after [process_file]
    has rewritten a file found by the scan, the backup it made is found by
    the next scan, unless [_backups] or the name of the backup is among the
    names excluded on the command line.  The backup path is supposed not to
    be a directory: the copy would then go into it. *)
Theorem backup_found_by_next_scan fp root extra verbose w r w' files :
  find_markdown_files root extra w = (inr files, w) ->
  fp ∈ files ->
  process_file fp root false true verbose w = (inr r, w') ->
  modified r = true ->
  is_dir w (backup_path_of fp root (timestamp w)) = false ->
  lit "_backups" ∉ extra ->
  name (backup_path_of fp root (timestamp w)) ∉ extra ->
  exists files',
    find_markdown_files root extra w' = (inr files', w')
    /\ backup_path_of fp root (timestamp w) ∈ files'.
Proof.
  intros Hfind Hin Hrun Hmod Hnd Hb Hn.
  apply (find_markdown_files_mem _ _ _ _ _ fp Hfind) in Hin
    as (rel & -> & Hne & _ & Hdirs & Hmd & Hx).
  destruct (find_markdown_files_pure root extra w') as [files' Hfind'].
  exists files'. split; [exact Hfind'|].
  apply (find_markdown_files_mem _ _ _ _ _ _ Hfind').
  destruct (process_file_backup_trace _ _ _ _ _ _ Hrun Hmod)
    as (w2 & bp & w3 & w4 & new & enc & F2 & T2 & B & F4 & W).
  pose proof (create_backup_result (root ++ rel) root w2) as R.
  cbv zeta in R. rewrite B, T2 in R.
  assert (Hd2 : is_dir w2 (backup_path_of (root ++ rel) root (timestamp w))
                = false) by (unfold is_dir in *; now rewrite F2).
  specialize (R Hd2).
  destruct R as (-> & (data & meta & Hsrc & Hbp) & Hfp3 & Hkeep & _).
  pose proof (create_backup_dirs _ _ _ _ _ _ B (relative_to_app root rel))
    as Hmade.
  apply write_file_atomic_frame in W as [Wq _].
  assert (Hfile3 : fs w3 !! (root ++ rel) = Some (File data meta))
    by (now rewrite Hfp3).
  set (ts := timestamp w) in *.
  assert (Ename : name (backup_path_of (root ++ rel) root ts)
                  = stem (root ++ rel) ++ lit "_" ++ ts ++ suffix (root ++ rel)).
  { unfold backup_path_of, name. now rewrite !app_assoc, last_last. }
  rewrite List.Forall_forall in Hx.
  assert (Hdot : startswith (name (root ++ rel)) (lit ".") = false).
  { rewrite name_app by assumption. specialize (Hx _ (last_In rel Hne)).
    unfold excluded_part in Hx. now apply orb_false_iff in Hx as [? _]. }
  destruct (md_name _ Hmd Hdot) as (c & pre & Hc & Hstem & Hsuf).
  assert (Hmd' : endswith (name (backup_path_of (root ++ rel) root ts))
                   (lit ".md") = true).
  { rewrite Ename, Hsuf. apply endswith_spec.
    exists (stem (root ++ rel) ++ lit "_" ++ ts). now rewrite <- !app_assoc. }
  exists ((lit "_backups" :: parent rel)
          ++ [name (backup_path_of (root ++ rel) root ts)]).
  split; [|split; [|split; [|split; [|split]]]].
  - rewrite Ename. unfold backup_path_of. rewrite relative_to_app.
    now rewrite <- !app_assoc.
  - now destruct (parent rel).
  - exists data, meta. apply Wq; [apply backup_path_differs|].
    now rewrite F4.
  - intros k Hk. rewrite length_app in Hk. cbn [length] in Hk.
    assert (Hdir : forall q, q <> root ++ rel -> fs w3 !! q = Some Dir ->
                             is_dir w' q = true).
    { intros q Hq Hd. unfold is_dir. rewrite (Wq q Dir Hq); [reflexivity|].
      now rewrite F4. }
    rewrite take_app_le by (cbn [length]; lia).
    destruct k as [|k].
    + rewrite take_0, app_nil_r. apply Hdir.
      * intros Heq. apply (f_equal length) in Heq. rewrite length_app in Heq.
        destruct rel; [congruence|cbn in Heq; lia].
      * apply Hkeep.
        -- intros Heq. apply (f_equal length) in Heq.
           unfold backup_path_of in Heq. rewrite !length_app in Heq.
           cbn [length] in Heq. lia.
        -- assert (Hroot : is_dir w root = true).
           { specialize (Hdirs 0). rewrite take_0, app_nil_r in Hdirs.
             apply Hdirs. destruct rel; [congruence|cbn; lia]. }
           unfold is_dir in Hroot. rewrite F2.
           destruct (fs w !! root) as [[]|]; first [reflexivity|discriminate].
    + cbn [take].
      assert (Eq : root ++ lit "_backups" :: take k (parent rel)
                   = (root ++ [lit "_backups"]) ++ take k (parent rel))
        by now rewrite <- app_assoc.
      rewrite Eq. specialize (Hmade k ltac:(lia)).
      apply Hdir; [|exact Hmade].
      intros Heq. rewrite Heq in Hmade. congruence.
  - exact Hmd'.
  - apply Forall_app. split.
    + constructor.
      * unfold excluded_part. apply orb_false_iff. split; [reflexivity|].
        apply bool_decide_eq_false. rewrite elem_of_app. intros [H|H];
          [|contradiction].
        apply (bool_decide_eq_true_2 _) in H. vm_compute in H. discriminate.
      * apply List.Forall_forall. intros part Hpart.
        apply Hx. now apply removelast_In.
    + constructor; [|constructor]. unfold excluded_part.
      apply orb_false_iff. split.
      * rewrite Ename, Hstem. cbn [app startswith].
        change (lit ".") with [DOT]. cbn [startswith].
        apply N.eqb_neq in Hc. now rewrite Hc.
      * apply bool_decide_eq_false. rewrite elem_of_app. intros [H|H];
          [|contradiction].
        unfold DEFAULT_EXCLUDES in H.
        repeat (apply elem_of_cons in H as [H|H];
                [rewrite H in Hmd'; vm_compute in Hmd'; discriminate|]).
        inversion H.
Qed.


(** The backup of [a.md] in the sample vault is found by a scan made after
    the file was rewritten. *)
Lemma backup_found_by_next_scan_witness :
  exists files',
    find_markdown_files vault []
      (snd (process_file a_md vault false true false sample))
    = (inr files', snd (process_file a_md vault false true false sample))
    /\ backup_path_of a_md vault (timestamp sample) ∈ files'.
Proof.
  destruct (find_markdown_files_pure vault [] sample) as [files Hf].
  assert (Hfiles : fst (find_markdown_files vault [] sample)
                   = inr [a_md; b_md; d_md]) by (vm_compute; reflexivity).
  rewrite Hf in Hfiles. cbn [fst] in Hfiles. injection Hfiles as ->.
  assert (E : fst (process_file a_md vault false true false sample)
              = inr {| file_path := a_md; replacements := 2;
                       modified := true; error := None |})
    by (vm_compute; reflexivity).
  apply run_pair in E.
  refine (backup_found_by_next_scan a_md vault [] false sample _ _ _
            Hf _ E eq_refl _ _ _).
  - constructor.
  - vm_compute. reflexivity.
  - intros H. inversion H.
  - intros H. inversion H.
Defined.

(** *** A second run *)

(** The transform applied to its own output returns it with a count of
    zero. *)
Lemma convert_again c out n :
  convert_h1_to_h2 c = Some (out, n) -> convert_h1_to_h2 out = Some (out, 0).
Proof.
  intros H. destruct (convert_lines c) as (stf & Hf & Hc & Hs & _).
  rewrite Hc in H. injection H as <- <-.
  destruct (loop_again _ _ _ _ init (split_lines NL c)
              (conj eq_refl (conj eq_refl eq_refl)) Hf)
    as (outs & st2 & Hr & Hl & Hr2 & Hn).
  simpl in Hr, Hr2, Hn. unfold convert_h1_to_h2 at 1.
  now rewrite Hs, Hr, Hl, Hr2, Hn.
Qed.

Lemma universal_newlines_id s :
  Forall (fun c => c <> CR) s -> universal_newlines s = s.
Proof.
  induction 1 as [|c s Hc _ IH]; [reflexivity|].
  now rewrite universal_newlines_cons, IH.
Qed.

Ltac bool_to_prop :=
  repeat match goal with
  | H : (_ && _) = true |- _ => apply andb_true_iff in H as [? ?]
  | H : (_ && _) = false |- _ => apply andb_false_iff in H as [?|?]
  | H : (_ <? _)%N = true |- _ => apply N.ltb_lt in H
  | H : (_ <? _)%N = false |- _ => apply N.ltb_ge in H
  | H : (_ <=? _)%N = true |- _ => apply N.leb_le in H
  | H : (_ <=? _)%N = false |- _ => apply N.leb_gt in H
  | H : negb _ = true |- _ => apply negb_true_iff in H
  | H : negb _ = false |- _ => apply negb_false_iff in H
  end.

Ltac Zify.zify_post_hook ::= Z.to_euclidean_division_equations.

(** Decoding what [utf8_encode_char] gave returns the code point. *)
Lemma utf8_encode_char_decode c bc r :
  utf8_encode_char c = Some bc ->
  utf8_decode (bc ++ r) = option_map (cons c) (utf8_decode r).
Proof.
  unfold utf8_encode_char, surrogate.
  repeat match goal with
         | |- context [if ?b then _ else _] => destruct b eqn:?
         end; intros [= <-]; cbn [app utf8_decode]; cbv zeta;
    unfold continuation, surrogate;
    repeat match goal with
           | |- context [if ?b then _ else _] => destruct b eqn:?
           end;
    bool_to_prop; try lia;
    f_equal; f_equal; lia.
Qed.

Ltac Zify.zify_post_hook ::= idtac.

Lemma utf8_roundtrip s : forall b,
  utf8_encode s = Some b -> utf8_decode b = Some s.
Proof.
  induction s as [|c s IH]; intros b; cbn [utf8_encode].
  - now intros [= <-].
  - destruct (utf8_encode_char c) as [bc|] eqn:Ec; [|discriminate].
    destruct (utf8_encode s) as [bs|]; [|discriminate]. intros [= <-].
    now rewrite (utf8_encode_char_decode _ _ _ Ec), (IH _ eq_refl).
Qed.


Lemma option_map_None {A B} (f : A -> B) o : option_map f o = None <-> o = None.
Proof. destruct o; simpl; split; congruence. Qed.

Lemma continuation_ascii x : (x < 128)%N -> continuation x = false.
Proof.
  intros H. unfold continuation. apply andb_false_iff. left.
  apply N.leb_gt. lia.
Qed.

Lemma utf8_decode_ascii x r :
  (x < 128)%N -> utf8_decode (x :: r) = option_map (cons x) (utf8_decode r).
Proof. intros H. cbn [utf8_decode]. now rewrite (proj2 (N.ltb_lt _ _) H). Qed.

(** A byte below 128 cuts the decoding in two: what is before it and what
    is after it are decoded apart. *)
Lemma utf8_decode_app_ascii x b :
  (x < 128)%N -> forall n a, length a <= n ->
  utf8_decode (a ++ x :: b) = None
  <-> utf8_decode a = None \/ utf8_decode b = None.
Proof.
  intros Hx.
  assert (Hnil : utf8_decode ([] ++ x :: b) = None
                 <-> utf8_decode [] = None \/ utf8_decode b = None).
  { cbn [app]. rewrite utf8_decode_ascii, option_map_None by assumption.
    cbn. split; [auto|]. intros [H|H]; [discriminate|assumption]. }
  pose proof (continuation_ascii x Hx) as Cx.
  induction n as [|n IH]; intros a Hlen.
  - destruct a; [exact Hnil|cbn in Hlen; lia].
  - destruct a as [|b0 a]; [exact Hnil|]. cbn [length] in Hlen.
    cbn [app utf8_decode].
    destruct (b0 <? 128)%N.
    { rewrite !option_map_None. apply IH. lia. }
    destruct ((194 <=? b0) && (b0 <=? 223))%N.
    { destruct a as [|b1 a]; cbn [app length] in *.
      - rewrite Cx. tauto.
      - destruct (continuation b1); [|tauto].
        rewrite !option_map_None. apply IH. lia. }
    destruct ((224 <=? b0) && (b0 <=? 239))%N.
    { cbv zeta. destruct a as [|b1 [|b2 a]]; cbn [app length] in *.
      - destruct b; [tauto|]. rewrite Cx. cbn [andb]. tauto.
      - rewrite Cx, andb_false_r. cbn [andb]. tauto.
      - match goal with
        | |- context [if ?c then _ else _] => destruct c
        end; [|tauto].
        rewrite !option_map_None. apply IH. lia. }
    destruct ((240 <=? b0) && (b0 <=? 244))%N; [|tauto].
    cbv zeta. destruct a as [|b1 [|b2 [|b3 a]]]; cbn [app length] in *.
    + destruct b as [|y [|z b]]; try tauto. rewrite Cx. cbn [andb]. tauto.
    + destruct b; [tauto|]. rewrite Cx, andb_false_r. cbn [andb]. tauto.
    + rewrite Cx, andb_false_r. cbn [andb]. tauto.
    + match goal with
      | |- context [if ?c then _ else _] => destruct c
      end; [|tauto].
      rewrite !option_map_None. apply IH. lia.
Qed.

Lemma utf8_decode_cut x a b :
  (x < 128)%N ->
  utf8_decode (a ++ x :: b) = None
  <-> utf8_decode a = None \/ utf8_decode b = None.
Proof. intros Hx. now apply (utf8_decode_app_ascii x b Hx (length a)). Qed.


Lemma utf8_decode_ascii_None x r :
  (x < 128)%N -> utf8_decode (x :: r) = None <-> utf8_decode r = None.
Proof. intros H. now rewrite utf8_decode_ascii, option_map_None. Qed.

Lemma universal_newlines_app m r :
  Forall (fun c => c <> CR) m ->
  universal_newlines (m ++ r) = m ++ universal_newlines r.
Proof.
  induction 1 as [|c m Hc _ IH]; [reflexivity|].
  cbn [app]. now rewrite universal_newlines_cons, IH.
Qed.

(** What the translation of the line endings makes of a text that starts
    with a byte below 128: it starts with a byte below 128 again, and goes
    on with the translation of a text whose decoding fails when that of the
    rest does. *)
Lemma universal_newlines_ascii x t :
  (x < 128)%N ->
  exists x' t0,
    universal_newlines (x :: t) = x' :: universal_newlines t0
    /\ (x' < 128)%N /\ length t0 <= length t
    /\ (utf8_decode t0 = None <-> utf8_decode t = None).
Proof.
  intros Hx. cbn [universal_newlines]. destruct (x =? CR)%N.
  - destruct t as [|c t].
    + exists NL, []. repeat split; auto.
    + destruct (N.eqb_spec c NL) as [->|Hc].
      * exists NL, t. split; [reflexivity|]. split; [unfold NL; lia|].
        split; [cbn; lia|]. symmetry. apply utf8_decode_ascii_None.
        unfold NL. lia.
      * exists NL, (c :: t). split; [reflexivity|]. split; [unfold NL; lia|].
        split; [lia|tauto].
  - exists x, t. split; [reflexivity|]. split; [assumption|].
    split; [lia|tauto].
Qed.

(** A text is some bytes from 128 up, followed or not by a byte below 128
    and a rest. *)
Lemma span_ascii s :
  Forall (fun c => (128 <= c)%N) s
  \/ exists m x t,
       s = m ++ x :: t /\ Forall (fun c => (128 <= c)%N) m /\ (x < 128)%N.
Proof.
  induction s as [|c s IH]; [left; constructor|].
  destruct (N.ltb_spec c 128) as [Hc|Hc].
  - right. exists [], c, s. repeat split; [constructor|assumption].
  - destruct IH as [H|(m & x & t & -> & Hm & Hx)].
    + left. now constructor.
    + right. exists (c :: m), x, t. repeat split; [now constructor|assumption].
Qed.

Lemma high_not_cr m :
  Forall (fun c => (128 <= c)%N) m -> Forall (fun c => c <> CR) m.
Proof.
  intros H. eapply Forall_impl; [exact H|].
  intros c Hc ->. unfold CR in Hc. lia.
Qed.

(** The translation of the line endings changes bytes below 128 only: the
    bytes decode as utf-8 after it exactly when they did before. *)
Lemma utf8_decode_universal_newlines n : forall bs,
  length bs <= n ->
  utf8_decode (universal_newlines bs) = None <-> utf8_decode bs = None.
Proof.
  induction n as [|n IH]; intros bs Hn.
  - destruct bs; [tauto|cbn in Hn; lia].
  - destruct bs as [|c s]; [tauto|]. cbn [length] in Hn.
    destruct (N.ltb_spec c 128) as [Hc|Hc].
    + destruct (universal_newlines_ascii c s Hc)
        as (x' & t0 & -> & Hx' & Hlen & Ht0).
      rewrite !utf8_decode_ascii_None by assumption.
      rewrite IH by lia. exact Ht0.
    + destruct (span_ascii s) as [H|(m & x & t & -> & Hm & Hx)].
      * rewrite universal_newlines_id; [tauto|].
        apply high_not_cr. now constructor.
      * assert (Hcm : Forall (fun c => (128 <= c)%N) (c :: m))
          by now constructor.
        change (c :: m ++ x :: t) with ((c :: m) ++ x :: t).
        rewrite universal_newlines_app by now apply high_not_cr.
        destruct (universal_newlines_ascii x t Hx)
          as (x' & t0 & -> & Hx' & Hlen & Ht0).
        rewrite !utf8_decode_cut by assumption.
        rewrite IH, Ht0; [tauto|].
        rewrite length_app in Hn. cbn [length] in Hn. lia.
Qed.

Lemma utf8_decode_join ls :
  utf8_decode (join NL ls) = None <-> Exists (fun l => utf8_decode l = None) ls.
Proof.
  induction ls as [|l [|l' ls] IH].
  - cbn. rewrite Exists_nil. split; [discriminate|tauto].
  - cbn [join]. rewrite Exists_cons, Exists_nil. tauto.
  - rewrite join_cons, utf8_decode_cut by (unfold NL; lia).
    rewrite IH, (Exists_cons _ l). tauto.
Qed.

Lemma loop_decodable lines : forall i st st',
  Forall one_line lines -> loop i lines st = Some st' ->
  exists outs,
    result_lines st' = result_lines st ++ outs
    /\ (Exists (fun l => utf8_decode l = None) outs
        <-> Exists (fun l => utf8_decode l = None) lines).
Proof.
  induction lines as [|x lines IH]; intros i st st' Hall; simpl.
  - intros [= <-]. exists []. now rewrite app_nil_r.
  - destruct (body i x st) as [st1|] eqn:E; [|discriminate]. intros H.
    inversion Hall as [|? ? Hx Hall']; subst.
    destruct (body_emit _ _ _ _ Hx E) as (o & Ho & Hcase).
    destruct (IH _ _ _ Hall' H) as (outs & Hr & Hex).
    exists (o :: outs). rewrite Hr, Ho, <- app_assoc.
    split; [reflexivity|]. rewrite !Exists_cons, Hex.
    destruct Hcase as [[-> _]|(k & rest & [_ ->] & -> & _)]; [tauto|].
    change (lit "## " ++ rest) with (HASH :: HASH :: SP :: rest).
    change (lit "# " ++ rest) with (HASH :: SP :: rest).
    rewrite !utf8_decode_cut by (unfold HASH; lia).
    rewrite (utf8_decode_ascii_None HASH) by (unfold HASH; lia). tauto.
Qed.

(** The transform inserts bytes below 128 only: its output decodes as utf-8
    exactly when its input does. *)
Lemma convert_decodable c out n :
  convert_h1_to_h2 c = Some (out, n) ->
  utf8_decode out = None <-> utf8_decode c = None.
Proof.
  intros H. destruct (convert_lines c) as (stf & Hf & Hc & _).
  rewrite Hc in H. injection H as <- <-.
  destruct (loop_decodable _ _ _ _ (split_lines NL c) Hf) as (outs & Hr & Hex).
  cbn in Hr. subst outs.
  transitivity (utf8_decode (join NL (split NL c)) = None);
    [now rewrite !utf8_decode_join|now rewrite join_split].
Qed.


(** The bytes written are read back as the text written, with the encoding
    they were written with. *)
Lemma encodings_cases (tried : list encoding) enc rest :
  ENCODINGS = tried ++ enc :: rest ->
  (tried = [] /\ enc = UTF8)
  \/ (tried = [UTF8] /\ enc = UTF8_SIG)
  \/ (tried = [UTF8; UTF8_SIG] /\ enc = LATIN1).
Proof.
  unfold ENCODINGS. destruct tried as [|e1 [|e2 [|e3 [|e4 tried]]]];
    cbn [app]; intros H; injection H; intros; subst; auto; discriminate.
Qed.

Lemma written_reads_back data s enc tried rest new n bytes :
  ENCODINGS = tried ++ enc :: rest ->
  Forall (fun e => decode e data = None) tried ->
  decode enc data = Some s ->
  convert_h1_to_h2 (universal_newlines s) = Some (new, n) ->
  encode enc new = Some bytes ->
  Forall (fun e => decode e bytes = None) tried
  /\ decode enc bytes = Some new
  /\ universal_newlines new = new.
Proof.
  intros Hl Ht Hd Hc He.
  assert (Hnew : universal_newlines new = new).
  { apply universal_newlines_id.
    eapply convert_no_cr; [apply universal_newlines_no_cr|exact Hc]. }
  destruct (encodings_cases _ _ _ Hl) as [[-> ->]|[[-> ->]|[-> ->]]];
    cbn [decode encode] in *.
  - split; [constructor|]. split; [|exact Hnew]. now apply utf8_roundtrip.
  - exfalso. inversion Ht as [|? ? H1 _]; subst. cbn [decode] in H1.
    apply (utf8_sig_implies_utf8 data s); assumption.
  - inversion Ht as [|? ? H1 _]; subst. cbn [decode] in H1.
    destruct (forallb _ new); [|discriminate]. injection He as <-.
    injection Hd as <-.
    assert (Hn : utf8_decode new = None).
    { apply (convert_decodable _ _ _ Hc).
      now apply (utf8_decode_universal_newlines (length data)). }
    split; [|auto]. constructor; [exact Hn|]. constructor; [|constructor].
    cbn [decode].
    destruct (utf8_decode (strip_bom new)) as [x|] eqn:Hs; [|reflexivity].
    exfalso. apply (utf8_sig_implies_utf8 new x); assumption.
Qed.

(** X18.  A second run finds nothing to do: once [process_file] has
    rewritten a file, processing the file as it was written (when no open
    fails) reads it with the same result whatever the mode, no error, a
    count of zero and no modification. *)
Theorem second_run_finds_nothing
    fp root d b v w r w' d2 b2 v2 w2 :
  process_file fp root d b v w = (inr r, w') -> modified r = true ->
  fs w2 !! fp = fs w' !! fp -> faults w2 = [] ->
  exists w3,
    process_file fp root d2 b2 v2 w2
    = (inr {| file_path := fp; replacements := 0;
              modified := false; error := None |}, w3).
Proof.
  intros Hrun Hmod Hsame Hno.
  destruct (process_file_written _ _ _ _ _ _ _ _ Hrun Hmod)
    as (data & meta & s & enc & tried & rest & new & n & bytes & meta'
        & _ & Hl & Ht & Hd & Hc & He & Hf' & _).
  destruct (written_reads_back _ _ _ _ _ _ _ _ Hl Ht Hd Hc He)
    as (Ht2 & Hd2 & Hnew).
  rewrite Hf' in Hsame.
  destruct (decode_loop_no_fault _ _ _ _ _ _ _ _ _ Hsame Hno Hl Ht2 Hd2)
    as (w3 & Hloop).
  rewrite Hnew in Hloop. exists w3.
  unfold process_file, try_except, process_file_try, process_content.
  unfold bind at 1.
  rewrite Hloop. unfold bind at 1.
  rewrite (convert_again _ _ _ Hc). reflexivity.
Qed.


(** [a.md] of the sample vault, rewritten, then processed again. *)
Lemma second_run_finds_nothing_witness :
  exists w3,
    process_file a_md vault true true false
      (snd (process_file a_md vault false true false sample))
    = (inr {| file_path := a_md; replacements := 0;
              modified := false; error := None |}, w3).
Proof.
  assert (E : fst (process_file a_md vault false true false sample)
              = inr {| file_path := a_md; replacements := 2;
                       modified := true; error := None |})
    by (vm_compute; reflexivity).
  apply run_pair in E.
  refine (second_run_finds_nothing a_md vault false true false sample _ _
            true true false _ E eq_refl eq_refl _).
  vm_compute. reflexivity.
Defined.

End SysExtra.
